(** * transformer-lm: the training driver [lm/main.py]

    A shallow embedding of the orchestration code of [lm/main.py]: the batch
    samplers, the running-mean meter, the checkpoint writer, the start-up
    sequence and the training loop.  The neural model, the optimizer, the
    tokenizer and the plotting sink are external collaborators; they appear
    as fields of a [World] record and as events of a trace.

    Python integers are [Z]; arrays of token ids are [list Z]; Python
    exceptions are values of [exn] carried by [result]; the files of the run
    directory live in a [gmap] from paths to contents.

    What is left out.  The file system holds the files [main] itself names;
    the event log that [json_log_plots.write_event] keeps under the run
    directory is not among them, the call is an event of the trace.  The
    interrupt signal is delivered inside [train()] only: an interrupt
    during start-up or in the validate-only branch, which the [try] of line
    221 does not cover, is not modelled.  [mp.spawn] is the call alone: the
    wait for the workers, and the exception the parent receives when one of
    them fails, are not modelled.  [Path.mkdir] assumes that no regular
    file stands where a directory is to be made. *)

From Stdlib Require Import Ascii String ZArith QArith List Lia.
From stdpp Require Import base tactics option list gmap strings fin_maps.

Local Open Scope Z_scope.

(** ** Python exceptions and results *)

Inductive exn : Type :=
| ValueError
| ZeroDivisionError
| StatisticsError
| IndexError
| AssertionError (line : nat)
| KeyboardInterrupt
| SystemExit (code : Z).

Inductive result (A : Type) : Type :=
| Ok (a : A)
| Raise (e : exn).
Arguments Ok {A} a.
Arguments Raise {A} e.

#[global] Instance result_ret : MRet result := fun A a => Ok a.
#[global] Instance result_bind : MBind result := fun A B f r =>
  match r with
  | Ok a => f a
  | Raise e => Raise e
  end.

(** ** Python built-ins used by the module *)

Module Py.

(** [a % b] on integers: the sign follows the divisor, as [Z.modulo]. *)
Definition mod_ (a b : Z) : result Z :=
  if b =? 0 then Raise ZeroDivisionError else Ok (a mod b).

(** [a // b] on integers: floor division, as [Z.div]. *)
Definition floordiv (a b : Z) : result Z :=
  if b =? 0 then Raise ZeroDivisionError else Ok (a / b).

(** [len(range(start, stop, step))] for a non-zero step. *)
Definition range_len (start stop step : Z) : Z :=
  if 0 <? step
  then (if start <? stop then (stop - start - 1) / step + 1 else 0)
  else (if stop <? start then (start - stop - 1) / (- step) + 1 else 0).

(** [range(start, stop, step)], fully enumerated. *)
Definition range (start stop step : Z) : result (list Z) :=
  if step =? 0 then Raise ValueError
  else Ok (map (fun k : nat => start + Z.of_nat k * step)
               (seq 0 (Z.to_nat (range_len start stop step)))).

(** How a slice bound is brought into [0, len]: negative bounds count
    from the end, and everything is clamped. *)
Definition clamp (len i : Z) : Z :=
  if i <? 0 then Z.max 0 (i + len) else Z.min i len.

(** [l[i:j]] on a list or a one-dimensional array. *)
Definition slice {A : Type} (l : list A) (i j : Z) : list A :=
  let len := Z.of_nat (length l) in
  let i' := clamp len i in
  let j' := clamp len j in
  take (Z.to_nat (j' - i')) (drop (Z.to_nat i') l).

End Py.

(** ** Randomness

    A random computation is the list of its equally likely outcomes; an
    outcome is a value or an exception.  [np.random.randint(low, high)]
    has one outcome per integer of [low, high). *)

Module Rand.

Definition t (A : Type) : Type := list (result A).

Definition ret {A : Type} (a : A) : t A := [Ok a].

Definition bind {A B : Type} (m : t A) (f : A -> t B) : t B :=
  flat_map (fun r => match r with
                     | Ok a => f a
                     | Raise e => [Raise e]
                     end) m.

Definition randint (low high : Z) : t Z :=
  if low <? high
  then map (fun k : nat => Ok (low + Z.of_nat k)) (seq 0 (Z.to_nat (high - low)))
  else [Raise ValueError].

(** [[f() for _ in range(n)]] for a random [f]. *)
Fixpoint replicate {A : Type} (n : nat) (m : t A) : t (list A) :=
  match n with
  | O => ret []
  | S n' => bind m (fun x => bind (replicate n' m) (fun xs => ret (x :: xs)))
  end.

End Rand.

(** ** The batch samplers (lines 230-251) *)

(** [_gen_training_batch(dataset, n_ctx, batch_size)]. *)
Definition _gen_training_batch (dataset : list Z) (n_ctx batch_size : Z)
  : Rand.t (list (list Z)) :=
  Rand.bind
    (Rand.replicate (Z.to_nat batch_size)
       (Rand.randint 0 (Z.of_nat (length dataset) - n_ctx)))
    (fun indices =>
       Rand.ret (map (fun idx => Py.slice dataset idx (idx + n_ctx)) indices)).

(** The generator [_batch_it(it, batch_size)], as the list of the batches it
    yields; [batch] is the local accumulator. *)
Fixpoint _batch_it_from {A : Type} (batch : list A) (it : list A) (batch_size : Z)
  : list (list A) :=
  match it with
  | [] => [batch]
  | x :: it' =>
      let batch' := batch ++ [x] in
      if Z.of_nat (length batch') =? batch_size
      then batch' :: _batch_it_from [] it' batch_size
      else _batch_it_from batch' it' batch_size
  end.

Definition _batch_it {A : Type} (it : list A) (batch_size : Z) : list (list A) :=
  _batch_it_from [] it batch_size.

(** The windows [_valid_batch_iter] hands to [_batch_it] (lines 237-240):
    [range] is evaluated when the function is called, the slices when the
    batches are consumed. *)
Definition valid_windows (dataset : list Z) (n_ctx : Z) : result (list (list Z)) :=
  start_indices ← Py.range 0 (Z.of_nat (length dataset) - n_ctx) n_ctx;
  Ok (map (fun start_idx => Py.slice dataset start_idx (start_idx + n_ctx))
          start_indices).

(** [_valid_batch_iter(dataset, batch_size=..., n_ctx=...)]. *)
Definition _valid_batch_iter (dataset : list Z) (batch_size n_ctx : Z)
  : result (list (list (list Z))) :=
  windows ← valid_windows dataset n_ctx;
  Ok (_batch_it windows batch_size).

(** ** The running mean (lines 254-265)

    Observations are exact rationals: [statistics.mean] adds its data as
    exact fractions and divides once. *)

Module AverageMeter.

Record t : Type := Build { values : list Q }.

Definition init : t := Build [].

Definition update (self : t) (value : Q) : t := Build (values self ++ [value]).

Definition sum (l : list Q) : Q := fold_left Qplus l 0%Q.

Definition mean (self : t) : result Q :=
  match values self with
  | [] => Raise StatisticsError
  | _ :: _ => Ok (sum (values self) / inject_Z (Z.of_nat (length (values self))))%Q
  end.

Definition reset (self : t) : t := Build [].

End AverageMeter.

(** ** The run directory

    A path is the list of its components; a node is a directory or a file
    with its content.  Failures of the operating system (permissions, a
    full disk) are outside the model. *)

Abbreviation path := (list string).

(** What a file of the run directory holds.  Model parameters and optimizer
    state are identified by the number of optimizer updates that produced
    them. *)
Inductive content : Type :=
| Empty
| Text (s : string)
| ModelCkpt (state_dict : nat) (step : Z)
| OptimCkpt (state_dict : nat).

Inductive node : Type :=
| Dir
| File (c : content).

Module Path.

(** [s.rfind(c)]. *)
Fixpoint rfind (c : Ascii.ascii) (s : string) : option nat :=
  match s with
  | EmptyString => None
  | String a s' =>
      match rfind c s' with
      | Some i => Some (S i)
      | None => if Ascii.eqb a c then Some O else None
      end
  end.

(** [PurePath.suffix] and [PurePath.stem] of a final component. *)
Definition suffix (name : string) : string :=
  match rfind "."%char name with
  | Some i =>
      if (0 <? i)%nat && (i <? String.length name - 1)%nat
      then String.substring i (String.length name - i) name
      else EmptyString
  | None => EmptyString
  end.

Definition stem (name : string) : string :=
  match rfind "."%char name with
  | Some i =>
      if (0 <? i)%nat && (i <? String.length name - 1)%nat
      then String.substring 0 i name
      else name
  | None => name
  end.

(** [p / name]. *)
Definition join (p : path) (name : string) : path := p ++ [name].

(** [Path.exists()]. *)
Definition exists_ (p : path) (fs : gmap path node) : bool :=
  bool_decide (is_Some (fs !! p)).

(** [shutil.rmtree(p)]: [p] and everything below it. *)
Definition rmtree (p : path) (fs : gmap path node) : gmap path node :=
  filter (fun kv : path * node => ¬ p `prefix_of` kv.1) fs.

(** [p.mkdir(exist_ok=True, parents=True)]: every missing ancestor and
    [p] itself become directories.  A regular file at [p] or above it, on
    which pathlib raises [FileExistsError], is left out: what is there
    stays. *)
Definition mkdir (p : path) (fs : gmap path node) : gmap path node :=
  foldr (fun k acc =>
           let q := take (S k) p in
           match acc !! q with
           | Some _ => acc
           | None => <[q := Dir]> acc
           end) fs (seq 0 (length p)).

(** [p.touch()]: an existing node keeps its content. *)
Definition touch (p : path) (fs : gmap path node) : gmap path node :=
  match fs !! p with
  | Some _ => fs
  | None => <[p := File Empty]> fs
  end.

(** Writing a whole file: [write_text], [torch.save]. *)
Definition write (p : path) (c : content) (fs : gmap path node) : gmap path node :=
  <[p := File c]> fs.

(** [shutil.copy(src, dst)]. *)
Definition copy (src dst : path) (fs : gmap path node) : gmap path node :=
  match fs !! src with
  | Some n => <[dst := n]> fs
  | None => fs
  end.

End Path.

(** ** The process: arguments, collaborators, state *)

(** The keyword arguments of [main] that reach the control flow.  The
    learning rate and the model sizes only flow into the external model. *)
Record Args : Type := {
  run_path : path;
  dataset_path : path;
  sp_model_path : path;
  epochs : Z;
  batch_size : Z;
  g_accum_gradients : option Z;
  n_ctx : Z;
  clean : bool;
  log_every : Z;
  save_every : Z;
  validate_every : option Z;
  only_validate : bool;
  max_tokens : option Z;
  device_id : option Z;
  n_devices : option Z;
}.

(** What the process finds outside itself. *)
Record World : Type := {
  (** [torch.cuda.device_count()] and [torch.cuda.is_available()] *)
  device_count : Z;
  cuda_available : bool;
  (** the text [json.dumps(params, ...)] produces *)
  params_s : string;
  (** the arrays [np.load] returns *)
  train_dataset : list Z;
  valid_dataset : list Z;
  (** which of the equally likely batches the [k]-th update draws *)
  pick : nat -> nat;
  (** [float(loss.item())] of each micro-batch of [torch.split(context,
      batch_size)], for the model after [k] updates *)
  train_losses : nat -> list (list Z) -> list Q;
  (** [float(loss.item())] of a validation batch that holds at least one
      window, for the model after [k] updates *)
  valid_loss : nat -> list (list Z) -> Q;
}.

(** A value interpolated into an f-string. *)
Inductive fmt_arg : Type :=
| AInt (z : Z)
| APath (p : path)
| ADevice (cuda : bool) (index : option Z).

(** Calls that leave the process, in the order they are made. *)
Inductive event : Type :=
| EvSpawn (kwargs : Args) (nprocs : Z)
| EvPrint (text : string)
| EvPrintF (template : string) (args : list fmt_arg)
| EvRmtree (p : path)
| EvMkdir (p : path)
| EvTouch (p : path)
| EvWriteText (p : path) (s : string)
| EvCopy (src dst : path)
| EvTorchSave (p : path) (c : content)
| EvLoadTokenizer (p : path)
| EvLoadArray (p : path)
| EvCreateModel (cuda : bool) (index : option Z)
| EvInitProcessGroup (rank world_size : Z)
| EvZeroGrad
| EvBackward (loss : Q)
| EvOptimizerStep
| EvEvalMode
| EvForward (ctx : list (list Z))
| EvTrainMode
| EvWriteEvent (step : Z) (name : string) (value : Q).

Record State : Type := mkState {
  fs : gmap path node;
  trace : list event;
  (** the [nonlocal step] of [train] *)
  step : Z;
  (** calls of [optimizer.step()] so far *)
  updates : nat;
  loss_meter : AverageMeter.t;
  (** statements of [train()] left to run before SIGINT is delivered *)
  sigint : option nat;
}.

(** A computation reads and writes the state and ends with a value or an
    exception; the state reached is kept in both cases. *)
Definition M (A : Type) : Type := State -> State * result A.

#[global] Instance M_ret : MRet M := fun A a st => (st, Ok a).
#[global] Instance M_bind : MBind M := fun A B f m st =>
  match m st with
  | (st', Ok a) => f a st'
  | (st', Raise e) => (st', Raise e)
  end.

Definition raise {A : Type} (e : exn) : M A := fun st => (st, Raise e).

Definition lift {A : Type} (r : result A) : M A := fun st => (st, r).

Definition get {A : Type} (proj : State -> A) : M A := fun st => (st, Ok (proj st)).

Definition emit (e : event) : M unit := fun st =>
  (mkState (fs st) (trace st ++ [e]) (step st) (updates st) (loss_meter st) (sigint st),
   Ok tt).

Definition modify_fs (f : gmap path node -> gmap path node) : M unit := fun st =>
  (mkState (f (fs st)) (trace st) (step st) (updates st) (loss_meter st) (sigint st),
   Ok tt).

Definition set_step (s : Z) : M unit := fun st =>
  (mkState (fs st) (trace st) s (updates st) (loss_meter st) (sigint st), Ok tt).

Definition set_updates (u : nat) : M unit := fun st =>
  (mkState (fs st) (trace st) (step st) u (loss_meter st) (sigint st), Ok tt).

Definition set_loss_meter (m : AverageMeter.t) : M unit := fun st =>
  (mkState (fs st) (trace st) (step st) (updates st) m (sigint st), Ok tt).

(** A statement boundary inside [train()]: a pending SIGINT is delivered
    here, once, as [KeyboardInterrupt]. *)
Definition tick : M unit := fun st =>
  match sigint st with
  | None => (st, Ok tt)
  | Some O =>
      (mkState (fs st) (trace st) (step st) (updates st) (loss_meter st) None,
       Raise KeyboardInterrupt)
  | Some (S n) =>
      (mkState (fs st) (trace st) (step st) (updates st) (loss_meter st) (Some n),
       Ok tt)
  end.

(** [try: body except KeyboardInterrupt: handler]. *)
Definition except_KeyboardInterrupt {A : Type} (body handler : M A) : M A := fun st =>
  match body st with
  | (st', Raise KeyboardInterrupt) => handler st'
  | other => other
  end.

(** [assert cond], on the given line. *)
Definition assert_ (cond : bool) (line : nat) : M unit :=
  if cond then mret tt else raise (AssertionError line).

(** The exit status of the interpreter once [main] has ended. *)
Definition exit_status (r : result unit) : Z :=
  match r with
  | Ok _ => 0
  | Raise (SystemExit code) => code
  | Raise _ => 1
  end.

(** ** The closures of [main] (lines 126-215) *)

(** The variables of [main] that its nested functions read. *)
Record Env : Type := {
  world : World;
  args : Args;
  is_main : bool;
  validate_every' : Z;
  accum_gradients : Z;
  step_tokens : Z;
  epoch_size : Z;
}.

Definition model_path (env : Env) : path := Path.join (run_path (args env)) "model.pt".
Definition optim_path (env : Env) : path := Path.join (run_path (args env)) "optim.pt".

(** [run_path / f'{path.stem}-prev{path.suffix}'], for [path = run_path / name]. *)
Definition prev_path (env : Env) (name : string) : path :=
  Path.join (run_path (args env)) (Path.stem name +:+ "-prev" +:+ Path.suffix name).

(** One round of the [for path in [model_path, optim_path]] loop of [save]. *)
Definition backup (env : Env) (name : string) : M unit :=
  tick;;
  present ← get (fun st => Path.exists_ (Path.join (run_path (args env)) name) (fs st));
  if present : bool
  then
    let src := Path.join (run_path (args env)) name in
    emit (EvCopy src (prev_path env name));;
    modify_fs (Path.copy src (prev_path env name))
  else mret tt.

(** [torch.save(obj, p)]. *)
Definition torch_save (c : content) (p : path) : M unit :=
  tick;;
  emit (EvTorchSave p c);;
  modify_fs (Path.write p c).

(** [save()], lines 206-215. *)
Definition save (env : Env) : M unit :=
  if negb (is_main env) then mret tt
  else
    backup env "model.pt";;
    backup env "optim.pt";;
    u ← get updates;
    s ← get step;
    torch_save (ModelCkpt u s) (model_path env);;
    u' ← get updates;
    torch_save (OptimCkpt u') (optim_path env).

(** The [for ctx in _valid_batch_iter(...)] loop of [get_valid_loss].  A
    batch without windows becomes [torch.LongTensor([])], a tensor of one
    dimension: the model is called on it, and the pass fails, at the latest
    in [loss_fn], whose [ctx[:, 1:]] indexes two dimensions. *)
Fixpoint valid_loop (env : Env) (batches : list (list (list Z)))
    (losses : AverageMeter.t) : M AverageMeter.t :=
  match batches with
  | [] => mret losses
  | ctx :: rest =>
      tick;;
      emit (EvForward ctx);;
      (if decide (ctx = []) then raise IndexError else mret tt);;
      u ← get updates;
      valid_loop env rest (AverageMeter.update losses (valid_loss (world env) u ctx))
  end.

(** [get_valid_loss()], lines 189-204. *)
Definition get_valid_loss (env : Env) : M Q :=
  tick;;
  emit EvEvalMode;;
  batches ← lift (_valid_batch_iter (valid_dataset (world env))
                    (batch_size (args env)) (n_ctx (args env)));
  losses ← valid_loop env batches AverageMeter.init;
  tick;;
  emit EvTrainMode;;
  lift (AverageMeter.mean losses).

(** [validate()], lines 182-187. *)
Definition validate (env : Env) : M unit :=
  if negb (is_main env) then mret tt
  else
    s ← get step;
    v ← get_valid_loss env;
    tick;;
    emit (EvWriteEvent (s * step_tokens env) "valid_loss" v).

(** The [for ctx in torch.split(context, batch_size)] loop of [train_step],
    one round per loss the model reports. *)
Fixpoint micro_batches (losses : list Q) : M unit :=
  match losses with
  | [] => mret tt
  | loss :: rest =>
      tick;;
      emit (EvBackward loss);;
      m ← get loss_meter;
      set_loss_meter (AverageMeter.update m loss);;
      micro_batches rest
  end.

(** [train_step()], lines 136-149.  The batch drawn is the one the world
    picks among the outcomes of [_gen_training_batch]. *)
Definition train_step (env : Env) : M unit :=
  tick;;
  u ← get updates;
  let outcomes :=
    _gen_training_batch (train_dataset (world env)) (n_ctx (args env))
      (batch_size (args env) * accum_gradients env) in
  context ← lift (nth (pick (world env) u mod length outcomes)%nat outcomes
                      (Raise ValueError));
  tick;;
  emit EvZeroGrad;;
  micro_batches (train_losses (world env) u context);;
  tick;;
  emit EvOptimizerStep;;
  set_updates (S u).

(** [max_tokens and step * step_tokens >= max_tokens]. *)
Definition budget_reached (env : Env) (s : Z) : bool :=
  match max_tokens (args env) with
  | None => false
  | Some mt => negb (mt =? 0) && (mt <=? s * step_tokens env)
  end.

(** The body of the inner [for _ in epoch_pbar] loop, lines 158-177;
    [true] when the body executed [return]. *)
Definition loop_body (env : Env) : M bool :=
  tick;;
  s ← get step;
  r ← lift (Py.mod_ s (save_every (args env)));
  (if r =? 0 then save env else mret tt);;
  tick;;
  if budget_reached env s
  then
    emit (EvPrintF "max_tokens {} reached, saving and exiting"
            [AInt (default 0 (max_tokens (args env)))]);;
    save env;;
    validate env;;
    mret true
  else
    train_step env;;
    tick;;
    set_step (s + 1);;
    tick;;
    m ← get loss_meter;
    _ ← lift (AverageMeter.mean m);
    tick;;
    (if is_main env
     then
       r ← lift (Py.mod_ (s + 1) (log_every (args env)));
       if r =? 0
       then
         m ← get loss_meter;
         l ← lift (AverageMeter.mean m);
         emit (EvWriteEvent ((s + 1) * step_tokens env) "loss" l);;
         tick;;
         set_loss_meter (AverageMeter.reset m)
       else mret tt
     else mret tt);;
    tick;;
    r ← lift (Py.mod_ (s + 1) (validate_every' env));
    (if r =? 0 then validate env else mret tt);;
    mret false.

(** [for _ in epoch_pbar: ...] over the [n] remaining rounds; [true] when
    a round executed [return]. *)
Fixpoint epoch_loop (env : Env) (n : nat) : M bool :=
  match n with
  | O => mret false
  | S n' =>
      returned ← loop_body env;
      if returned : bool then mret true else epoch_loop env n'
  end.

(** [for epoch in trange(1, epochs + 1): ...] over the [n] remaining
    epochs, lines 153-180. *)
Fixpoint epochs_loop (env : Env) (n : nat) : M unit :=
  match n with
  | O => mret tt
  | S n' =>
      returned ← epoch_loop env (Z.to_nat (epoch_size env));
      if returned : bool then mret tt
      else
        tick;;
        save env;;
        validate env;;
        epochs_loop env n'
  end.

(** [train()], lines 151-180. *)
Definition train (env : Env) : M unit :=
  epochs_loop env (Z.to_nat (epochs (args env))).

(** ** [main] (lines 24-227) *)

Definition with_n_devices (a : Args) (n : option Z) : Args :=
  {| run_path := run_path a; dataset_path := dataset_path a;
     sp_model_path := sp_model_path a; epochs := epochs a;
     batch_size := batch_size a; g_accum_gradients := g_accum_gradients a;
     n_ctx := n_ctx a; clean := clean a; log_every := log_every a;
     save_every := save_every a; validate_every := validate_every a;
     only_validate := only_validate a; max_tokens := max_tokens a;
     device_id := device_id a; n_devices := n |}.

Definition with_device_id (a : Args) (i : option Z) : Args :=
  {| run_path := run_path a; dataset_path := dataset_path a;
     sp_model_path := sp_model_path a; epochs := epochs a;
     batch_size := batch_size a; g_accum_gradients := g_accum_gradients a;
     n_ctx := n_ctx a; clean := clean a; log_every := log_every a;
     save_every := save_every a; validate_every := validate_every a;
     only_validate := only_validate a; max_tokens := max_tokens a;
     device_id := i; n_devices := n_devices a |}.

(** [device_id in {0, None}]. *)
Definition primary (a : Args) : bool :=
  match device_id a with
  | None => true
  | Some i => i =? 0
  end.

(** Lines 66-73: the run directory and its marker. *)
Definition prepare_run_dir (a : Args) : M unit :=
  if primary a
  then
    let run_path_mark := Path.join (run_path a) ".lm" in
    run_exists ← get (fun st => Path.exists_ (run_path a) (fs st));
    (if clean a && run_exists
     then
       mark_exists ← get (fun st => Path.exists_ run_path_mark (fs st));
       assert_ mark_exists 70;;
       emit (EvRmtree (run_path a));;
       modify_fs (Path.rmtree (run_path a))
     else mret tt);;
    emit (EvMkdir (run_path a));;
    modify_fs (Path.mkdir (run_path a));;
    emit (EvTouch run_path_mark);;
    modify_fs (Path.touch run_path_mark)
  else mret tt.

(** Lines 75-124: tokenizer, [params.json], the corpora, the model and the
    process group. *)
Definition load_everything (w : World) (a : Args) (world_size : Z) : M unit :=
  emit (EvLoadTokenizer (sp_model_path a));;
  (if primary a
   then
     emit (EvPrint (params_s w));;
     emit (EvWriteText (Path.join (run_path a) "params.json") (params_s w));;
     modify_fs (Path.write (Path.join (run_path a) "params.json") (Text (params_s w)))
   else mret tt);;
  emit (EvPrintF "Loading dataset from {}" [APath (dataset_path a)]);;
  emit (EvLoadArray (Path.join (dataset_path a) "valid.npy"));;
  emit (EvLoadArray (Path.join (dataset_path a) "train.npy"));;
  emit (EvPrintF "Train dataset has {:,} tokens"
          [AInt (Z.of_nat (length (train_dataset w)))]);;
  emit (EvPrintF "Validation dataset has {:,} tokens"
          [AInt (Z.of_nat (length (valid_dataset w)))]);;
  let index := if cuda_available w then device_id a else None in
  emit (EvCreateModel (cuda_available w) index);;
  set_updates O;;
  set_loss_meter AverageMeter.init;;
  match device_id a with
  | Some rank =>
      emit (EvPrintF "device {} initializing process group"
              [ADevice (cuda_available w) index]);;
      emit (EvInitProcessGroup rank world_size);;
      emit (EvPrintF "process group for {} initialized"
              [ADevice (cuda_available w) index])
  | None => mret tt
  end.

(** The [except KeyboardInterrupt] clause, lines 224-227. *)
Definition interrupted (env : Env) : M unit :=
  if is_main env
  then
    emit (EvPrint "Interrupted, saving");;
    save env;;
    raise (SystemExit 1)
  else mret tt.

(** Lines 217-227: validate only, or train. *)
Definition run (env : Env) : M unit :=
  if only_validate (args env)
  then
    if is_main env
    then emit (EvPrint "Validation loss: {validate():.4f}")
    else mret tt
  else except_KeyboardInterrupt (train env) (interrupted env).

(** Lines 57-227, once [n_devices] is known. *)
Definition main_worker (w : World) (a : Args) (n_devices : Z) : M unit :=
  let world_size := Z.max 1 n_devices in
  let g_accum_gradients := default world_size (g_accum_gradients a) in
  r ← lift (Py.mod_ g_accum_gradients world_size);
  assert_ (r =? 0) 61;;
  accum_gradients ← lift (Py.floordiv g_accum_gradients world_size);
  let validate_every := default (save_every a) (validate_every a) in
  prepare_run_dir a;;
  load_everything w a world_size;;
  set_step 1;;
  let step_tokens := n_ctx a * batch_size a * g_accum_gradients in
  epoch_size ← lift (Py.floordiv (Z.of_nat (length (train_dataset w))) step_tokens);
  let env := {| world := w; args := a; is_main := primary a;
                validate_every' := validate_every;
                accum_gradients := accum_gradients;
                step_tokens := step_tokens; epoch_size := epoch_size |} in
  run env.

(** [main(...)]: lines 49-55 choose between spawning one worker per device
    and running in this process.  Of [mp.spawn] the call is recorded; the
    workers run [_main_mp] in processes of their own. *)
Definition main (w : World) (a : Args) : M unit :=
  match n_devices a with
  | None =>
      let n := device_count w in
      if 1 <? n
      then emit (EvSpawn (with_n_devices a (Some n)) n)
      else main_worker w a n
  | Some n => main_worker w a n
  end.

(** [_main_mp(i, kwargs)], lines 268-272. *)
Definition _main_mp (w : World) (i : Z) (kwargs : Args) : M unit :=
  main w (with_device_id kwargs (Some i)).

(** The state a process starts from. *)
Definition boot (files : gmap path node) (signal : option nat) : State :=
  mkState files [] 0 O AverageMeter.init signal.

(** ** Vocabulary of the statements *)

(** The number of windows of a corpus of [L] tokens cut with stride [C]. *)
Definition n_windows (L C : Z) : nat := Z.to_nat ((L - 1) / C).

Definition is_update (e : event) : bool :=
  match e with EvOptimizerStep => true | _ => false end.

Definition is_copy (e : event) : bool :=
  match e with EvCopy _ _ => true | _ => false end.

(** Calls made only by a validation pass. *)
Definition is_validation (e : event) : bool :=
  match e with
  | EvEvalMode | EvForward _ | EvTrainMode => true
  | EvWriteEvent _ name _ => String.eqb name "valid_loss"
  | _ => false
  end.

Definition count (f : event -> bool) (tr : list event) : nat :=
  length (List.filter f tr).

(** What an uninterrupted [save()] of the primary does to the files, and
    the calls it makes, when the model has had [u] updates and the counter
    is [s]. *)
Definition backup_files (env : Env) (name : string) (files : gmap path node)
  : gmap path node :=
  if Path.exists_ (Path.join (run_path (args env)) name) files
  then Path.copy (Path.join (run_path (args env)) name) (prev_path env name) files
  else files.

Definition backup_calls (env : Env) (name : string) (files : gmap path node)
  : list event :=
  if Path.exists_ (Path.join (run_path (args env)) name) files
  then [EvCopy (Path.join (run_path (args env)) name) (prev_path env name)]
  else [].

Definition save_files (env : Env) (u : nat) (s : Z) (files : gmap path node)
  : gmap path node :=
  Path.write (optim_path env) (OptimCkpt u)
    (Path.write (model_path env) (ModelCkpt u s)
       (backup_files env "optim.pt" (backup_files env "model.pt" files))).

Definition save_calls (env : Env) (u : nat) (s : Z) (files : gmap path node)
  : list event :=
  backup_calls env "model.pt" files
  ++ backup_calls env "optim.pt" (backup_files env "model.pt" files)
  ++ [EvTorchSave (model_path env) (ModelCkpt u s);
      EvTorchSave (optim_path env) (OptimCkpt u)].

(** The calls of an uninterrupted [validate()] of the primary over the
    given batches, reporting the loss [v] at counter [s]. *)
Definition validation_calls (env : Env) (s : Z) (batches : list (list (list Z)))
    (v : Q) : list event :=
  EvEvalMode :: map EvForward batches
  ++ [EvTrainMode; EvWriteEvent (s * step_tokens env) "valid_loss" v].

(** The calls of an uninterrupted [train_step()] that records [losses]. *)
Definition train_step_calls (losses : list Q) : list event :=
  EvZeroGrad :: map EvBackward losses ++ [EvOptimizerStep].

(** [save()] called once per entry of [gens], the model having had [u]
    updates and the counter being [s] at the call for the entry [(u, s)]. *)
Fixpoint saves (env : Env) (gens : list (nat * Z)) : M unit :=
  match gens with
  | [] => mret tt
  | (u, s) :: rest =>
      set_updates u;;
      set_step s;;
      save env;;
      saves env rest
  end.

(** The four checkpoint files of a run. *)
Definition checkpoint_paths (env : Env) : list path :=
  [model_path env; optim_path env;
   prev_path env "model.pt"; prev_path env "optim.pt"].

(** Events and exceptions of the code after the run directory is ready. *)
Definition late_event (e : event) : Prop :=
  match e with
  | EvSpawn _ _ | EvRmtree _ | EvMkdir _ | EvTouch _ => False
  | _ => True
  end.

Definition late_exn (e : exn) : Prop :=
  match e with
  | ValueError | ZeroDivisionError | StatisticsError | IndexError
  | SystemExit _ => True
  | _ => False
  end.

(** What every computation of the module guarantees: it only adds events
    satisfying [P] to the trace, raises [KeyboardInterrupt] only when the
    signal was pending, which it then no longer is, and otherwise raises
    only exceptions satisfying [E]. *)
Definition sound (P : event -> Prop) (E : exn -> Prop) {A : Type} (m : M A) : Prop :=
  forall st st' r, m st = (st', r) ->
    (exists evs, trace st' = trace st ++ evs /\ Forall P evs) /\
    (forall e, r = Raise e -> e <> KeyboardInterrupt -> E e) /\
    (r = Raise KeyboardInterrupt -> sigint st <> None /\ sigint st' = None) /\
    (sigint st = None -> sigint st' = None).

(** ** A small run

    Forty training tokens, ten validation tokens, contexts of four tokens in
    batches of two on a single process: a step consumes eight tokens, and
    the budget is that of three steps. *)

Definition demo_world : World :=
  {| device_count := 0;
     cuda_available := false;
     params_s := "{}";
     train_dataset := map Z.of_nat (seq 0 40);
     valid_dataset := map Z.of_nat (seq 0 10);
     pick := fun k => k;
     train_losses := fun _ _ => [1%Q];
     valid_loss := fun _ _ => 2%Q |}.

Definition demo_args : Args :=
  {| run_path := ["run"%string];
     dataset_path := ["data"%string];
     sp_model_path := ["sp.model"%string];
     epochs := 10;
     batch_size := 2;
     g_accum_gradients := None;
     n_ctx := 4;
     clean := false;
     log_every := 1;
     save_every := 1000;
     validate_every := None;
     only_validate := false;
     max_tokens := Some 24;
     device_id := None;
     n_devices := Some 1 |}.

(** The same run asked to clean its directory, to validate only, and with
    an accumulation factor its two devices cannot share. *)
Definition demo_args_clean : Args :=
  {| run_path := ["run"%string];
     dataset_path := ["data"%string];
     sp_model_path := ["sp.model"%string];
     epochs := 10;
     batch_size := 2;
     g_accum_gradients := None;
     n_ctx := 4;
     clean := true;
     log_every := 1;
     save_every := 1000;
     validate_every := None;
     only_validate := false;
     max_tokens := Some 24;
     device_id := None;
     n_devices := Some 1 |}.

Definition demo_args_validate : Args :=
  {| run_path := ["run"%string];
     dataset_path := ["data"%string];
     sp_model_path := ["sp.model"%string];
     epochs := 10;
     batch_size := 2;
     g_accum_gradients := None;
     n_ctx := 4;
     clean := false;
     log_every := 1;
     save_every := 1000;
     validate_every := None;
     only_validate := true;
     max_tokens := Some 24;
     device_id := None;
     n_devices := Some 1 |}.

Definition demo_args_uneven : Args :=
  {| run_path := ["run"%string];
     dataset_path := ["data"%string];
     sp_model_path := ["sp.model"%string];
     epochs := 10;
     batch_size := 2;
     g_accum_gradients := Some 3;
     n_ctx := 4;
     clean := false;
     log_every := 1;
     save_every := 1000;
     validate_every := None;
     only_validate := false;
     max_tokens := Some 24;
     device_id := Some 0;
     n_devices := Some 2 |}.

(** The closure environment [main] builds for [demo_args]. *)
Definition demo_env : Env :=
  {| world := demo_world; args := demo_args; is_main := true;
     validate_every' := 1000; accum_gradients := 1;
     step_tokens := 8; epoch_size := 5 |}.

(** The same run with fourteen validation tokens: three windows, so that
    the last validation batch holds one window where the ten tokens of
    [demo_world] leave it empty. *)
Definition demo_world_ragged : World :=
  {| device_count := 0;
     cuda_available := false;
     params_s := "{}";
     train_dataset := map Z.of_nat (seq 0 40);
     valid_dataset := map Z.of_nat (seq 0 14);
     pick := fun k => k;
     train_losses := fun _ _ => [1%Q];
     valid_loss := fun _ _ => 2%Q |}.

Definition demo_env_ragged : Env :=
  {| world := demo_world_ragged; args := demo_args; is_main := true;
     validate_every' := 1000; accum_gradients := 1;
     step_tokens := 8; epoch_size := 5 |}.

(** The same environment on a worker that is not the primary. *)
Definition demo_env_secondary : Env :=
  {| world := demo_world; args := demo_args; is_main := false;
     validate_every' := 1000; accum_gradients := 1;
     step_tokens := 8; epoch_size := 5 |}.

(** A directory that is not a run directory, and one that is. *)
Definition demo_foreign_files : gmap path node :=
  {[ ["run"%string] := Dir; ["run"%string; "thesis.tex"%string] := File (Text "...") ]}.

Definition demo_run_files : gmap path node :=
  {[ ["run"%string] := Dir; ["run"%string; ".lm"%string] := File Empty;
     ["run"%string; "model.pt"%string] := File (ModelCkpt 7 8) ]}.

(** ** Relations between the state a computation starts from and the state
    it reaches *)

(** A computation follows a relation when every run of it, however it ends,
    relates the two states. *)
Definition follows (Q : State -> State -> Prop) {A : Type} (m : M A) : Prop :=
  forall st st' r, m st = (st', r) -> Q st st'.

(** Every path outside [K] holds what it held, and no path has gone. *)
Definition touches_only (K : path -> Prop) (st st' : State) : Prop :=
  (forall p, ~ K p -> fs st' !! p = fs st !! p) /\
  (forall p, is_Some (fs st !! p) -> is_Some (fs st' !! p)).

(** Every call added to the trace satisfies [P]. *)
Definition adds_only (P : event -> Prop) (st st' : State) : Prop :=
  exists evs, trace st' = trace st ++ evs /\ Forall P evs.


(** Whatever existed outside the directory [dir] is still there, unchanged. *)
Definition spares_outside (dir : path) (st st' : State) : Prop :=
  forall p n, fs st !! p = Some n -> ~ dir `prefix_of` p -> fs st' !! p = Some n.

(** Calls that write a file, report to the logging sink, start processes
    or run a validation pass. *)
Definition is_output (e : event) : bool :=
  match e with
  | EvSpawn _ _ | EvRmtree _ | EvMkdir _ | EvTouch _ | EvWriteText _ _
  | EvCopy _ _ | EvTorchSave _ _ | EvWriteEvent _ _ _
  | EvEvalMode | EvForward _ | EvTrainMode => true
  | _ => false
  end.

(** The files are untouched and no output call is made. *)
Definition silent (st st' : State) : Prop :=
  fs st' = fs st /\
  exists evs, trace st' = trace st ++ evs /\ Forall (fun e => is_output e = false) evs.

(** A checkpoint written records [u] updates and, for the model file, the
    counter [s]. *)
Definition records (u : nat) (s : Z) (e : event) : Prop :=
  match e with
  | EvTorchSave _ (ModelCkpt u' s') => u' = u /\ s' = s
  | EvTorchSave _ (OptimCkpt u') => u' = u
  | _ => True
  end.

(** Counter and update count are as they were, and every checkpoint written
    in between records them. *)
Definition steady (st st' : State) : Prop :=
  step st' = step st /\ updates st' = updates st /\
  exists evs, trace st' = trace st ++ evs /\
              Forall (records (updates st) (step st)) evs.

(** The counter of a model checkpoint is one more than its update count. *)
Definition counter_ahead (e : event) : Prop :=
  match e with
  | EvTorchSave _ (ModelCkpt u s) => s = Z.of_nat u + 1
  | _ => True
  end.

(** Every checkpoint written in between has the counter one ahead, and
    the counter itself has not moved. *)
Definition writes_ahead (st st' : State) : Prop :=
  step st' = step st /\
  exists evs, trace st' = trace st ++ evs /\ Forall counter_ahead evs.

(** The same, or the two are equal. *)
Definition counter_ahead_or_level (e : event) : Prop :=
  match e with
  | EvTorchSave _ (ModelCkpt u s) => s = Z.of_nat u + 1 \/ s = Z.of_nat u
  | _ => True
  end.

(** How far a stretch of the training loop can have gone: the checkpoints it
    wrote have the counter one ahead; it made at most [bound] updates;
    unless it made none, the budget was not reached at the count of updates
    it ends with; and the counter is one ahead of that count, or level with
    it when [ki] holds. *)
Definition advances (env : Env) (bound : nat) (ki : Prop) (st st' : State) : Prop :=
  (exists evs, trace st' = trace st ++ evs /\ Forall counter_ahead evs) /\
  (updates st <= updates st' <= updates st + bound)%nat /\
  (updates st' = updates st \/
   budget_reached env (Z.of_nat (updates st')) = false) /\
  (step st' = Z.of_nat (updates st') + 1 \/
   (step st' = Z.of_nat (updates st') /\ ki)).

(** The token counts of the points written to the log, in the order of
    the calls. *)
Definition log_points (evs : list event) : list Z :=
  flat_map (fun e => match e with EvWriteEvent x _ _ => [x] | _ => [] end) evs.

(** Each number is at least the one before it, and the first at least
    [lo]. *)
Fixpoint ascending (lo : Z) (ss : list Z) : Prop :=
  match ss with
  | [] => True
  | s :: rest => lo <= s /\ ascending s rest
  end.

(** Started with the counter at [s], the counter is left at [s] and every
    point logged is at [s * T] tokens. *)
Definition logs_at (T s : Z) (st st' : State) : Prop :=
  step st = s ->
  step st' = s /\
  exists evs, trace st' = trace st ++ evs /\
              Forall (fun x => x = s * T) (log_points evs).

(** The counter does not go back, and the points logged are at [s * T]
    tokens for values [s] in ascending order between the two values of the
    counter. *)
Definition logs_in_order (T : Z) (st st' : State) : Prop :=
  step st <= step st' /\
  exists evs ss,
    trace st' = trace st ++ evs /\
    log_points evs = map (fun s => s * T) ss /\
    ascending (step st) ss /\ Forall (fun s => s <= step st') ss.

(** No point is logged. *)
Definition logs_nothing (st st' : State) : Prop :=
  exists evs, trace st' = trace st ++ evs /\ log_points evs = [].

(** The exceptions the training code itself can raise. *)
Definition training_exn (e : exn) : Prop :=
  match e with
  | ValueError | ZeroDivisionError | StatisticsError | IndexError => True
  | _ => False
  end.

(** * Properties *)

(** ** Slices, windows and batches *)

Section Slices.
Context {A : Type}.
Implicit Types l : list A.

Lemma slice_inside l (i c : Z) :
  0 <= i -> 0 <= c -> i + c <= Z.of_nat (length l) ->
  Py.slice l i (i + c) = take (Z.to_nat c) (drop (Z.to_nat i) l).
Proof.
  intros Hi Hc Hlen. unfold Py.slice, Py.clamp.
  destruct (Z.ltb_spec i 0); [lia|].
  destruct (Z.ltb_spec (i + c) 0); [lia|].
  f_equal; [lia | f_equal; lia].
Qed.

Lemma batch_it_from_concat (batch it : list A) (bs : Z) :
  concat (_batch_it_from batch it bs) = batch ++ it.
Proof.
  revert batch. induction it as [|x it IH]; intros batch; simpl.
  - by rewrite app_nil_r.
  - destruct (_ =? _); simpl; rewrite IH; by rewrite <- ?app_assoc.
Qed.

Lemma batch_it_from_last (batch it : list A) (bs : Z) :
  Z.of_nat (length batch) < bs ->
  (Z.of_nat (length batch) + Z.of_nat (length it)) mod bs = 0 ->
  last (_batch_it_from batch it bs) = Some [].
Proof.
  revert batch. induction it as [|x it IH]; intros batch Hlt Hmod; simpl.
  - rewrite Z.add_0_r, Z.mod_small in Hmod by lia.
    destruct batch; [done | simpl in Hmod; lia].
  - destruct (Z.eqb_spec (Z.of_nat (length (batch ++ [x]))) bs) as [Heq|Hne].
    + rewrite last_cons.
      rewrite IH.
      * done.
      * simpl. lia.
      * simpl. rewrite length_app in Heq. simpl in *.
        replace (Z.of_nat (length batch) + Z.of_nat (S (length it)))
          with (Z.of_nat (length it) + 1 * bs) in Hmod by lia.
        by rewrite Z.mod_add in Hmod by lia.
    + apply IH.
      * rewrite length_app in *. simpl in *. lia.
      * rewrite length_app. simpl in *.
        rewrite <- Hmod. f_equal. lia.
Qed.
End Slices.

Lemma range_len_windows (L C : Z) :
  0 < C -> 0 <= L -> Z.to_nat (Py.range_len 0 (L - C) C) = n_windows L C.
Proof.
  intros HC HL. unfold Py.range_len, n_windows.
  destruct (Z.ltb_spec 0 C); [|lia].
  destruct (Z.ltb_spec 0 (L - C)).
  - f_equal. replace (L - 1) with (L - C - 0 - 1 + 1 * C) by lia.
    by rewrite Z.div_add by lia.
  - assert ((L - 1) / C <= 0); [|lia].
    destruct (Z.eq_dec L 0) as [->|].
    + apply Z.div_le_upper_bound; lia.
    + rewrite Z.div_small; lia.
Qed.

Lemma n_windows_bound (L C : Z) :
  0 < C -> 0 < L -> Z.of_nat (n_windows L C) * C < L.
Proof.
  intros HC HL. unfold n_windows.
  assert (0 <= (L - 1) / C) by (apply Z.div_pos; lia).
  rewrite Z2Nat.id by done.
  pose proof (Z.mul_div_le (L - 1) C HC). lia.
Qed.

Lemma valid_windows_spec (d : list Z) (C : Z) :
  0 < C ->
  valid_windows d C =
    Ok (map (fun k : nat => take (Z.to_nat C) (drop (k * Z.to_nat C) d))
            (seq 0 (n_windows (Z.of_nat (length d)) C))).
Proof.
  intros HC. unfold valid_windows, Py.range.
  destruct (Z.eqb_spec C 0); [lia|]. simpl.
  rewrite range_len_windows by lia. f_equal.
  rewrite map_map. apply map_ext_in. intros k Hk.
  apply in_seq in Hk.
  assert (0 < Z.of_nat (length d)) as Hpos.
  { destruct d; simpl; [|lia]. unfold n_windows in Hk. simpl in Hk.
    assert ((0 - 1) / C < 0) by (apply Z.div_lt_upper_bound; lia). lia. }
  pose proof (n_windows_bound _ _ HC Hpos).
  rewrite slice_inside by nia.
  do 2 f_equal. nia.
Qed.

Lemma windows_concat {A : Type} (d : list A) (c n : nat) :
  (n * c <= length d)%nat ->
  concat (map (fun k : nat => take c (drop (k * c) d)) (seq 0 n)) = take (n * c) d.
Proof.
  induction n as [|n IH]; intros Hn; [done|].
  rewrite seq_S, map_app, concat_app, IH by lia. simpl.
  rewrite app_nil_r. replace (c + n * c)%nat with (n * c + c)%nat by lia.
  by rewrite take_take_drop.
Qed.

(** ** The outcomes of the training sampler *)

Section RandFacts.
Context {A B : Type}.

Lemma rand_bind_ok (l : list A) (f : A -> Rand.t B) :
  Rand.bind (map Ok l) f = flat_map f l.
Proof.
  unfold Rand.bind. induction l as [|x l IH]; simpl; [done|]. by rewrite IH.
Qed.

Lemma rand_bind_ret (l : list A) (g : A -> B) :
  Rand.bind (map Ok l) (fun x => Rand.ret (g x)) = map Ok (map g l).
Proof.
  rewrite rand_bind_ok. induction l as [|x l IH]; simpl; [done|]. by rewrite IH.
Qed.
End RandFacts.

Lemma flat_map_ok {A B : Type} (f : A -> list B) (l : list A) :
  flat_map (fun x => map Ok (f x)) l = map (@Ok B) (flat_map f l).
Proof.
  induction l as [|x l IH]; simpl; [done|]. by rewrite IH, map_app.
Qed.

(** Every vector of length [n] over [xs], each once. *)
Lemma vectors_NoDup {A : Type} (xs : list A) (vs : list (list A)) :
  NoDup xs -> NoDup vs ->
  NoDup (flat_map (fun x => map (cons x) vs) xs).
Proof.
  intros Hxs Hvs. induction Hxs as [|x xs Hx Hxs IH]; simpl; [constructor|].
  apply NoDup_app. split_and!.
  - by apply (NoDup_fmap_2 (cons x)).
  - intros v Hv Hv'. apply list_elem_of_fmap in Hv as (v1 & -> & _).
    apply list_elem_of_In, in_flat_map in Hv' as (y & Hy & Hin).
    apply in_map_iff in Hin as (v2 & [= <- _] & _).
    apply Hx. by apply list_elem_of_In.
  - done.
Qed.

Lemma replicate_vectors {A : Type} (n : nat) (xs : list A) :
  NoDup xs ->
  exists vs : list (list A),
    Rand.replicate n (map Ok xs) = map Ok vs /\
    NoDup vs /\
    forall v, v ∈ vs <-> length v = n /\ Forall (fun x => x ∈ xs) v.
Proof.
  intros Hxs. induction n as [|n (vs & Heq & Hnd & Hin)].
  - exists [[]]. split_and!; [done | apply NoDup_singleton |].
    intros v. rewrite list_elem_of_singleton. split.
    + intros ->. done.
    + intros [Hl _]. by destruct v.
  - exists (flat_map (fun x => map (cons x) vs) xs). split_and!.
    + simpl. rewrite Heq, rand_bind_ok.
      rewrite <- flat_map_ok. apply flat_map_ext. intros x.
      apply rand_bind_ret.
    + by apply vectors_NoDup.
    + intros v. rewrite list_elem_of_In, in_flat_map. split.
      * intros (x & Hx & Hv). apply in_map_iff in Hv as (v' & <- & Hv').
        apply list_elem_of_In, Hin in Hv' as [Hl Hall]. simpl. split; [lia|].
        constructor; [by apply list_elem_of_In | done].
      * intros [Hl Hall]. destruct v as [|x v]; [done|].
        apply Forall_cons in Hall as [Hx Hall]. exists x. split.
        -- by apply list_elem_of_In.
        -- apply in_map, list_elem_of_In, Hin. simpl in Hl. split; [lia | done].
Qed.

Lemma randint_outcomes (high : Z) :
  0 < high ->
  exists xs : list Z,
    Rand.randint 0 high = map Ok xs /\ NoDup xs /\
    forall i, i ∈ xs <-> 0 <= i < high.
Proof.
  intros Hh. exists (map Z.of_nat (seq 0 (Z.to_nat high))). split_and!.
  - unfold Rand.randint. destruct (Z.ltb_spec 0 high); [|lia].
    rewrite Z.sub_0_r, map_map. done.
  - apply (NoDup_fmap_2 Z.of_nat). apply NoDup_ListNoDup, seq_NoDup.
  - intros i. rewrite list_elem_of_In, in_map_iff. split.
    + intros (k & <- & Hk). apply in_seq in Hk. lia.
    + intros Hi. exists (Z.to_nat i). split; [lia|]. apply in_seq. lia.
Qed.

(** C4.  For a corpus of [L] tokens and a context length [0 <= C < L], the
    outcomes of the training sampler are in one-to-one correspondence with
    the vectors of [batch_size] offsets drawn from [0, L - C): every such
    vector occurs exactly once among the equally likely outcomes (the
    offsets are independent and uniform), and the batch of an outcome is
    the list of the slices of the corpus at its offsets, each of exactly
    [C] tokens and ending at or before [L]. *)
Theorem gen_training_batch_uniform (dataset : list Z) (n_ctx batch_size : Z) :
  0 <= n_ctx -> n_ctx < Z.of_nat (length dataset) ->
  exists offsets : list (list Z),
    _gen_training_batch dataset n_ctx batch_size =
      map (fun v => Ok (map (fun i => take (Z.to_nat n_ctx) (drop (Z.to_nat i) dataset)) v))
          offsets /\
    NoDup offsets /\
    (forall v, v ∈ offsets <->
       length v = Z.to_nat batch_size /\
       Forall (fun i => 0 <= i < Z.of_nat (length dataset) - n_ctx) v) /\
    (forall v i, v ∈ offsets -> i ∈ v ->
       Z.of_nat (length (take (Z.to_nat n_ctx) (drop (Z.to_nat i) dataset))) = n_ctx /\
       0 <= i /\ i + n_ctx <= Z.of_nat (length dataset)).
Proof.
  intros HC HL.
  destruct (randint_outcomes (Z.of_nat (length dataset) - n_ctx)) as (xs & Hr & Hnd & Hxs); [lia|].
  destruct (replicate_vectors (Z.to_nat batch_size) xs Hnd) as (vs & Hrep & Hvs & Hin).
  exists vs. split_and!.
  - unfold _gen_training_batch. rewrite Hr, Hrep, rand_bind_ret, map_map.
    apply map_ext_in. intros v Hv. f_equal. apply map_ext_in. intros i Hi.
    apply list_elem_of_In, Hin in Hv as [_ Hall].
    rewrite Forall_forall in Hall. apply list_elem_of_In, Hall, Hxs in Hi.
    apply slice_inside; lia.
  - done.
  - intros v. rewrite Hin. apply and_iff_compat_l. apply Forall_iff. intros i. apply Hxs.
  - intros v i Hv Hi. apply Hin in Hv as [_ Hall].
    rewrite Forall_forall in Hall. apply Hall, Hxs in Hi.
    rewrite length_take, length_drop. lia.
Qed.

(** ** The running mean *)

(** C6.  On a fresh meter, [mean()] after [update(a); update(b)] is
    [(a + b) / 2]; after [reset()] on any meter, [update(c)] leaves the
    single observation [c] and [mean()] is [c]. *)
Theorem meter_mean_update_reset (a b c : Q) (m : AverageMeter.t) :
  (exists q, AverageMeter.mean
               (AverageMeter.update (AverageMeter.update AverageMeter.init a) b) = Ok q /\
             (q == (a + b) / 2)%Q) /\
  AverageMeter.values (AverageMeter.update (AverageMeter.reset m) c) = [c] /\
  (exists q, AverageMeter.mean (AverageMeter.update (AverageMeter.reset m) c) = Ok q /\
             (q == c)%Q).
Proof.
  split_and!.
  - eexists. split; [reflexivity|]. unfold AverageMeter.sum. simpl.
    rewrite Qplus_0_l. reflexivity.
  - done.
  - eexists. split; [reflexivity|]. unfold AverageMeter.sum. simpl.
    rewrite Qplus_0_l. unfold Qdiv. 
    change (/ inject_Z 1)%Q with 1%Q. apply Qmult_1_r.
Qed.

(** ** Running computations *)

Lemma bind_run {A B : Type} (m : M A) (f : A -> M B) (st : State) :
  (m ≫= f) st =
    match m st with
    | (st', Ok a) => f a st'
    | (st', Raise e) => (st', Raise e)
    end.
Proof. reflexivity. Qed.

Lemma bind_ok {A B : Type} (m : M A) (f : A -> M B) st st' a :
  m st = (st', Ok a) -> (m ≫= f) st = f a st'.
Proof. intros H. by rewrite bind_run, H. Qed.

Lemma tick_quiet st : sigint st = None -> tick st = (st, Ok tt).
Proof. intros H. unfold tick. by rewrite H. Qed.

(** ** Soundness of the building blocks *)

Section Sound.
Context (P : event -> Prop) (E : exn -> Prop).

Lemma sound_ret {A : Type} (a : A) : sound P E (mret a).
Proof.
  intros st st' r [= <- <-]. split_and!; try done.
  exists []. by rewrite app_nil_r.
Qed.

Lemma sound_bind {A B : Type} (m : M A) (f : A -> M B) :
  sound P E m -> (forall a, sound P E (f a)) -> sound P E (m ≫= f).
Proof.
  intros Hm Hf st st' r. rewrite bind_run.
  destruct (m st) as [st1 [a|e]] eqn:Hrun;
    destruct (Hm _ _ _ Hrun) as ((evs1 & Htr1 & Hall1) & Hexn1 & Hki1 & Hsig1).
  - intros Hrun2.
    destruct (Hf a _ _ _ Hrun2) as ((evs2 & Htr2 & Hall2) & Hexn2 & Hki2 & Hsig2).
    split_and!; [| done | | by auto].
    + exists (evs1 ++ evs2). rewrite Htr2, Htr1, app_assoc. split; [done|].
      by apply Forall_app.
    + intros Hr. destruct (Hki2 Hr) as [Hpending Hdone]. split; [|done].
      intros Hnone. by apply Hpending, Hsig1.
  - intros [= <- <-]. split_and!; [by eauto | | | done].
    + intros e0 [= <-]. by apply Hexn1.
    + intros [= ->]. by apply Hki1.
Qed.

Lemma sound_get {A : Type} (proj : State -> A) : sound P E (get proj).
Proof.
  intros st st' r [= <- <-]. split_and!; try done.
  exists []. by rewrite app_nil_r.
Qed.

Lemma sound_emit (e : event) : P e -> sound P E (emit e).
Proof.
  intros He st st' r [= <- <-]. split_and!; try done.
  exists [e]. split; [done|]. by constructor.
Qed.

Lemma sound_modify_fs f : sound P E (modify_fs f).
Proof.
  intros st st' r [= <- <-]. split_and!; try done.
  exists []. by rewrite app_nil_r.
Qed.

Lemma sound_set_step s : sound P E (set_step s).
Proof.
  intros st st' r [= <- <-]. split_and!; try done.
  exists []. by rewrite app_nil_r.
Qed.

Lemma sound_set_updates u : sound P E (set_updates u).
Proof.
  intros st st' r [= <- <-]. split_and!; try done.
  exists []. by rewrite app_nil_r.
Qed.

Lemma sound_set_loss_meter m : sound P E (set_loss_meter m).
Proof.
  intros st st' r [= <- <-]. split_and!; try done.
  exists []. by rewrite app_nil_r.
Qed.

Lemma sound_tick : sound P E tick.
Proof.
  intros st st' r. unfold tick.
  destruct (sigint st) as [[|n]|] eqn:Hsig; intros [= <- <-]; simpl;
    (split_and!; [exists []; by rewrite app_nil_r | try done ..]).
  intros e [= <-]. done.
Qed.

Lemma sound_lift {A : Type} (r : result A) :
  (forall e, r = Raise e -> e <> KeyboardInterrupt /\ E e) -> sound P E (lift r).
Proof.
  intros Hr st st' r' [= <- <-]. split_and!; try done.
  - exists []. by rewrite app_nil_r.
  - intros e He _. by apply Hr.
  - intros He. by destruct (Hr _ He).
Qed.

Lemma sound_raise {A : Type} (e : exn) :
  e <> KeyboardInterrupt -> E e -> sound P E (@raise A e).
Proof.
  intros Hne He st st' r [= <- <-]. split_and!; try done.
  - exists []. by rewrite app_nil_r.
  - by intros ? [= <-].
  - by intros [= ->].
Qed.

Lemma sound_except {A : Type} (body handler : M A) :
  sound P E body -> sound P E handler ->
  sound P E (except_KeyboardInterrupt body handler).
Proof.
  intros Hb Hh st st' r. unfold except_KeyboardInterrupt.
  destruct (body st) as [st1 r1] eqn:Hrun.
  destruct (Hb _ _ _ Hrun) as ((evs1 & Htr1 & Hall1) & Hexn1 & Hki1 & Hsig1).
  assert (r1 = Raise KeyboardInterrupt \/ r1 <> Raise KeyboardInterrupt) as [->|Hne].
  { destruct r1 as [|[]]; auto. }
  - intros Hrun2.
    destruct (Hh _ _ _ Hrun2) as ((evs2 & Htr2 & Hall2) & Hexn2 & Hki2 & Hsig2).
    destruct Hki1 as [Hpending Hdone]; [done|].
    split_and!; [| done | | by auto].
    + exists (evs1 ++ evs2). rewrite Htr2, Htr1, app_assoc. split; [done|].
      by apply Forall_app.
    + intros Hr. by destruct (Hki2 Hr).
  - intros Heq.
    assert ((st1, r1) = (st', r)) as [= <- <-].
    { destruct r1 as [|[]]; done. }
    split_and!; eauto.
Qed.
End Sound.

(** ** What the pure parts can raise *)

Lemma mod_raises a b e :
  Py.mod_ a b = Raise e -> e <> KeyboardInterrupt /\ late_exn e.
Proof. unfold Py.mod_. destruct (b =? 0); by intros [= <-]. Qed.

Lemma floordiv_raises a b e :
  Py.floordiv a b = Raise e -> e <> KeyboardInterrupt /\ late_exn e.
Proof. unfold Py.floordiv. destruct (b =? 0); by intros [= <-]. Qed.

Lemma mean_raises m e :
  AverageMeter.mean m = Raise e -> e <> KeyboardInterrupt /\ late_exn e.
Proof. unfold AverageMeter.mean. destruct (AverageMeter.values m); by intros [= <-]. Qed.

Lemma valid_batch_iter_raises d bs C e :
  _valid_batch_iter d bs C = Raise e -> e <> KeyboardInterrupt /\ late_exn e.
Proof.
  unfold _valid_batch_iter, valid_windows, Py.range.
  destruct (C =? 0); simpl; by intros [= <-].
Qed.

Lemma rand_bind_raises {A B : Type} (m : Rand.t A) (f : A -> Rand.t B) :
  Forall (fun r => forall e, r = Raise e -> e = ValueError) m ->
  (forall a, Forall (fun r => forall e, r = Raise e -> e = ValueError) (f a)) ->
  Forall (fun r => forall e, r = Raise e -> e = ValueError) (Rand.bind m f).
Proof.
  intros Hm Hf. unfold Rand.bind. induction Hm as [|r m Hr Hm IH]; simpl; [done|].
  apply Forall_app. split; [|done].
  destruct r as [a|e]; [apply Hf|].
  constructor; [|done]. intros e' [= <-]. by apply Hr.
Qed.

Lemma randint_raises low high :
  Forall (fun r => forall e, r = Raise e -> e = ValueError) (Rand.randint low high).
Proof.
  unfold Rand.randint. destruct (low <? high).
  - apply Forall_forall. intros r Hr%list_elem_of_In%in_map_iff.
    destruct Hr as (k & <- & _). done.
  - constructor; [|done]. by intros e [= <-].
Qed.

Lemma replicate_raises {A : Type} n (m : Rand.t A) :
  Forall (fun r => forall e, r = Raise e -> e = ValueError) m ->
  Forall (fun r => forall e, r = Raise e -> e = ValueError) (Rand.replicate n m).
Proof.
  intros Hm. induction n as [|n IH]; simpl.
  - by constructor.
  - apply rand_bind_raises; [done|]. intros x.
    apply rand_bind_raises; [done|]. intros xs. by constructor.
Qed.

Lemma gen_training_batch_raises d C B k e :
  nth k (_gen_training_batch d C B) (Raise ValueError) = Raise e ->
  e <> KeyboardInterrupt /\ late_exn e.
Proof.
  intros Hnth.
  assert (e = ValueError) as ->; [|done].
  destruct (nth_in_or_default k (_gen_training_batch d C B) (Raise ValueError))
    as [Hin|Hdef].
  - assert (Forall (fun r => forall e, r = Raise e -> e = ValueError)
              (_gen_training_batch d C B)) as Hall.
    { apply rand_bind_raises.
      - apply replicate_raises, randint_raises.
      - intros a. by constructor. }
    rewrite Forall_forall in Hall. eapply Hall; [|done]. by apply list_elem_of_In.
  - rewrite Hdef in Hnth. by injection Hnth.
Qed.

(** ** Soundness of the closures of [main] *)

Ltac sound_step :=
  lazymatch goal with
  | |- sound _ _ (mbind _ _) => apply sound_bind; [|intros ?]
  | |- sound _ _ (mret _) => apply sound_ret
  | |- sound _ _ (get _) => apply sound_get
  | |- sound _ _ (emit _) => apply sound_emit; exact I
  | |- sound _ _ (modify_fs _) => apply sound_modify_fs
  | |- sound _ _ (set_step _) => apply sound_set_step
  | |- sound _ _ (set_updates _) => apply sound_set_updates
  | |- sound _ _ (set_loss_meter _) => apply sound_set_loss_meter
  | |- sound _ _ tick => apply sound_tick
  | |- sound _ _ (raise _) => apply sound_raise; done
  | |- sound _ _ (lift (Py.mod_ _ _)) => apply sound_lift, mod_raises
  | |- sound _ _ (lift (Py.floordiv _ _)) => apply sound_lift, floordiv_raises
  | |- sound _ _ (lift (AverageMeter.mean _)) => apply sound_lift, mean_raises
  | |- sound _ _ (lift (_valid_batch_iter _ _ _)) =>
      apply sound_lift, valid_batch_iter_raises
  | |- sound _ _ (lift (nth _ (_gen_training_batch _ _ _) _)) =>
      apply sound_lift, gen_training_batch_raises
  | |- sound _ _ (if ?b then _ else _) => destruct b
  end.

Ltac sound_auto := repeat sound_step.

Lemma sound_save env : sound late_event late_exn (save env).
Proof. unfold save, backup, torch_save. sound_auto. Qed.

Lemma sound_valid_loop env batches losses :
  sound late_event late_exn (valid_loop env batches losses).
Proof.
  revert losses. induction batches as [|ctx batches IH]; intros losses; simpl.
  - sound_auto.
  - sound_auto. apply IH.
Qed.

Lemma sound_validate env : sound late_event late_exn (validate env).
Proof.
  unfold validate, get_valid_loss. sound_auto. apply sound_valid_loop.
Qed.

Lemma sound_micro_batches losses : sound late_event late_exn (micro_batches losses).
Proof. induction losses as [|l losses IH]; simpl; sound_auto. apply IH. Qed.

Lemma sound_train_step env : sound late_event late_exn (train_step env).
Proof. unfold train_step. sound_auto. apply sound_micro_batches. Qed.

Lemma sound_loop_body env : sound late_event late_exn (loop_body env).
Proof.
  unfold loop_body.
  sound_auto; first [apply sound_save | apply sound_validate | apply sound_train_step].
Qed.

Lemma sound_epoch_loop env n : sound late_event late_exn (epoch_loop env n).
Proof.
  induction n as [|n IH]; simpl; sound_auto; [apply sound_loop_body | apply IH].
Qed.

Lemma sound_epochs_loop env n : sound late_event late_exn (epochs_loop env n).
Proof.
  induction n as [|n IH]; simpl; sound_auto;
    first [apply sound_epoch_loop | apply sound_save | apply sound_validate | apply IH].
Qed.

Lemma sound_train env : sound late_event late_exn (train env).
Proof. apply sound_epochs_loop. Qed.

Lemma sound_interrupted env : sound late_event late_exn (interrupted env).
Proof. unfold interrupted. sound_auto. apply sound_save. Qed.

Lemma sound_run env : sound late_event late_exn (run env).
Proof.
  unfold run. destruct (only_validate (args env)); [sound_auto|].
  apply sound_except; [apply sound_train | apply sound_interrupted].
Qed.

Lemma sound_load_everything w a ws : sound late_event late_exn (load_everything w a ws).
Proof. unfold load_everything. sound_auto. destruct (device_id a); sound_auto. Qed.

(** ** Uninterrupted runs of the closures *)

Ltac run_m :=
  repeat (unfold mbind, M_bind, mret, M_ret, get, emit, modify_fs, tick, set_step,
            set_updates, set_loss_meter, lift, raise, assert_; cbn).

Lemma save_spec env st :
  is_main env = true -> sigint st = None ->
  save env st =
    (mkState (save_files env (updates st) (step st) (fs st))
             (trace st ++ save_calls env (updates st) (step st) (fs st))
             (step st) (updates st) (loss_meter st) None,
     Ok tt).
Proof.
  intros Hmain Hsig. destruct st as [f tr s u lm sg]. simpl in *. subst sg.
  unfold save, save_files, save_calls, backup_files, backup_calls, backup, torch_save.
  rewrite Hmain. run_m.
  destruct (Path.exists_ _ f); run_m;
    destruct (Path.exists_ _ _); run_m;
    by rewrite <- ?app_assoc.
Qed.

Lemma save_secondary env st : is_main env = false -> save env st = (st, Ok tt).
Proof. intros H. unfold save. by rewrite H. Qed.

Lemma valid_loop_spec env batches losses st :
  sigint st = None ->
  [] ∉ batches ->
  valid_loop env batches losses st =
    (mkState (fs st) (trace st ++ map EvForward batches) (step st) (updates st)
             (loss_meter st) None,
     Ok (AverageMeter.Build
           (AverageMeter.values losses
            ++ map (valid_loss (world env) (updates st)) batches))).
Proof.
  intros Hsig Hne. destruct st as [f tr s u lm sg]. simpl in *. subst sg.
  revert tr losses. induction batches as [|ctx batches IH]; intros tr losses; simpl.
  - rewrite !app_nil_r. by destruct losses.
  - apply not_elem_of_cons in Hne as [Hctx Hne].
    destruct (decide (ctx = [])); [done|].
    run_m. rewrite IH by done. simpl. by rewrite <- !app_assoc.
Qed.

(** The pass stops at the first batch without windows. *)
Lemma valid_loop_empty env full rest losses st :
  sigint st = None ->
  [] ∉ full ->
  valid_loop env (full ++ [] :: rest) losses st =
    (mkState (fs st) (trace st ++ map EvForward (full ++ [[]])) (step st) (updates st)
             (loss_meter st) None,
     Raise IndexError).
Proof.
  intros Hsig Hne. destruct st as [f tr s u lm sg]. simpl in *. subst sg.
  revert tr losses. induction full as [|ctx full IH]; intros tr losses; simpl.
  - by run_m.
  - apply not_elem_of_cons in Hne as [Hctx Hne].
    destruct (decide (ctx = [])); [done|].
    run_m. rewrite IH by done. simpl. by rewrite <- !app_assoc.
Qed.

Lemma batch_it_nonempty {A : Type} (it : list A) bs : _batch_it it bs <> [].
Proof.
  unfold _batch_it. generalize (@nil A).
  induction it as [|x it IH]; intros batch; simpl; [done|].
  destruct (_ =? _); [done | apply IH].
Qed.

Lemma valid_batch_iter_nonempty d bs C batches :
  _valid_batch_iter d bs C = Ok batches -> batches <> [].
Proof.
  unfold _valid_batch_iter. destruct (valid_windows d C); simpl; [|done].
  intros [= <-]. apply batch_it_nonempty.
Qed.

Lemma mean_nonempty (l : list Q) :
  l <> [] -> exists v, AverageMeter.mean (AverageMeter.Build l) = Ok v.
Proof. destruct l; [done|]. intros _. by eexists. Qed.

Lemma validate_spec env st batches :
  is_main env = true -> sigint st = None ->
  _valid_batch_iter (valid_dataset (world env)) (batch_size (args env))
    (n_ctx (args env)) = Ok batches ->
  [] ∉ batches ->
  exists v,
    AverageMeter.mean
      (AverageMeter.Build (map (valid_loss (world env) (updates st)) batches)) = Ok v /\
    validate env st =
      (mkState (fs st) (trace st ++ validation_calls env (step st) batches v)
               (step st) (updates st) (loss_meter st) None,
       Ok tt).
Proof.
  intros Hmain Hsig Hb Hne.
  destruct (mean_nonempty (map (valid_loss (world env) (updates st)) batches)) as [v Hv].
  { intros Hnil%map_eq_nil. by apply valid_batch_iter_nonempty in Hb. }
  exists v. split; [done|].
  destruct st as [f tr s u lm sg]. simpl in *. subst sg.
  unfold validate, get_valid_loss. rewrite Hmain, Hb. run_m.
  rewrite valid_loop_spec by done. simpl. rewrite Hv.
  unfold validation_calls. simpl. by rewrite <- !app_assoc.
Qed.

Lemma micro_batches_spec losses st :
  sigint st = None ->
  micro_batches losses st =
    (mkState (fs st) (trace st ++ map EvBackward losses) (step st) (updates st)
             (AverageMeter.Build (AverageMeter.values (loss_meter st) ++ losses)) None,
     Ok tt).
Proof.
  intros Hsig. destruct st as [f tr s u lm sg]. simpl in *. subst sg.
  revert tr lm. induction losses as [|l losses IH]; intros tr lm; simpl.
  - rewrite !app_nil_r. by destruct lm.
  - run_m. rewrite IH. simpl. by rewrite <- !app_assoc.
Qed.

Lemma train_step_spec env st context :
  sigint st = None ->
  (let outcomes :=
     _gen_training_batch (train_dataset (world env)) (n_ctx (args env))
       (batch_size (args env) * accum_gradients env) in
   nth (pick (world env) (updates st) mod length outcomes)%nat outcomes
       (Raise ValueError) = Ok context) ->
  train_step env st =
    (mkState (fs st)
             (trace st
              ++ train_step_calls (train_losses (world env) (updates st) context))
             (step st) (S (updates st))
             (AverageMeter.Build
                (AverageMeter.values (loss_meter st)
                 ++ train_losses (world env) (updates st) context)) None,
     Ok tt).
Proof.
  intros Hsig Hpick. destruct st as [f tr s u lm sg]. simpl in *. subst sg.
  unfold train_step. run_m. rewrite Hpick.
  rewrite micro_batches_spec by done. simpl.
  unfold train_step_calls. simpl. by rewrite <- !app_assoc.
Qed.

(** With more tokens than a context, every draw succeeds. *)
Lemma gen_training_batch_ok d C B k :
  C < Z.of_nat (length d) ->
  exists context,
    nth (k mod length (_gen_training_batch d C B))%nat (_gen_training_batch d C B)
        (Raise ValueError) = Ok context.
Proof.
  intros HL.
  destruct (randint_outcomes (Z.of_nat (length d) - C)) as (xs & Hr & Hnd & Hxs); [lia|].
  destruct (replicate_vectors (Z.to_nat B) xs Hnd) as (vs & Hrep & Hvs & Hin).
  unfold _gen_training_batch. rewrite Hr, Hrep, rand_bind_ret.
  set (bs := map _ vs).
  assert (bs <> []) as Hne.
  { intros Hnil%map_eq_nil. 
    assert (repeat 0 (Z.to_nat B) ∈ vs) as Hmem; [|by rewrite Hnil in Hmem; inversion Hmem].
    apply Hin. split; [apply repeat_length|].
    apply Forall_forall. intros x Hx%list_elem_of_In%repeat_spec. subst x.
    apply Hxs. lia. }
  assert (k mod length (map Ok bs) < length bs)%nat as Hlt.
  { rewrite length_map. apply Nat.mod_upper_bound. by destruct bs. }
  destruct (nth_error bs (k mod length (map Ok bs))) as [b|] eqn:Hb.
  - exists b. erewrite nth_error_nth; [done|]. by rewrite nth_error_map, Hb.
  - apply nth_error_None in Hb. lia.
Qed.

(** ** Counting events *)

Lemma count_app f (l k : list event) : count f (l ++ k) = (count f l + count f k)%nat.
Proof. unfold count. by rewrite List.filter_app, length_app. Qed.

Lemma count_none f (l : list event) :
  Forall (fun e => f e = false) l -> count f l = O.
Proof.
  unfold count. induction 1 as [|e l He _ IH]; simpl; [done|]. by rewrite He.
Qed.

Lemma save_calls_copies env u s files :
  exists copies,
    save_calls env u s files =
      copies ++ [EvTorchSave (model_path env) (ModelCkpt u s);
                 EvTorchSave (optim_path env) (OptimCkpt u)] /\
    Forall (fun e => is_copy e = true) copies.
Proof.
  exists (backup_calls env "model.pt" files
          ++ backup_calls env "optim.pt" (backup_files env "model.pt" files)).
  split; [unfold save_calls; by rewrite <- app_assoc|].
  apply Forall_app. unfold backup_calls.
  split; destruct (Path.exists_ _ _); by repeat constructor.
Qed.

Lemma count_update_save_calls env u s files :
  count is_update (save_calls env u s files) = O.
Proof.
  destruct (save_calls_copies env u s files) as (copies & -> & Hc).
  rewrite count_app. rewrite (count_none _ copies); [done|].
  eapply Forall_impl; [done|]. by intros [].
Qed.

Lemma count_update_validation_calls env s batches v :
  count is_update (validation_calls env s batches v) = O.
Proof.
  unfold validation_calls. apply count_none. constructor; [done|].
  apply Forall_app. split; [|by repeat constructor].
  apply Forall_forall. by intros e (ctx & -> & _)%list_elem_of_fmap.
Qed.

Lemma count_update_train_step_calls losses :
  count is_update (train_step_calls losses) = 1%nat.
Proof.
  unfold train_step_calls. change (EvZeroGrad :: ?l) with ([EvZeroGrad] ++ l).
  rewrite !count_app. rewrite (count_none _ (map _ _)); [done|].
  apply Forall_forall. by intros e (l & -> & _)%list_elem_of_fmap.
Qed.

Lemma valid_batch_iter_ok d bs C :
  C <> 0 -> exists batches, _valid_batch_iter d bs C = Ok batches.
Proof.
  intros HC. unfold _valid_batch_iter, valid_windows, Py.range.
  destruct (Z.eqb_spec C 0); [done|]. simpl. by eexists.
Qed.

(** ** Stepping through a computation *)

Lemma bind_ret {A B : Type} (a : A) (f : A -> M B) st : (mret a ≫= f) st = f a st.
Proof. reflexivity. Qed.

Lemma bind_get {A B : Type} (proj : State -> A) (f : A -> M B) st :
  (get proj ≫= f) st = f (proj st) st.
Proof. reflexivity. Qed.

Lemma bind_emit {B : Type} (e : event) (f : unit -> M B) st :
  (emit e ≫= f) st =
    f tt (mkState (fs st) (trace st ++ [e]) (step st) (updates st) (loss_meter st)
            (sigint st)).
Proof. reflexivity. Qed.

Lemma bind_modify_fs {B : Type} g (f : unit -> M B) st :
  (modify_fs g ≫= f) st =
    f tt (mkState (g (fs st)) (trace st) (step st) (updates st) (loss_meter st)
            (sigint st)).
Proof. reflexivity. Qed.

Lemma bind_set_step {B : Type} s (f : unit -> M B) st :
  (set_step s ≫= f) st =
    f tt (mkState (fs st) (trace st) s (updates st) (loss_meter st) (sigint st)).
Proof. reflexivity. Qed.

Lemma bind_set_updates {B : Type} u (f : unit -> M B) st :
  (set_updates u ≫= f) st =
    f tt (mkState (fs st) (trace st) (step st) u (loss_meter st) (sigint st)).
Proof. reflexivity. Qed.

Lemma bind_set_loss_meter {B : Type} m (f : unit -> M B) st :
  (set_loss_meter m ≫= f) st =
    f tt (mkState (fs st) (trace st) (step st) (updates st) m (sigint st)).
Proof. reflexivity. Qed.

Lemma bind_tick {B : Type} (f : unit -> M B) st :
  sigint st = None -> (tick ≫= f) st = f tt st.
Proof. intros H. by rewrite (bind_ok _ _ _ _ _ (tick_quiet _ H)). Qed.

Lemma bind_lift_ok {A B : Type} (r : result A) (f : A -> M B) st a :
  r = Ok a -> (lift r ≫= f) st = f a st.
Proof. by intros ->. Qed.

Lemma mod_ok a b : b <> 0 -> Py.mod_ a b = Ok (a mod b).
Proof. intros Hb. unfold Py.mod_. by destruct (Z.eqb_spec b 0). Qed.

Lemma floordiv_ok a b : b <> 0 -> Py.floordiv a b = Ok (a / b).
Proof. intros Hb. unfold Py.floordiv. by destruct (Z.eqb_spec b 0). Qed.

Lemma bind_lift_mod {B : Type} a b (f : Z -> M B) st :
  b <> 0 -> (lift (Py.mod_ a b) ≫= f) st = f (a mod b) st.
Proof. intros Hb. by rewrite (bind_lift_ok _ _ _ _ (mod_ok _ _ Hb)). Qed.

Ltac exec1 :=
  first
    [ rewrite bind_ret
    | rewrite bind_get
    | rewrite bind_emit
    | rewrite bind_modify_fs
    | rewrite bind_set_step
    | rewrite bind_set_updates
    | rewrite bind_set_loss_meter
    | rewrite bind_tick by (simpl; assumption || reflexivity)
    | rewrite bind_lift_mod by assumption
    | rewrite (bind_lift_ok (Ok _) _ _ _ eq_refl)
    | rewrite (bind_lift_ok (AverageMeter.mean (AverageMeter.Build (_ :: _))) _ _ _ eq_refl) ];
  cbv beta; cbn [fs trace step updates loss_meter sigint].

Ltac exec := repeat exec1.

Lemma bind_assoc {A B C : Type} (m : M A) (f : A -> M B) (g : B -> M C) st :
  ((m ≫= f) ≫= g) st = (m ≫= fun a => f a ≫= g) st.
Proof. rewrite !bind_run. by destruct (m st) as [st' [a|e]]. Qed.

Ltac exec_deep := repeat first [rewrite bind_assoc | exec1].

(** ** The loop of [train], uninterrupted *)

Section Loop.
Context (env : Env).
Hypothesis Hmain : is_main env = true.
Hypothesis Hsave : save_every (args env) <> 0.
Hypothesis Hlog : log_every (args env) <> 0.
Hypothesis Hvalid : validate_every' env <> 0.
Hypothesis Hctx : n_ctx (args env) <> 0.
Hypothesis Hlen : n_ctx (args env) < Z.of_nat (length (train_dataset (world env))).
Hypothesis Hloss : forall k ctx, train_losses (world env) k ctx <> [].
Hypothesis Hbatches :
  forall batches,
    _valid_batch_iter (valid_dataset (world env)) (batch_size (args env))
      (n_ctx (args env)) = Ok batches ->
    [] ∉ batches.

(** A scheduled [save()] or [validate()], or nothing. *)
Lemma optional_quiet (b : bool) (m : M unit) st :
  m = save env \/ m = validate env ->
  sigint st = None ->
  exists st',
    (if b then m else mret tt) st = (st', Ok tt) /\
    step st' = step st /\ updates st' = updates st /\
    loss_meter st' = loss_meter st /\ sigint st' = None /\
    exists evs, trace st' = trace st ++ evs /\ count is_update evs = O.
Proof.
  intros Hm Hsig. destruct b.
  - destruct Hm as [-> | ->].
    + rewrite save_spec by done. eexists. split_and!; try done.
      eexists. split; [done|]. apply count_update_save_calls.
    + destruct (valid_batch_iter_ok (valid_dataset (world env))
                  (batch_size (args env)) _ Hctx) as [batches Hb].
      destruct (validate_spec env st batches Hmain Hsig Hb (Hbatches _ Hb))
        as (v & _ & ->).
      eexists. split_and!; try done.
      eexists. split; [done|]. apply count_update_validation_calls.
  - exists st. split_and!; try done. exists []. by rewrite app_nil_r.
Qed.

Lemma loop_body_continue st :
  sigint st = None ->
  budget_reached env (step st) = false ->
  exists st',
    loop_body env st = (st', Ok false) /\
    step st' = step st + 1 /\ updates st' = S (updates st) /\ sigint st' = None /\
    exists evs, trace st' = trace st ++ evs /\ count is_update evs = 1%nat.
Proof.
  intros Hsig Hbudget. unfold loop_body.
  exec.
  destruct (optional_quiet (step st mod save_every (args env) =? 0) (save env) st)
    as (st1 & Hrun1 & Hstep1 & Hupd1 & Hmeter1 & Hsig1 & evs1 & Htr1 & Hcount1); auto.
  rewrite (bind_ok _ _ _ _ _ Hrun1). exec.
  rewrite Hbudget.
  destruct (gen_training_batch_ok (train_dataset (world env)) (n_ctx (args env))
              (batch_size (args env) * accum_gradients env)
              (pick (world env) (updates st1)) Hlen) as [context Hpick].
  rewrite (bind_ok _ _ _ _ _ (train_step_spec env st1 context Hsig1 Hpick)).
  set (losses := train_losses (world env) (updates st1) context).
  assert (exists l ls, AverageMeter.values (loss_meter st1) ++ losses = l :: ls)
    as (l & ls & Hvalues).
  { specialize (Hloss (updates st1) context). fold losses in Hloss.
    destruct (AverageMeter.values (loss_meter st1)); simpl; [|by eauto].
    destruct losses; [done | by eauto]. }
  rewrite Hvalues. exec. rewrite Hmain.
  match goal with
  | |- exists _, (?m ≫= _) ?s = _ /\ _ =>
      assert (exists st3,
                 m s = (st3, Ok tt) /\ step st3 = step s /\
                 updates st3 = updates s /\ sigint st3 = None /\
                 exists evs, trace st3 = trace s ++ evs /\ count is_update evs = O)
        as (st3 & Hrun3 & Hstep3 & Hupd3 & Hsig3 & evs3 & Htr3 & Hcount3)
  end.
  { exec. destruct ((step st + 1) mod log_every (args env) =? 0); exec.
    - eexists. split_and!; try done. eexists. split; reflexivity.
    - eexists. split_and!; try done. exists []. by rewrite app_nil_r. }
  cbn [fs trace step updates loss_meter sigint] in *.
  rewrite (bind_ok _ _ _ _ _ Hrun3). exec.
  destruct (optional_quiet ((step st + 1) mod validate_every' env =? 0)
              (validate env) st3)
    as (st4 & Hrun4 & Hstep4 & Hupd4 & Hmeter4 & Hsig4 & evs4 & Htr4 & Hcount4); auto.
  rewrite (bind_ok _ _ _ _ _ Hrun4). exec.
  exists st4. split_and!; try reflexivity; try congruence.
  exists (evs1 ++ train_step_calls losses ++ evs3 ++ evs4). split.
  - rewrite Htr4, Htr3, Htr1. by rewrite <- !app_assoc.
  - rewrite !count_app, Hcount1, Hcount3, Hcount4, count_update_train_step_calls. done.
Qed.

Lemma loop_body_stop st mt :
  sigint st = None ->
  max_tokens (args env) = Some mt ->
  budget_reached env (step st) = true ->
  exists st' pre copies batches v,
    loop_body env st = (st', Ok true) /\
    step st' = step st /\ updates st' = updates st /\ sigint st' = None /\
    trace st' =
      trace st ++ pre
      ++ [EvPrintF "max_tokens {} reached, saving and exiting" [AInt mt]]
      ++ copies
      ++ [EvTorchSave (model_path env) (ModelCkpt (updates st) (step st));
          EvTorchSave (optim_path env) (OptimCkpt (updates st))]
      ++ validation_calls env (step st) batches v /\
    count is_update pre = O /\
    Forall (fun e => is_copy e = true) copies /\
    _valid_batch_iter (valid_dataset (world env)) (batch_size (args env))
      (n_ctx (args env)) = Ok batches /\
    [] ∉ batches.
Proof.
  intros Hsig Hmt Hbudget. unfold loop_body.
  exec.
  destruct (optional_quiet (step st mod save_every (args env) =? 0) (save env) st)
    as (st1 & Hrun1 & Hstep1 & Hupd1 & Hmeter1 & Hsig1 & evs1 & Htr1 & Hcount1); auto.
  rewrite (bind_ok _ _ _ _ _ Hrun1). exec.
  rewrite Hbudget, Hmt. exec. cbn [default].
  match goal with
  | |- context [(save env ≫= _) ?s] =>
      rewrite (bind_ok _ _ _ _ _ (save_spec env s Hmain Hsig1))
  end.
  cbn [fs trace step updates loss_meter sigint].
  destruct (valid_batch_iter_ok (valid_dataset (world env))
              (batch_size (args env)) _ Hctx) as [batches Hb].
  match goal with
  | |- exists _ _ _ _ _, (validate env ≫= _) ?s = _ /\ _ =>
      destruct (validate_spec env s batches Hmain eq_refl Hb (Hbatches _ Hb))
        as (v & _ & Hrun3)
  end.
  rewrite (bind_ok _ _ _ _ _ Hrun3). exec.
  cbn [fs trace step updates loss_meter sigint].
  destruct (save_calls_copies env (updates st1) (step st1) (fs st1))
    as (copies & Hcalls & Hcopies).
  eexists _, evs1, copies, batches, v. split_and!; try done; [|by apply Hbatches].
  rewrite Hcalls, Htr1, Hstep1, Hupd1. by rewrite <- !app_assoc.
Qed.
End Loop.

(** ** The checkpoint files *)

Lemma prev_model env :
  prev_path env "model.pt" = Path.join (run_path (args env)) "model-prev.pt".
Proof. reflexivity. Qed.

Lemma prev_optim env :
  prev_path env "optim.pt" = Path.join (run_path (args env)) "optim-prev.pt".
Proof. reflexivity. Qed.

Lemma join_inj (p : path) (a b : string) : Path.join p a = Path.join p b -> a = b.
Proof. unfold Path.join. intros H%app_inv_head. by injection H. Qed.

Lemma checkpoint_paths_ne env :
  model_path env <> optim_path env /\
  model_path env <> prev_path env "model.pt" /\
  model_path env <> prev_path env "optim.pt" /\
  optim_path env <> prev_path env "model.pt" /\
  optim_path env <> prev_path env "optim.pt" /\
  prev_path env "model.pt" <> prev_path env "optim.pt".
Proof.
  rewrite prev_model, prev_optim. unfold model_path, optim_path.
  split_and!; by intros H%join_inj.
Qed.

Lemma backup_files_lookup env name files (p : path) :
  backup_files env name files !! p =
    if decide (p = prev_path env name)
    then match files !! Path.join (run_path (args env)) name with
         | Some n => Some n
         | None => files !! p
         end
    else files !! p.
Proof.
  unfold backup_files, Path.exists_, Path.copy.
  destruct (files !! Path.join (run_path (args env)) name) as [n|] eqn:Hsrc.
  - rewrite bool_decide_eq_true_2 by eauto.
    case_decide; simplify_map_eq; done.
  - rewrite bool_decide_eq_false_2 by (by intros [? ?]).
    by case_decide.
Qed.

Lemma save_files_lookup env u s files (p : path) :
  save_files env u s files !! p =
    if decide (p = optim_path env) then Some (File (OptimCkpt u))
    else if decide (p = model_path env) then Some (File (ModelCkpt u s))
    else if decide (p = prev_path env "optim.pt")
    then match files !! optim_path env with
         | Some n => Some n
         | None => files !! p
         end
    else if decide (p = prev_path env "model.pt")
    then match files !! model_path env with
         | Some n => Some n
         | None => files !! p
         end
    else files !! p.
Proof.
  destruct (checkpoint_paths_ne env) as (? & ? & ? & ? & ? & ?).
  unfold save_files, Path.write.
  destruct (decide (p = optim_path env)) as [->|Ho]; [by rewrite lookup_insert_eq|].
  rewrite lookup_insert_ne by done.
  destruct (decide (p = model_path env)) as [->|Hm]; [by rewrite lookup_insert_eq|].
  rewrite lookup_insert_ne by done.
  rewrite !backup_files_lookup. fold (optim_path env) (model_path env).
  destruct (decide (p = prev_path env "optim.pt")) as [->|Hop].
  - rewrite (decide_False (P := optim_path env = _)) by done.
    destruct (files !! optim_path env); [done|].
    by rewrite decide_False by done.
  - done.
Qed.

Lemma exists_after_backup env files :
  Path.exists_ (optim_path env) (backup_files env "model.pt" files) =
  Path.exists_ (optim_path env) files.
Proof.
  destruct (checkpoint_paths_ne env) as (? & ? & ? & ? & ? & ?).
  unfold Path.exists_. rewrite backup_files_lookup.
  rewrite decide_False by done. done.
Qed.

Lemma saves_spec env gens st :
  is_main env = true -> sigint st = None ->
  exists st',
    saves env gens st = (st', Ok tt) /\ sigint st' = None /\
    (forall p, p ∉ checkpoint_paths env -> fs st' !! p = fs st !! p).
Proof.
  intros Hmain. revert st. induction gens as [|[u s] gens IH]; intros st Hsig.
  - exists st. by split_and!.
  - simpl. exec. 
    match goal with
    | |- context [(save env ≫= _) ?s] =>
        rewrite (bind_ok _ _ _ _ _ (save_spec env s Hmain Hsig))
    end.
    cbn [fs trace step updates loss_meter sigint].
    match goal with
    | |- context [saves env gens ?s] => destruct (IH s eq_refl) as (st' & -> & Hsig' & Hother)
    end.
    exists st'. split_and!; [done..|].
    intros p Hp. rewrite Hother by done. cbn [fs].
    rewrite save_files_lookup. unfold checkpoint_paths in Hp.
    rewrite !not_elem_of_cons in Hp. destruct Hp as (? & ? & ? & ? & _).
    by rewrite !decide_False by done.
Qed.

Lemma saves_app env gens gens' st st1 :
  saves env gens st = (st1, Ok tt) ->
  saves env (gens ++ gens') st = saves env gens' st1.
Proof.
  revert st. induction gens as [|[u s] gens IH]; intros st; simpl.
  - by intros [= ->].
  - exec. rewrite !bind_run.
    destruct (save env _) as [st2 [[]|e]]; [apply IH | done].
Qed.

(** ** The token budget *)

Lemma budget_three env s :
  0 < step_tokens env ->
  max_tokens (args env) = Some (3 * step_tokens env) ->
  budget_reached env s = (3 <=? s).
Proof.
  intros HT Hmt. unfold budget_reached. rewrite Hmt.
  destruct (Z.eqb_spec (3 * step_tokens env) 0); [lia|]. simpl.
  destruct (Z.leb_spec (3 * step_tokens env) (s * step_tokens env));
    destruct (Z.leb_spec 3 s); try done; nia.
Qed.

Lemma train_budget_three env st :
  is_main env = true ->
  save_every (args env) <> 0 ->
  log_every (args env) <> 0 ->
  validate_every' env <> 0 ->
  n_ctx (args env) <> 0 ->
  n_ctx (args env) < Z.of_nat (length (train_dataset (world env))) ->
  (forall k ctx, train_losses (world env) k ctx <> []) ->
  (forall batches,
      _valid_batch_iter (valid_dataset (world env)) (batch_size (args env))
        (n_ctx (args env)) = Ok batches ->
      [] ∉ batches) ->
  0 < step_tokens env ->
  max_tokens (args env) = Some (3 * step_tokens env) ->
  3 <= epoch_size env ->
  1 <= epochs (args env) ->
  sigint st = None ->
  step st = 1 ->
  exists st' pre copies batches v,
    train env st = (st', Ok tt) /\
    step st' = 3 /\ updates st' = S (S (updates st)) /\ sigint st' = None /\
    trace st' =
      trace st ++ pre
      ++ [EvPrintF "max_tokens {} reached, saving and exiting"
            [AInt (3 * step_tokens env)]]
      ++ copies
      ++ [EvTorchSave (model_path env) (ModelCkpt (S (S (updates st))) 3);
          EvTorchSave (optim_path env) (OptimCkpt (S (S (updates st))))]
      ++ validation_calls env 3 batches v /\
    count is_update pre = 2%nat /\
    Forall (fun e => is_copy e = true) copies /\
    _valid_batch_iter (valid_dataset (world env)) (batch_size (args env))
      (n_ctx (args env)) = Ok batches /\
    [] ∉ batches.
Proof.
  intros Hmain Hsave Hlog Hvalid Hctx Hlen Hloss Hbatches HT Hmt Hsize Hepochs Hsig
    Hstep.
  unfold train.
  destruct (Z.to_nat (epochs (args env))) as [|m] eqn:Hm; [lia|].
  destruct (Z.to_nat (epoch_size env)) as [|[|[|k]]] eqn:Hk; try lia.
  cbn [epochs_loop]. rewrite Hk. cbn [epoch_loop].
  destruct (loop_body_continue env Hmain Hsave Hlog Hvalid Hctx Hlen Hloss Hbatches
              st Hsig)
    as (st1 & Hrun1 & Hstep1 & Hupd1 & Hsig1 & evs1 & Htr1 & Hcount1).
  { rewrite (budget_three env _ HT Hmt), Hstep. done. }
  destruct (loop_body_continue env Hmain Hsave Hlog Hvalid Hctx Hlen Hloss Hbatches
              st1 Hsig1)
    as (st2 & Hrun2 & Hstep2 & Hupd2 & Hsig2 & evs2 & Htr2 & Hcount2).
  { rewrite (budget_three env _ HT Hmt), Hstep1, Hstep. done. }
  destruct (loop_body_stop env Hmain Hsave Hctx Hbatches st2 _ Hsig2 Hmt)
    as (st3 & pre & copies & batches & v & Hrun3 & Hstep3 & Hupd3 & Hsig3 & Htr3
        & Hcount3 & Hcopies & Hb & Hne).
  { rewrite (budget_three env _ HT Hmt), Hstep2, Hstep1, Hstep. done. }
  rewrite !bind_run, Hrun1. rewrite !bind_run, Hrun2. rewrite !bind_run, Hrun3.
  exists st3, (evs1 ++ evs2 ++ pre), copies, batches, v.
  assert (step st2 = 3) as Hthree by lia.
  rewrite Hthree in *.
  split_and!; try done; try congruence.
  - rewrite Htr3, Htr2, Htr1, Hupd2, Hupd1. by rewrite <- !app_assoc.
  - rewrite !count_app, Hcount1, Hcount2, Hcount3. done.
Qed.

(** ** Start-up *)

Lemma prepare_run_dir_secondary a st :
  primary a = false -> prepare_run_dir a st = (st, Ok tt).
Proof. intros H. unfold prepare_run_dir. by rewrite H. Qed.

Lemma prepare_run_dir_keep a st :
  primary a = true ->
  clean a && Path.exists_ (run_path a) (fs st) = false ->
  prepare_run_dir a st =
    (mkState (Path.touch (Path.join (run_path a) ".lm") (Path.mkdir (run_path a) (fs st)))
             (trace st ++ [EvMkdir (run_path a); EvTouch (Path.join (run_path a) ".lm")])
             (step st) (updates st) (loss_meter st) (sigint st),
     Ok tt).
Proof.
  intros Hp Hc. unfold prepare_run_dir. rewrite Hp. exec. rewrite Hc. exec.
  by rewrite <- app_assoc.
Qed.

Lemma prepare_run_dir_refuse a st :
  primary a = true ->
  clean a && Path.exists_ (run_path a) (fs st) = true ->
  Path.exists_ (Path.join (run_path a) ".lm") (fs st) = false ->
  prepare_run_dir a st = (st, Raise (AssertionError 70)).
Proof.
  intros Hp Hc Hmark. unfold prepare_run_dir. rewrite Hp. exec. rewrite Hc.
  exec_deep. rewrite Hmark. reflexivity.
Qed.

Lemma prepare_run_dir_clean a st :
  primary a = true ->
  clean a && Path.exists_ (run_path a) (fs st) = true ->
  Path.exists_ (Path.join (run_path a) ".lm") (fs st) = true ->
  prepare_run_dir a st =
    (mkState (Path.touch (Path.join (run_path a) ".lm")
                (Path.mkdir (run_path a) (Path.rmtree (run_path a) (fs st))))
             (trace st ++ [EvRmtree (run_path a); EvMkdir (run_path a);
                           EvTouch (Path.join (run_path a) ".lm")])
             (step st) (updates st) (loss_meter st) (sigint st),
     Ok tt).
Proof.
  intros Hp Hc Hmark. unfold prepare_run_dir. rewrite Hp. exec. rewrite Hc.
  exec_deep. rewrite Hmark. unfold assert_. cbv iota. exec_deep.
  by rewrite <- !app_assoc.
Qed.

Lemma load_everything_spec w a ws st :
  exists st1 evs,
    load_everything w a ws st = (st1, Ok tt) /\
    trace st1 = trace st ++ evs /\
    Forall (fun e => is_update e = false /\ is_validation e = false) evs /\
    step st1 = step st /\ updates st1 = O /\ loss_meter st1 = AverageMeter.init /\
    sigint st1 = sigint st.
Proof.
  unfold load_everything.
  destruct (primary a), (device_id a); exec_deep;
    (eexists _, _; split; [reflexivity|]; cbn [fs trace step updates loss_meter sigint];
     split_and!; [by rewrite <- !app_assoc | | done..];
     repeat constructor).
Qed.

(** ** The claims about the whole run *)

(** C1, as amended.  With a budget of three steps' worth of tokens
    ([max_tokens = 3 * step_tokens]), an uninterrupted primary whose run
    directory can be made (no regular file stands at [run_path] or above
    it), whose first epoch has at least three rounds, and whose validation
    iterator yields no batch without windows, starts with the counter at 1,
    makes an optimizer update at the counters 1 and 2, and stops when the
    counter is 3: exactly two updates precede the notice, after which it
    saves the checkpoint once (backups, then the model and optimizer of two
    updates with [step = 3]), validates once over the validation batches,
    and [main] returns normally, so the process exits with status 0. *)
Theorem budget_of_three_steps_stops_after_two
    (w : World) (a : Args) (n : Z) (files : gmap path node) :
  let world_size := Z.max 1 n in
  let g := default world_size (g_accum_gradients a) in
  let T := n_ctx a * batch_size a * g in
  n_devices a = Some n \/ (n_devices a = None /\ device_count w = n /\ n <= 1) ->
  primary a = true -> clean a = false -> only_validate a = false ->
  g mod world_size = 0 ->
  0 < T -> max_tokens a = Some (3 * T) ->
  3 <= Z.of_nat (length (train_dataset w)) / T -> 1 <= epochs a ->
  save_every a <> 0 -> log_every a <> 0 ->
  default (save_every a) (validate_every a) <> 0 ->
  (forall k ctx, train_losses w k ctx <> []) ->
  (forall batches,
      _valid_batch_iter (valid_dataset w) (batch_size a) (n_ctx a) = Ok batches ->
      [] ∉ batches) ->
  (forall q c, q `prefix_of` run_path a -> files !! q <> Some (File c)) ->
  exists st' pre copies batches v,
    main w a (boot files None) = (st', Ok tt) /\
    exit_status (main w a (boot files None)).2 = 0 /\
    step st' = 3 /\ updates st' = 2%nat /\
    trace st' =
      pre
      ++ [EvPrintF "max_tokens {} reached, saving and exiting" [AInt (3 * T)]]
      ++ copies
      ++ [EvTorchSave (Path.join (run_path a) "model.pt") (ModelCkpt 2 3);
          EvTorchSave (Path.join (run_path a) "optim.pt") (OptimCkpt 2)]
      ++ [EvEvalMode] ++ map EvForward batches
      ++ [EvTrainMode; EvWriteEvent (3 * T) "valid_loss" v] /\
    count is_update pre = 2%nat /\
    Forall (fun e => is_copy e = true) copies /\
    _valid_batch_iter (valid_dataset w) (batch_size a) (n_ctx a) = Ok batches.
Proof.
  intros ws g T Hn Hprimary Hclean Honly Hdiv HT Hmt Hsize Hepochs Hsave Hlog Hvalid
    Hloss Hbatches _.
  assert (ws <> 0) as Hws by (subst ws; lia).
  assert (T <> 0) as HT0 by lia.
  assert (main w a (boot files None) = main_worker w a n (boot files None)) as ->.
  { unfold main. destruct Hn as [-> | (-> & -> & Hle)]; [done|].
    by destruct (Z.ltb_spec 1 n); [lia|]. }
  unfold main_worker. cbv zeta.
  fold ws. fold g. fold T.
  rewrite bind_lift_mod by done. rewrite Hdiv. unfold assert_. simpl (0 =? 0).
  cbv iota. exec.
  rewrite (bind_lift_ok _ _ _ _ (floordiv_ok _ _ Hws)).
  rewrite (bind_ok _ _ _ _ _ (prepare_run_dir_keep a _ Hprimary
             ltac:(by rewrite Hclean))).
  match goal with
  | |- context [(load_everything w a ws ≫= _) ?s] =>
      destruct (load_everything_spec w a ws s)
        as (st1 & evs1 & Hrun1 & Htr1 & Hevs1 & Hstep1 & Hupd1 & Hmeter1 & Hsig1)
  end.
  rewrite (bind_ok _ _ _ _ _ Hrun1). exec.
  rewrite (bind_lift_ok _ _ _ _ (floordiv_ok _ _ HT0)).
  unfold run. cbn [args is_main]. rewrite Honly.
  set (env := Build_Env _ _ _ _ _ _ _).
  set (st2 := mkState _ _ _ _ _ _).
  destruct (train_budget_three env st2)
    as (st' & pre & copies & batches & v & Hrun & Hstep & Hupd & Hsig & Htr
        & Hcount & Hcopies & Hb & Hne); try done.
  - subst T. intros H0. simpl in H0. rewrite H0 in HT. lia.
  - simpl. subst T.
    assert (3 * (n_ctx a * batch_size a * g)
            <= Z.of_nat (length (train_dataset w))).
    { pose proof (Z.mul_div_le (Z.of_nat (length (train_dataset w)))
                    (n_ctx a * batch_size a * g) HT). simpl in Hsize. nia. }
    destruct (Z_le_gt_dec (n_ctx a) 0); [lia|].
    assert (1 <= batch_size a * g) by nia. nia.
  - unfold except_KeyboardInterrupt. rewrite Hrun.
    exists st', (trace st2 ++ pre), copies, batches, v.
    split_and!; try done.
    + rewrite Hupd. subst st2. simpl. by rewrite Hupd1.
    + rewrite Htr. subst st2. cbn [updates]. rewrite Hupd1.
      unfold validation_calls. by rewrite <- !app_assoc.
    + rewrite count_app, Hcount. subst st2. cbn [trace]. rewrite Htr1.
      cbn [trace]. rewrite count_app. 
      rewrite (count_none _ evs1); [done|].
      eapply Forall_impl; [done|]. by intros e [? _].
Qed.

(** C3.  On the primary, an uninterrupted [save()] first copies each of
    [model.pt] and [optim.pt] that exists to its [-prev] sibling and only
    then writes the two new files.  After any sequence of at least three
    consecutive calls, the two files hold the state of the last call and
    the two [-prev] files the state of the call before it; no checkpoint
    file holds the state of the call before those two any more, and no
    other file has changed.  On a process that is not the primary [save()]
    does nothing. *)
Theorem save_keeps_two_generations
    (env : Env) (st : State) (older : list (nat * Z))
    (u0 : nat) (s0 : Z) (u1 : nat) (s1 : Z) (u2 : nat) (s2 : Z) :
  is_main env = true ->
  sigint st = None ->
  (exists st1,
      save env st = (st1, Ok tt) /\
      trace st1 =
        trace st
        ++ (if Path.exists_ (model_path env) (fs st)
            then [EvCopy (model_path env) (prev_path env "model.pt")] else [])
        ++ (if Path.exists_ (optim_path env) (fs st)
            then [EvCopy (optim_path env) (prev_path env "optim.pt")] else [])
        ++ [EvTorchSave (model_path env) (ModelCkpt (updates st) (step st));
            EvTorchSave (optim_path env) (OptimCkpt (updates st))]) /\
  (exists st',
      saves env (older ++ [(u0, s0); (u1, s1); (u2, s2)]) st = (st', Ok tt) /\
      fs st' !! model_path env = Some (File (ModelCkpt u2 s2)) /\
      fs st' !! optim_path env = Some (File (OptimCkpt u2)) /\
      fs st' !! prev_path env "model.pt" = Some (File (ModelCkpt u1 s1)) /\
      fs st' !! prev_path env "optim.pt" = Some (File (OptimCkpt u1)) /\
      (forall p, p ∉ checkpoint_paths env -> fs st' !! p = fs st !! p) /\
      ((u0, s0) <> (u1, s1) -> (u0, s0) <> (u2, s2) ->
       forall p, p ∈ checkpoint_paths env ->
         fs st' !! p <> Some (File (ModelCkpt u0 s0))) /\
      (u0 <> u1 -> u0 <> u2 ->
       forall p, p ∈ checkpoint_paths env ->
         fs st' !! p <> Some (File (OptimCkpt u0)))) /\
  (forall env' st0, is_main env' = false -> save env' st0 = (st0, Ok tt)).
Proof.
  intros Hmain Hsig. split_and!.
  - rewrite save_spec by done. eexists. split; [reflexivity|].
    cbn [trace]. unfold save_calls, backup_calls.
    pose proof (exists_after_backup env (fs st)) as Hsame.
    unfold model_path, optim_path in *. by rewrite Hsame.
  - destruct (saves_spec env (older ++ [(u0, s0)]) st Hmain Hsig)
      as (sta & Hruna & Hsiga & Hothera).
    replace (older ++ [(u0, s0); (u1, s1); (u2, s2)])
      with ((older ++ [(u0, s0)]) ++ [(u1, s1); (u2, s2)])
      by (by rewrite <- app_assoc).
    rewrite (saves_app _ _ _ _ _ Hruna).
    cbn [saves]. exec.
    match goal with
    | |- context [(save env ≫= _) ?s] =>
        rewrite (bind_ok _ _ _ _ _ (save_spec env s Hmain Hsiga))
    end.
    exec.
    match goal with
    | |- context [(save env ≫= _) ?s] =>
        rewrite (bind_ok _ _ _ _ _ (save_spec env s Hmain eq_refl))
    end.
    cbn [fs trace step updates loss_meter sigint].
    eexists. split; [reflexivity|]. cbn [fs].
    destruct (checkpoint_paths_ne env) as (? & ? & ? & ? & ? & ?).
    match goal with
    | |- context [save_files env u2 s2 ?f] => set (files := save_files env u2 s2 f)
    end.
    assert (files !! model_path env = Some (File (ModelCkpt u2 s2))) as Hm.
    { subst files. rewrite save_files_lookup. rewrite decide_False by done.
      by rewrite decide_True. }
    assert (files !! optim_path env = Some (File (OptimCkpt u2))) as Ho.
    { subst files. rewrite save_files_lookup. by rewrite decide_True. }
    assert (files !! prev_path env "model.pt" = Some (File (ModelCkpt u1 s1))) as Hmp.
    { subst files. rewrite save_files_lookup. rewrite !decide_False by done.
      rewrite decide_True by done.
      rewrite save_files_lookup. rewrite decide_False by done.
      by rewrite decide_True. }
    assert (files !! prev_path env "optim.pt" = Some (File (OptimCkpt u1))) as Hop.
    { subst files. rewrite save_files_lookup. rewrite !decide_False by done.
      rewrite decide_True by done.
      rewrite save_files_lookup. by rewrite decide_True. }
    split_and!; [done..| | |].
    + intros p Hp. pose proof Hp as Hp'. unfold checkpoint_paths in Hp'.
      rewrite !not_elem_of_cons in Hp'. destruct Hp' as (? & ? & ? & ? & _).
      subst files. rewrite !save_files_lookup. rewrite !decide_False by done.
      by apply Hothera.
    + intros Hne1 Hne2 p Hp. unfold checkpoint_paths in Hp.
      rewrite !elem_of_cons, elem_of_nil in Hp.
      destruct Hp as [->|[->|[->|[->|[]]]]]; rewrite ?Hm, ?Ho, ?Hmp, ?Hop;
        intros [= ]; congruence.
    + intros Hne1 Hne2 p Hp. unfold checkpoint_paths in Hp.
      rewrite !elem_of_cons, elem_of_nil in Hp.
      destruct Hp as [->|[->|[->|[->|[]]]]]; rewrite ?Hm, ?Ho, ?Hmp, ?Hop;
        intros [= ]; congruence.
  - intros env' st0. apply save_secondary.
Qed.

Lemma save_keeps_two_generations_demo :
  exists st',
    saves demo_env [(0%nat, 1); (1%nat, 2); (2%nat, 3)] (boot ∅ None) = (st', Ok tt) /\
    fs st' !! model_path demo_env = Some (File (ModelCkpt 2 3)) /\
    fs st' !! prev_path demo_env "model.pt" = Some (File (ModelCkpt 1 2)).
Proof.
  destruct (save_keeps_two_generations demo_env (boot ∅ None) []
              0%nat 1 1%nat 2 2%nat 3 eq_refl eq_refl)
    as (_ & (st' & Hrun & Hm & _ & Hp & _) & _).
  exists st'. split_and!; assumption.
Defined.

(** C7.  Whenever [train()] ends with [KeyboardInterrupt], whatever the
    point at which the signal arrived: the primary prints
    "Interrupted, saving", saves a checkpoint of the state reached (the
    backups, then the model with the current counter and the optimizer)
    and raises [SystemExit(1)], so the process exits with status 1; a
    process that is not the primary stops as it is, without printing or
    saving, and [main] returns. *)
Theorem interrupt_checkpoints_and_exits (env : Env) (st st1 : State) :
  only_validate (args env) = false ->
  train env st = (st1, Raise KeyboardInterrupt) ->
  (is_main env = true ->
   exists st2 copies,
     run env st = (st2, Raise (SystemExit 1)) /\
     exit_status (run env st).2 = 1 /\
     trace st2 =
       trace st1 ++ [EvPrint "Interrupted, saving"] ++ copies
       ++ [EvTorchSave (model_path env) (ModelCkpt (updates st1) (step st1));
           EvTorchSave (optim_path env) (OptimCkpt (updates st1))] /\
     Forall (fun e => is_copy e = true) copies /\
     fs st2 !! model_path env = Some (File (ModelCkpt (updates st1) (step st1))) /\
     fs st2 !! optim_path env = Some (File (OptimCkpt (updates st1)))) /\
  (is_main env = false ->
   run env st = (st1, Ok tt) /\ exit_status (run env st).2 = 0).
Proof.
  intros Honly Hrun.
  destruct (sound_train env _ _ _ Hrun) as (_ & _ & Hki & _).
  destruct Hki as [_ Hsig]; [done|].
  unfold run, except_KeyboardInterrupt. rewrite Honly, Hrun. unfold interrupted.
  split; intros Hmain; rewrite Hmain; [|done].
  exec.
  match goal with
  | |- context [(save env ≫= _) ?s] =>
      rewrite (bind_ok _ _ _ _ _ (save_spec env s Hmain Hsig))
  end.
  cbn [fs trace step updates loss_meter sigint].
  destruct (save_calls_copies env (updates st1) (step st1) (fs st1))
    as (copies & Hcalls & Hcopies).
  eexists _, copies. split; [reflexivity|]. cbn [fs trace].
  destruct (checkpoint_paths_ne env) as (? & ? & ? & ? & ? & ?).
  split_and!; [done | | done | |].
  - rewrite Hcalls. by rewrite <- !app_assoc.
  - rewrite save_files_lookup. rewrite decide_False by done. by rewrite decide_True.
  - rewrite save_files_lookup. by rewrite decide_True.
Qed.

Lemma interrupt_checkpoints_and_exits_demo :
  (exists st2,
     run demo_env (mkState ∅ [] 1 0 AverageMeter.init (Some 9%nat))
       = (st2, Raise (SystemExit 1)) /\
     fs st2 !! model_path demo_env = Some (File (ModelCkpt 1 2))) /\
  (exists st1,
     run demo_env_secondary (mkState ∅ [] 1 0 AverageMeter.init (Some 9%nat))
       = (st1, Ok tt) /\ fs st1 = ∅).
Proof.
  split.
  - destruct (interrupt_checkpoints_and_exits demo_env
                (mkState ∅ [] 1 0 AverageMeter.init (Some 9%nat))
                (mkState ∅ [EvZeroGrad; EvBackward 1; EvOptimizerStep; EvWriteEvent 16 "loss" 1] 2 1
                   (AverageMeter.Build [1%Q]) None)
                eq_refl ltac:(vm_compute; reflexivity))
      as [Hp _].
    destruct (Hp eq_refl) as (st2 & copies & Hrun & _ & _ & _ & Hm & _).
    exists st2. split; assumption.
  - destruct (interrupt_checkpoints_and_exits demo_env_secondary
                (mkState ∅ [] 1 0 AverageMeter.init (Some 9%nat))
                (mkState ∅ [EvZeroGrad; EvBackward 1; EvOptimizerStep] 2 1
                   (AverageMeter.Build [1%Q]) None)
                eq_refl ltac:(vm_compute; reflexivity))
      as [_ Hs].
    destruct (Hs eq_refl) as [Hrun _].
    eexists. split; [exact Hrun | reflexivity].
Defined.

(** ** The worker, phase by phase *)

Lemma prepare_run_dir_inv a st st1 r1 :
  prepare_run_dir a st = (st1, r1) ->
  (r1 = Raise (AssertionError 70) /\ st1 = st /\
   primary a = true /\ clean a = true /\
   Path.exists_ (run_path a) (fs st) = true /\
   Path.exists_ (Path.join (run_path a) ".lm") (fs st) = false) \/
  (r1 = Ok tt /\ sigint st1 = sigint st /\
   exists evs,
     trace st1 = trace st ++ evs /\
     Forall (fun e => is_validation e = false /\ is_update e = false) evs /\
     forall p, EvRmtree p ∈ evs ->
       p = run_path a /\ primary a = true /\ clean a = true /\
       Path.exists_ (run_path a) (fs st) = true /\
       Path.exists_ (Path.join (run_path a) ".lm") (fs st) = true).
Proof.
  destruct (primary a) eqn:Hp.
  - destruct (clean a && Path.exists_ (run_path a) (fs st)) eqn:Hc.
    + destruct (Path.exists_ (Path.join (run_path a) ".lm") (fs st)) eqn:Hmark.
      * rewrite prepare_run_dir_clean by done. intros [= <- <-]. right.
        split_and!; [done..|]. eexists. split; [reflexivity|].
        apply andb_true_iff in Hc as [Hclean Hrun].
        split; [by repeat constructor|].
        intros p Hin. rewrite !elem_of_cons, elem_of_nil in Hin.
        destruct Hin as [[= ->]|[|[|[]]]]; done.
      * rewrite prepare_run_dir_refuse by done. intros [= <- <-]. left.
        apply andb_true_iff in Hc as [Hclean Hrun]. done.
    + rewrite prepare_run_dir_keep by done. intros [= <- <-]. right.
      split_and!; [done..|]. eexists. split; [reflexivity|].
      split; [by repeat constructor|].
      intros p Hin. rewrite !elem_of_cons, elem_of_nil in Hin.
      destruct Hin as [|[|[]]]; done.
  - rewrite prepare_run_dir_secondary by done. intros [= <- <-]. right.
    split_and!; [done..|]. exists []. rewrite app_nil_r.
    split_and!; [done..|]. intros p Hin. by apply elem_of_nil in Hin.
Qed.

Lemma main_worker_inv w a n st st' r :
  let ws := Z.max 1 n in
  let g := default ws (g_accum_gradients a) in
  main_worker w a n st = (st', r) ->
  (g mod ws <> 0 /\ st' = st /\ r = Raise (AssertionError 61)) \/
  (g mod ws = 0 /\
   exists st1 r1,
     prepare_run_dir a st = (st1, r1) /\
     ((exists e, r1 = Raise e /\ st' = st1 /\ r = Raise e) \/
      (r1 = Ok tt /\
       (exists evs, trace st' = trace st1 ++ evs /\ Forall late_event evs) /\
       (forall e, r = Raise e -> e <> KeyboardInterrupt -> late_exn e)))).
Proof.
  intros ws g. assert (ws <> 0) as Hws by (subst ws; lia).
  unfold main_worker. cbv zeta. fold ws. fold g.
  rewrite bind_lift_mod by done. unfold assert_.
  destruct (Z.eqb_spec (g mod ws) 0) as [Hdiv|Hdiv].
  - exec. rewrite (bind_lift_ok _ _ _ _ (floordiv_ok _ _ Hws)).
    rewrite bind_run.
    destruct (prepare_run_dir a st) as [st1 [[]|e]] eqn:Hdir.
    + intros Hrest. right. split; [done|]. exists st1, (Ok tt). split; [done|].
      right. split; [done|].
      match type of Hrest with
      | ?m st1 = _ =>
          assert (sound late_event late_exn m) as Hsound
            by (sound_auto; first [apply sound_load_everything | apply sound_run])
      end.
      destruct (Hsound _ _ _ Hrest) as (Htrace & Hexn & _). done.
    + intros [= <- <-]. right. split; [done|]. exists st1, (Raise e).
      split; [done|]. left. by exists e.
  - intros [= <- <-]. by left.
Qed.

(** C5.  In a process that does not spawn workers (its [n_devices] is
    given, or at most one device is detected), and in every spawned
    worker: if [g_accum_gradients % world_size] is not zero, [main] raises
    the assertion error of line 61 with the state untouched, before any
    file, device or process group is touched; if the remainder is zero, in
    particular for a world size of 1, 2, 4 or 8 and a multiple of it, the
    run never ends with that error. *)
Theorem accumulation_must_divide (w : World) (a : Args) (st : State) (n : Z) :
  n_devices a = Some n \/ (n_devices a = None /\ device_count w = n /\ n <= 1) ->
  let world_size := Z.max 1 n in
  let g := default world_size (g_accum_gradients a) in
  (g mod world_size <> 0 -> main w a st = (st, Raise (AssertionError 61))) /\
  (g mod world_size = 0 -> (main w a st).2 <> Raise (AssertionError 61)) /\
  (world_size ∈ [1; 2; 4; 8] -> forall k, g = k * world_size ->
   (main w a st).2 <> Raise (AssertionError 61)) /\
  (forall i, n_devices a = Some n -> g mod world_size <> 0 ->
   _main_mp w i a st = (st, Raise (AssertionError 61))).
Proof.
  intros Hn ws g.
  assert (forall i, n_devices a = Some n -> g mod ws <> 0 ->
            _main_mp w i a st = (st, Raise (AssertionError 61))) as Hspawned.
  { intros i Hsome Hdiv. unfold _main_mp, main. cbn [with_device_id n_devices].
    rewrite Hsome.
    destruct (main_worker w (with_device_id a (Some i)) n st) as [st' r] eqn:Hrun.
    apply main_worker_inv in Hrun. cbn [with_device_id g_accum_gradients] in Hrun.
    fold ws g in Hrun. destruct Hrun as [(_ & -> & ->) | (Hd & _)]; done. }
  assert (main w a st = main_worker w a n st) as ->.
  { unfold main. destruct Hn as [-> | (-> & -> & Hle)]; [done|].
    by destruct (Z.ltb_spec 1 n); [lia|]. }
  assert (g mod ws = 0 -> (main_worker w a n st).2 <> Raise (AssertionError 61))
    as Hpass.
  { intros Hdiv. destruct (main_worker w a n st) as [st' r] eqn:Hrun.
    apply main_worker_inv in Hrun. fold ws g in Hrun. simpl. intros ->.
    destruct Hrun as [(Hnd & _) | (_ & st1 & r1 & Hdir & Hrest)]; [done|].
    destruct Hrest as [(e & -> & _ & [= <-]) | (_ & _ & Hexn)].
    - apply prepare_run_dir_inv in Hdir as [([= ] & _) | ([= ] & _)].
    - by apply (Hexn (AssertionError 61)). }
  split_and!.
  - intros Hdiv. destruct (main_worker w a n st) as [st' r] eqn:Hrun.
    apply main_worker_inv in Hrun. fold ws g in Hrun.
    destruct Hrun as [(_ & -> & ->) | (Hd & _)]; done.
  - done.
  - intros _ k Hk. apply Hpass. assert (ws <> 0) by (subst ws; lia).
    rewrite Hk. by apply Z.mod_mul.
  - done.
Qed.

Lemma accumulation_must_divide_demo :
  main demo_world demo_args_uneven (boot ∅ None)
    = (boot ∅ None, Raise (AssertionError 61)) /\
  (main demo_world demo_args (boot ∅ None)).2 <> Raise (AssertionError 61).
Proof.
  split.
  - apply (accumulation_must_divide demo_world demo_args_uneven (boot ∅ None) 2
             (or_introl eq_refl)).
    vm_compute. discriminate.
  - refine (proj1 (proj2 (proj2 (accumulation_must_divide demo_world demo_args
                                   (boot ∅ None) 1 (or_introl eq_refl)))) _ 1 eq_refl).
    apply list_elem_of_here.
Defined.

(** C9.  On the primary, with the clean flag set and the run directory
    present: without the marker [.lm] inside it, preparing the directory
    raises the assertion error of line 70 and leaves everything as it was;
    with the marker, the tree is removed, then the directory and the
    marker are created again.  And in a whole run of [main], any
    [shutil.rmtree] call is on the run directory and was preceded by the
    marker being found in it. *)
Theorem clean_needs_marker (w : World) (a : Args) (files : gmap path node)
    (signal : option nat) :
  primary a = true ->
  clean a = true ->
  Path.exists_ (run_path a) files = true ->
  (Path.exists_ (Path.join (run_path a) ".lm") files = false ->
   prepare_run_dir a (boot files signal)
     = (boot files signal, Raise (AssertionError 70))) /\
  (Path.exists_ (Path.join (run_path a) ".lm") files = true ->
   exists st1,
     prepare_run_dir a (boot files signal) = (st1, Ok tt) /\
     trace st1 = [EvRmtree (run_path a); EvMkdir (run_path a);
                  EvTouch (Path.join (run_path a) ".lm")] /\
     fs st1 = Path.touch (Path.join (run_path a) ".lm")
                (Path.mkdir (run_path a) (Path.rmtree (run_path a) files))) /\
  (forall st' r p,
     main w a (boot files signal) = (st', r) ->
     EvRmtree p ∈ trace st' ->
     p = run_path a /\
     Path.exists_ (Path.join (run_path a) ".lm") files = true).
Proof.
  intros Hprimary Hclean Hrun. split_and!.
  - intros Hmark. apply prepare_run_dir_refuse; [done | | done].
    simpl. by rewrite Hclean, Hrun.
  - intros Hmark. rewrite prepare_run_dir_clean; [| done | | done].
    + by eexists.
    + simpl. by rewrite Hclean, Hrun.
  - intros st' r p Hmain Hin. unfold main in Hmain.
    assert (forall n, main_worker w a n (boot files signal) = (st', r) ->
              p = run_path a /\
              Path.exists_ (Path.join (run_path a) ".lm") files = true) as Hworker.
    { intros n Hw. apply main_worker_inv in Hw.
      destruct Hw as [(_ & -> & _) | (_ & st1 & r1 & Hdir & Hrest)].
      - by apply elem_of_nil in Hin.
      - apply prepare_run_dir_inv in Hdir.
        destruct Hdir as [(-> & -> & _) | (-> & _ & evs1 & Htr1 & _ & Hrm)].
        + destruct Hrest as [(e & _ & -> & _) | ([= ] & _)].
          by apply elem_of_nil in Hin.
        + destruct Hrest as [(e & [= ] & _) | (_ & (evs & Htr & Hlate) & _)].
          rewrite Htr, Htr1 in Hin. simpl in Hin.
          apply elem_of_app in Hin as [Hin|Hin].
          * destruct (Hrm p Hin) as (-> & _ & _ & _ & Hmark). done.
          * rewrite Forall_forall in Hlate. by apply Hlate in Hin. }
    destruct (n_devices a) as [n|]; [by eapply Hworker|].
    destruct (1 <? device_count w); [|by eapply Hworker].
    injection Hmain as <- <-. simpl in Hin.
    rewrite elem_of_cons, elem_of_nil in Hin. by destruct Hin.
Qed.

Lemma clean_needs_marker_demo :
  prepare_run_dir demo_args_clean (boot demo_foreign_files None)
    = (boot demo_foreign_files None, Raise (AssertionError 70)) /\
  (exists st1,
     prepare_run_dir demo_args_clean (boot demo_run_files None) = (st1, Ok tt) /\
     fs st1 !! ["run"%string; "model.pt"%string] = None).
Proof.
  split.
  - apply (clean_needs_marker demo_world demo_args_clean demo_foreign_files None
             eq_refl eq_refl eq_refl).
    reflexivity.
  - destruct (clean_needs_marker demo_world demo_args_clean demo_run_files None
                eq_refl eq_refl eq_refl) as (_ & Hclean & _).
    destruct (Hclean eq_refl) as (st1 & Hrun & _ & Hfs).
    exists st1. split; [exact Hrun|]. rewrite Hfs. reflexivity.
Defined.

Lemma run_validate_only env st :
  only_validate (args env) = true ->
  run env st =
    (mkState (fs st)
       (trace st ++ (if is_main env
                     then [EvPrint "Validation loss: {validate():.4f}"] else []))
       (step st) (updates st) (loss_meter st) (sigint st),
     Ok tt).
Proof.
  intros Honly. unfold run. rewrite Honly. destruct (is_main env); [done|].
  rewrite app_nil_r. by destruct st.
Qed.

(** C8, what the code does.  In validate-only mode [main] never calls the
    validation runner: no evaluation-mode switch, no forward pass over a
    validation batch and no [valid_loss] event occurs, and no optimizer
    update either; a primary that completes ends by printing the literal
    text "Validation loss: {validate():.4f}" (line 219 is not an
    f-string). *)
Theorem validate_only_never_validates (w : World) (a : Args)
    (files : gmap path node) (signal : option nat) :
  only_validate a = true ->
  exists st' r,
    main w a (boot files signal) = (st', r) /\
    count is_validation (trace st') = O /\
    count is_update (trace st') = O /\
    (r = Ok tt -> primary a = true ->
     (n_devices a = None -> device_count w <= 1) ->
     last (trace st') = Some (EvPrint "Validation loss: {validate():.4f}")).
Proof.
  intros Honly.
  assert (forall n, exists st' r,
             main_worker w a n (boot files signal) = (st', r) /\
             count is_validation (trace st') = O /\
             count is_update (trace st') = O /\
             (r = Ok tt -> primary a = true ->
              last (trace st') = Some (EvPrint "Validation loss: {validate():.4f}")))
    as Hworker.
  { intros n. set (ws := Z.max 1 n). set (g := default ws (g_accum_gradients a)).
    assert (ws <> 0) as Hws by (subst ws; lia).
    unfold main_worker. cbv zeta. fold ws. fold g.
    rewrite bind_lift_mod by done. unfold assert_.
    destruct (g mod ws =? 0); [|by eexists _, _].
    exec. rewrite (bind_lift_ok _ _ _ _ (floordiv_ok _ _ Hws)).
    rewrite bind_run.
    destruct (prepare_run_dir a (boot files signal)) as [st1 r1] eqn:Hdir.
    apply prepare_run_dir_inv in Hdir.
    destruct Hdir as [(-> & -> & _) | (-> & _ & evs1 & Htr1 & Hevs1 & _)];
      [by eexists _, _|].
    destruct (load_everything_spec w a ws st1)
      as (st2 & evs2 & Hrun2 & Htr2 & Hevs2 & _).
    rewrite (bind_ok _ _ _ _ _ Hrun2). exec.
    assert (count is_validation (trace st2) = O /\ count is_update (trace st2) = O)
      as [Hv2 Hu2].
    { rewrite Htr2, Htr1. simpl. rewrite !count_app.
      rewrite !(count_none _ evs1), !(count_none _ evs2); [done | | | |];
        (eapply Forall_impl; [done|]); by intros e [? ?]. }
    unfold Py.floordiv. destruct (_ =? 0); [by eexists _, _|].
    rewrite bind_lift_ok with (a := Z.of_nat (length (train_dataset w)) / (n_ctx a * batch_size a * g)) by done.
    rewrite run_validate_only by done. cbn [is_main fs trace step updates loss_meter sigint].
    eexists _, _. split; [reflexivity|]. cbn [trace].
    destruct (primary a).
    - rewrite !count_app, Hv2, Hu2. split_and!; [done..|].
      intros _ _. by rewrite last_snoc.
    - rewrite app_nil_r. by split_and!. }
  unfold main. destruct (n_devices a) as [n|].
  - destruct (Hworker n) as (st' & r & Hrun & Hv & Hu & Hlast).
    exists st', r. split_and!; auto.
  - destruct (Z.ltb_spec 1 (device_count w)).
    + eexists _, _. split; [reflexivity|]. split_and!; [done..|].
      intros _ _ Hfew. specialize (Hfew eq_refl). lia.
    + destruct (Hworker (device_count w)) as (st' & r & Hrun & Hv & Hu & Hlast).
      exists st', r. split_and!; auto.
Qed.

Lemma validate_only_never_validates_demo :
  exists st',
    main demo_world demo_args_validate (boot ∅ None) = (st', Ok tt) /\
    count is_validation (trace st') = O /\
    last (trace st') = Some (EvPrint "Validation loss: {validate():.4f}").
Proof.
  destruct (validate_only_never_validates demo_world demo_args_validate ∅ None eq_refl)
    as (st' & r & Hrun & Hv & _ & Hlast).
  assert (r = Ok tt) as ->.
  { assert ((main demo_world demo_args_validate (boot ∅ None)).2 = Ok tt) as H
      by (vm_compute; reflexivity).
    rewrite Hrun in H. exact H. }
  exists st'. split_and!; [exact Hrun | exact Hv |].
  apply Hlast; [reflexivity | reflexivity | discriminate].
Defined.

Lemma batch_it_from_shape {A : Type} (batch it : list A) (bs : Z) :
  Z.of_nat (length batch) < bs ->
  exists full rest,
    _batch_it_from batch it bs = full ++ [rest] /\
    Forall (fun b => Z.of_nat (length b) = bs) full /\
    Z.of_nat (length rest) < bs /\
    Z.of_nat (length full) = (Z.of_nat (length batch) + Z.of_nat (length it)) / bs /\
    Z.of_nat (length rest) = (Z.of_nat (length batch) + Z.of_nat (length it)) mod bs.
Proof.
  revert batch. induction it as [|x it IH]; intros batch Hlt.
  - exists [], batch. simpl. rewrite Z.add_0_r.
    rewrite Z.div_small, Z.mod_small by lia. by split_and!.
  - simpl. destruct (Z.eqb_spec (Z.of_nat (length (batch ++ [x]))) bs) as [Heq|Hne].
    + destruct (IH []) as (full & rest & Hrun & Hfull & Hrest & Hn & Hr);
        [simpl; lia|].
      exists ((batch ++ [x]) :: full), rest. rewrite Hrun.
      rewrite length_app in Heq. cbn [length app] in *.
      replace (Z.of_nat (length batch) + Z.of_nat (S (length it)))
        with (Z.of_nat (length it) + 1 * bs) by lia.
      rewrite Z.div_add, Z.mod_add by lia.
      change (Z.of_nat 0) with 0 in Hn, Hr. rewrite Z.add_0_l in Hn, Hr.
      split_and!; [done | | done | lia | done].
      constructor; [|done]. rewrite length_app. cbn [length]. lia.
    + rewrite length_app in Hne. cbn [length] in Hne.
      destruct (IH (batch ++ [x])) as (full & rest & Hrun & Hfull & Hrest & Hn & Hr).
      { rewrite length_app. cbn [length]. lia. }
      exists full, rest. rewrite length_app in Hn, Hr. cbn [length] in *.
      replace (Z.of_nat (length batch) + Z.of_nat (S (length it)))
        with (Z.of_nat (length batch + 1) + Z.of_nat (length it)) by lia.
      by split_and!.
Qed.

(** When the batch size divides the number of items, or there is no item,
    the batches are full ones followed by an empty one. *)
Lemma batch_it_ends_empty {A : Type} (it : list A) (bs : Z) :
  length it = O \/
    (0 < bs /\ exists k, 0 < k /\ Z.of_nat (length it) = k * bs) ->
  exists full, _batch_it it bs = full ++ [[]] /\ [] ∉ full.
Proof.
  intros [Hnil | (Hbs & k & Hk & Hlen)].
  - destruct it; [|done]. exists []. split; [done | apply not_elem_of_nil].
  - destruct (batch_it_from_shape [] it bs) as (full & rest & Hrun & Hfull & _ & _ & Hr);
      [simpl; lia|].
    change (Z.of_nat (length (@nil A))) with 0 in Hr.
    rewrite Z.add_0_l, Hlen, Z.mod_mul in Hr by lia.
    destruct rest; [|done]. exists full. split; [done|].
    intros Hin. rewrite Forall_forall in Hfull. apply Hfull in Hin. simpl in Hin. lia.
Qed.

(** Otherwise, for a positive batch size, no batch is empty. *)
Lemma batch_it_all_nonempty {A : Type} (it : list A) (bs : Z) :
  0 < bs -> Z.of_nat (length it) mod bs <> 0 -> [] ∉ _batch_it it bs.
Proof.
  intros Hbs Hmod.
  destruct (batch_it_from_shape [] it bs) as (full & rest & Hrun & Hfull & _ & _ & Hr);
    [simpl; lia|].
  unfold _batch_it. rewrite Hrun.
  change (Z.of_nat (length (@nil A))) with 0 in Hr. rewrite Z.add_0_l in Hr.
  intros [Hin | Hin%list_elem_of_singleton]%elem_of_app.
  - rewrite Forall_forall in Hfull. apply Hfull in Hin. simpl in Hin. lia.
  - subst rest. simpl in Hr. lia.
Qed.

Lemma get_valid_loss_spec env st batches :
  sigint st = None ->
  _valid_batch_iter (valid_dataset (world env)) (batch_size (args env))
    (n_ctx (args env)) = Ok batches ->
  [] ∉ batches ->
  exists v,
    AverageMeter.mean
      (AverageMeter.Build (map (valid_loss (world env) (updates st)) batches)) = Ok v /\
    get_valid_loss env st =
      (mkState (fs st)
         (trace st ++ [EvEvalMode] ++ map EvForward batches ++ [EvTrainMode])
         (step st) (updates st) (loss_meter st) None,
       Ok v).
Proof.
  intros Hsig Hb Hne.
  destruct (mean_nonempty (map (valid_loss (world env) (updates st)) batches)) as [v Hv].
  { intros Hnil%map_eq_nil. by apply valid_batch_iter_nonempty in Hb. }
  exists v. split; [done|]. unfold get_valid_loss. exec. rewrite Hb. exec.
  match goal with
  | |- context [(valid_loop env batches _ ≫= _) ?s] =>
      rewrite (bind_ok _ _ _ _ _ (valid_loop_spec env batches AverageMeter.init s Hsig Hne))
  end.
  exec. cbn [AverageMeter.init AverageMeter.values app]. rewrite Hv.
  unfold lift. by rewrite <- !app_assoc.
Qed.

(** A validation pass that meets a batch without windows: the model is
    called on it and the pass fails there, before [model.train()]. *)
Lemma get_valid_loss_empty env st full rest :
  sigint st = None ->
  _valid_batch_iter (valid_dataset (world env)) (batch_size (args env))
    (n_ctx (args env)) = Ok (full ++ [] :: rest) ->
  [] ∉ full ->
  get_valid_loss env st =
    (mkState (fs st)
       (trace st ++ [EvEvalMode] ++ map EvForward (full ++ [[]]))
       (step st) (updates st) (loss_meter st) None,
     Raise IndexError).
Proof.
  intros Hsig Hb Hne. unfold get_valid_loss. exec. rewrite Hb. exec.
  match goal with
  | |- context [(valid_loop env _ _ ≫= _) ?s] =>
      pose proof (valid_loop_empty env full rest AverageMeter.init s Hsig Hne) as Hloop
  end.
  rewrite bind_run, Hloop. cbn [fs trace step updates loss_meter sigint].
  by rewrite <- !app_assoc.
Qed.

(** A corpus no longer than a context has no window at all. *)
Lemma valid_windows_short (d : list Z) (C : Z) :
  0 < C -> Z.of_nat (length d) <= C -> valid_windows d C = Ok [].
Proof.
  intros HC HL. rewrite valid_windows_spec by done.
  replace (n_windows (Z.of_nat (length d)) C) with O; [done|].
  unfold n_windows.
  destruct (Z.eq_dec (Z.of_nat (length d)) 0) as [->|].
  - assert ((0 - 1) / C < 0) by (apply Z.div_lt_upper_bound; lia). lia.
  - rewrite Z.div_small; lia.
Qed.

(** C10.  When the number of validation windows is zero or a positive
    multiple of the batch size, which includes every corpus no longer than
    a context, the last batch [_batch_it] yields is empty, and an
    uninterrupted [get_valid_loss()] receives it: the model is run on every
    batch yielded, the empty one last.  The pass then fails on that batch
    ([IndexError]), so that no loss is returned and the model is left in
    evaluation mode. *)
Theorem final_batch_is_empty (env : Env) (st : State) (windows : list (list Z)) :
  sigint st = None ->
  valid_windows (valid_dataset (world env)) (n_ctx (args env)) = Ok windows ->
  length windows = O \/
    (0 < batch_size (args env) /\
     exists k, 0 < k /\ Z.of_nat (length windows) = k * batch_size (args env)) ->
  (0 < n_ctx (args env) ->
   Z.of_nat (length (valid_dataset (world env))) <= n_ctx (args env) ->
   windows = []) /\
  last (_batch_it windows (batch_size (args env))) = Some [] /\
  exists st',
    get_valid_loss env st = (st', Raise IndexError) /\
    trace st' =
      trace st ++ [EvEvalMode]
      ++ map EvForward (_batch_it windows (batch_size (args env))) /\
    last (trace st') = Some (EvForward []) /\
    EvForward [] ∈ trace st'.
Proof.
  intros Hsig Hw Hmult.
  destruct (batch_it_ends_empty windows (batch_size (args env)) Hmult)
    as (full & Hshape & Hne).
  split.
  { intros HC HL. rewrite valid_windows_short in Hw by done. by injection Hw. }
  split; [by rewrite Hshape, last_snoc|].
  eexists. split.
  { apply (get_valid_loss_empty env st full []); [done | | done].
    unfold _valid_batch_iter. rewrite Hw. simpl. by rewrite Hshape. }
  cbn [trace]. rewrite Hshape, map_app. cbn [map].
  split_and!; [done | |].
  - rewrite !app_assoc. apply last_snoc.
  - rewrite !app_assoc. apply elem_of_app. right. by apply list_elem_of_singleton.
Qed.

Lemma final_batch_is_empty_demo :
  last (_batch_it [[0; 1; 2; 3]; [4; 5; 6; 7]] 2) = Some [] /\
  exists st',
    get_valid_loss demo_env (boot ∅ None) = (st', Raise IndexError) /\
    last (trace st') = Some (EvForward []).
Proof.
  destruct (final_batch_is_empty demo_env (boot ∅ None) [[0; 1; 2; 3]; [4; 5; 6; 7]]
              eq_refl eq_refl)
    as (_ & Hlast & st' & Hrun & _ & Hend & _).
  { right. split; [reflexivity|]. exists 1. split; reflexivity. }
  split; [exact Hlast|]. exists st'. split; [exact Hrun | exact Hend].
Defined.

Lemma n_windows_claimed (L C : Z) :
  0 < C -> 0 <= L ->
  Z.of_nat (n_windows L C) =
    (L - C) / C + 1 - (if (0 <? L) && (L mod C =? 0) then 1 else 0).
Proof.
  intros HC HL. unfold n_windows.
  replace (L - C) with (L + (-1) * C) by lia. rewrite Z.div_add by lia.
  pose proof (Z.div_mod L C ltac:(lia)) as Hdm.
  pose proof (Z.mod_pos_bound L C HC) as Hr.
  assert (0 <= L / C) as Hq by (apply Z.div_pos; lia).
  destruct (Z.ltb_spec 0 L) as [Hpos|Hzero]; simpl.
  - destruct (Z.eqb_spec (L mod C) 0) as [H0|Hne].
    + assert ((L - 1) / C = L / C - 1) as ->.
      { symmetry. apply (Z.div_unique_pos _ _ _ (C - 1)); lia. }
      lia.
    + assert ((L - 1) / C = L / C) as ->.
      { symmetry. apply (Z.div_unique_pos _ _ _ (L mod C - 1)); lia. }
      lia.
  - assert (L = 0) as -> by lia.
    assert ((0 - 1) / C < 0) by (apply Z.div_lt_upper_bound; lia).
    rewrite Z.div_0_l by lia. lia.
Qed.

(** C2, as amended.  For a context length [C > 0] and a corpus of [L]
    tokens, the batches of the validation iterator, put end to end, are
    the windows starting at 0, C, 2C, ... in that order, each once and each
    of exactly [C] tokens; together they are the first [n * C] tokens of
    the corpus, where [n = floor((L - 1) / C)] for a non-empty corpus.
    That is [floor((L - C) / C + 1)] windows unless [C] divides a non-empty
    [L], in which case it is one window less: a window must start strictly
    before [L - C]. *)
Theorem valid_iter_partition (d : list Z) (bs C : Z) :
  0 < C ->
  let L := Z.of_nat (length d) in
  let n := n_windows L C in
  exists batches,
    _valid_batch_iter d bs C = Ok batches /\
    concat batches =
      map (fun k : nat => take (Z.to_nat C) (drop (k * Z.to_nat C) d)) (seq 0 n) /\
    Forall (fun w => Z.of_nat (length w) = C) (concat batches) /\
    concat (concat batches) = take (n * Z.to_nat C) d /\
    Z.of_nat (length (concat (concat batches))) = C * Z.of_nat n /\
    Z.of_nat n = (L - C) / C + 1 - (if (0 <? L) && (L mod C =? 0) then 1 else 0).
Proof.
  intros HC L n.
  assert (n * Z.to_nat C <= length d)%nat as Hfit.
  { destruct (Z.eq_dec L 0) as [H0|Hne].
    - subst n. rewrite H0. unfold n_windows.
      assert ((0 - 1) / C < 0) by (apply Z.div_lt_upper_bound; lia).
      replace (Z.to_nat ((0 - 1) / C)) with O by lia. lia.
    - pose proof (n_windows_bound L C HC ltac:(lia)). fold n in H. nia. }
  exists (_batch_it
            (map (fun k : nat => take (Z.to_nat C) (drop (k * Z.to_nat C) d)) (seq 0 n))
            bs).
  assert (concat (_batch_it
            (map (fun k : nat => take (Z.to_nat C) (drop (k * Z.to_nat C) d)) (seq 0 n))
            bs)
          = map (fun k : nat => take (Z.to_nat C) (drop (k * Z.to_nat C) d)) (seq 0 n))
    as Hconcat by apply batch_it_from_concat.
  split_and!.
  - unfold _valid_batch_iter. by rewrite valid_windows_spec.
  - done.
  - rewrite Hconcat. apply Forall_forall.
    intros w (k & -> & Hk%list_elem_of_In%in_seq)%list_elem_of_fmap.
    rewrite length_take, length_drop. nia.
  - rewrite Hconcat. by apply windows_concat.
  - rewrite Hconcat, windows_concat by done. rewrite length_take. lia.
  - apply n_windows_claimed; lia.
Qed.

Lemma valid_iter_partition_demo :
  exists batches,
    _valid_batch_iter [1; 2; 3; 4; 5] 2 2 = Ok batches /\
    concat (concat batches) = [1; 2; 3; 4].
Proof.
  destruct (valid_iter_partition [1; 2; 3; 4; 5] 2 2 ltac:(lia))
    as (batches & Hrun & _ & _ & Hcover & _).
  exists batches. split; [exact Hrun | exact Hcover].
Defined.

Lemma valid_iter_skips_last_context :
  exists batches,
    _valid_batch_iter [1; 2; 3; 4] 1 2 = Ok batches /\
    concat batches = [[1; 2]] /\
    Z.of_nat (length (concat (concat batches)))
      <> 2 * ((Z.of_nat (length [1; 2; 3; 4]) - 2) / 2 + 1).
Proof. exists [[[1; 2]]; []]. split_and!; [reflexivity | reflexivity | by vm_compute]. Qed.

Lemma gen_training_batch_uniform_demo :
  exists offsets : list (list Z),
    length (_gen_training_batch [1; 2; 3; 4] 2 2) = length offsets /\
    NoDup offsets /\
    forall v, v ∈ offsets <-> length v = 2%nat /\ Forall (fun i => 0 <= i < 2) v.
Proof.
  destruct (gen_training_batch_uniform [1; 2; 3; 4] 2 2 ltac:(lia) ltac:(simpl; lia))
    as (offsets & Hrun & Hnd & Hin & _).
  exists offsets. split_and!; [by rewrite Hrun, length_map | exact Hnd | exact Hin].
Defined.

Lemma budget_of_three_steps_demo :
  exists st',
    main demo_world_ragged demo_args (boot ∅ None) = (st', Ok tt) /\
    step st' = 3 /\ updates st' = 2%nat.
Proof.
  destruct (budget_of_three_steps_stops_after_two demo_world_ragged demo_args 1 ∅
              (or_introl eq_refl) eq_refl eq_refl eq_refl eq_refl eq_refl eq_refl
              ltac:(vm_compute; discriminate) ltac:(vm_compute; discriminate)
              ltac:(vm_compute; discriminate) ltac:(vm_compute; discriminate)
              ltac:(vm_compute; discriminate)
              ltac:(intros k ctx; simpl; discriminate)
              ltac:(intros batches [= <-]; apply (bool_decide_unpack _);
                    vm_compute; exact I)
              ltac:(intros q c _; by rewrite lookup_empty))
    as (st' & pre & copies & batches & v & Hrun & _ & Hstep & Hupd & _).
  exists st'. split_and!; [exact Hrun | exact Hstep | exact Hupd].
Defined.

Lemma budget_of_three_steps_runs_two_updates :
  max_tokens demo_args
    = Some (3 * (n_ctx demo_args * batch_size demo_args * 1)) /\
  ([] ∉ [[[0; 1; 2; 3]; [4; 5; 6; 7]]; [[8; 9; 10; 11]]]) /\
  _valid_batch_iter (valid_dataset demo_world_ragged) (batch_size demo_args)
    (n_ctx demo_args) = Ok [[[0; 1; 2; 3]; [4; 5; 6; 7]]; [[8; 9; 10; 11]]] /\
  exists st',
    main demo_world_ragged demo_args (boot ∅ None) = (st', Ok tt) /\
    exit_status (main demo_world_ragged demo_args (boot ∅ None)).2 = 0 /\
    updates st' = 2%nat /\
    count is_update (trace st') = 2%nat /\
    count is_update (trace st') <> 3%nat.
Proof.
  split; [reflexivity|].
  split; [apply (bool_decide_unpack _); by vm_compute|].
  split; [reflexivity|].
  exists (main demo_world_ragged demo_args (boot ∅ None)).1.
  split_and!; by vm_compute.
Qed.

(** * Further properties of the code *)

(** ** More on batching *)

(** X1.  For a positive batch size [bs], [_batch_it] yields
    [len(it) // bs] batches of exactly [bs] items followed by one last batch
    of the [len(it) % bs] items that remain (none when [bs] divides the
    length); put end to end the batches are the input, in order. *)
Theorem batch_it_shape {A : Type} (it : list A) (bs : Z) :
  0 < bs ->
  exists full rest,
    _batch_it it bs = full ++ [rest] /\
    Forall (fun b => Z.of_nat (length b) = bs) full /\
    Z.of_nat (length rest) < bs /\
    concat full ++ rest = it /\
    Z.of_nat (length full) = Z.of_nat (length it) / bs /\
    Z.of_nat (length rest) = Z.of_nat (length it) mod bs.
Proof.
  intros Hbs.
  destruct (batch_it_from_shape [] it bs) as (full & rest & Hrun & Hfull & Hrest & Hn & Hr);
    [simpl; lia|].
  exists full, rest. unfold _batch_it. split_and!; try done.
  pose proof (batch_it_from_concat [] it bs) as Hc.
  rewrite Hrun, concat_app in Hc. simpl in Hc. by rewrite app_nil_r in Hc.
Qed.

Lemma batch_it_shape_demo :
  exists full rest,
    _batch_it [1; 2; 3; 4; 5] 2 = full ++ [rest] /\
    Z.of_nat (length full) = 2 /\ Z.of_nat (length rest) = 1.
Proof.
  destruct (batch_it_shape [1; 2; 3; 4; 5] 2 ltac:(lia))
    as (full & rest & Hrun & _ & _ & _ & Hn & Hr).
  exists full, rest. split_and!; [exact Hrun | exact Hn | exact Hr].
Defined.

Lemma batch_it_from_single {A : Type} (batch it : list A) (bs : Z) :
  bs <= 0 \/ Z.of_nat (length batch) + Z.of_nat (length it) < bs ->
  _batch_it_from batch it bs = [batch ++ it].
Proof.
  revert batch. induction it as [|x it IH]; intros batch Hbs; simpl.
  - by rewrite app_nil_r.
  - destruct (Z.eqb_spec (Z.of_nat (length (batch ++ [x]))) bs) as [Heq|Hne].
    + rewrite length_app in Heq. simpl in *. lia.
    + rewrite IH; [by rewrite <- app_assoc|].
      rewrite length_app. simpl in *. lia.
Qed.

(** X2.  When the batch size is zero or negative, or larger than the
    number of items, [_batch_it] yields a single batch holding every item:
    the test [len(batch) == batch_size] never succeeds. *)
Theorem batch_it_single_batch {A : Type} (it : list A) (bs : Z) :
  bs <= 0 \/ Z.of_nat (length it) < bs ->
  _batch_it it bs = [it].
Proof. intros Hbs. unfold _batch_it. rewrite batch_it_from_single; [done|]. simpl. lia. Qed.

Lemma batch_it_single_batch_demo :
  _batch_it [1; 2; 3] 0 = [[1; 2; 3]] /\ _batch_it [1; 2; 3] 4 = [[1; 2; 3]].
Proof.
  split.
  - apply (batch_it_single_batch [1; 2; 3] 0). left. lia.
  - apply (batch_it_single_batch [1; 2; 3] 4). right. simpl. lia.
Defined.

(** ** Degenerate context lengths *)

(** X3.  A context length of zero makes [_valid_batch_iter] raise
    [ValueError] (a [range] with step 0); a negative one, or a positive one
    that the corpus does not exceed, gives no window at all, and the
    iterator yields just one empty batch. *)
Theorem valid_batch_iter_degenerate (d : list Z) (bs C : Z) :
  _valid_batch_iter d bs 0 = Raise ValueError /\
  (C < 0 \/ (0 < C /\ Z.of_nat (length d) <= C) -> _valid_batch_iter d bs C = Ok [[]]).
Proof.
  split; [done|]. intros [HC | [HC HL]].
  - unfold _valid_batch_iter, valid_windows, Py.range, Py.range_len.
    destruct (Z.eqb_spec C 0); [lia|].
    destruct (Z.ltb_spec 0 C); [lia|].
    destruct (Z.ltb_spec (Z.of_nat (length d) - C) 0); [lia|]. done.
  - unfold _valid_batch_iter. by rewrite valid_windows_short.
Qed.

Lemma valid_batch_iter_degenerate_demo :
  _valid_batch_iter [1; 2; 3] 2 (-1) = Ok [[]] /\
  _valid_batch_iter [1; 2; 3] 2 3 = Ok [[]].
Proof.
  split.
  - apply (valid_batch_iter_degenerate [1; 2; 3] 2 (-1)). left. lia.
  - apply (valid_batch_iter_degenerate [1; 2; 3] 2 3). right. simpl. lia.
Defined.

(** X4.  On a corpus that is not longer than the context, drawing a
    training batch of at least one context raises [ValueError] (the bounds
    given to [randint] are empty), whatever would be drawn; with a batch
    size of zero or less nothing is drawn and the batch is empty. *)
Theorem gen_training_batch_degenerate (d : list Z) (C B : Z) :
  (0 < B -> Z.of_nat (length d) <= C ->
   _gen_training_batch d C B = [Raise ValueError]) /\
  (B <= 0 -> _gen_training_batch d C B = [Ok []]).
Proof.
  split.
  - intros HB HL. unfold _gen_training_batch, Rand.randint.
    destruct (Z.ltb_spec 0 (Z.of_nat (length d) - C)); [lia|].
    destruct (Z.to_nat B) as [|n] eqn:Hn; [lia|]. done.
  - intros HB. unfold _gen_training_batch.
    replace (Z.to_nat B) with O by lia. done.
Qed.

Lemma gen_training_batch_degenerate_demo :
  _gen_training_batch [1; 2] 2 1 = [Raise ValueError] /\
  _gen_training_batch [1; 2] 2 0 = [Ok []].
Proof.
  split.
  - apply (gen_training_batch_degenerate [1; 2] 2 1); [lia | simpl; lia].
  - apply (gen_training_batch_degenerate [1; 2] 2 0). lia.
Defined.

(** ** More on the running mean *)

Lemma sum_from (l : list Q) (acc : Q) :
  (fold_left Qplus l acc == acc + fold_left Qplus l 0)%Q.
Proof.
  revert acc. induction l as [|x l IH]; intros acc; simpl.
  - by rewrite Qplus_0_r.
  - rewrite (IH (acc + x)%Q), (IH (0 + x)%Q). rewrite Qplus_0_l. symmetry. apply Qplus_assoc.
Qed.

Lemma sum_bounds (l : list Q) (lo hi : Q) :
  Forall (fun x => (lo <= x)%Q /\ (x <= hi)%Q) l ->
  (lo * inject_Z (Z.of_nat (length l)) <= AverageMeter.sum l)%Q /\
  (AverageMeter.sum l <= hi * inject_Z (Z.of_nat (length l)))%Q.
Proof.
  unfold AverageMeter.sum. induction 1 as [|x l [Hlo Hhi] _ [IHlo IHhi]].
  - simpl. rewrite !Qmult_0_r. split; apply Qle_refl.
  - cbn [fold_left length]. rewrite sum_from, Qplus_0_l.
    rewrite Nat2Z.inj_succ. unfold Z.succ. rewrite inject_Z_plus.
    rewrite !Qmult_plus_distr_r, !Qmult_1_r.
    split.
    + rewrite (Qplus_comm (lo * _)). by apply Qplus_le_compat.
    + rewrite (Qplus_comm (hi * _)). by apply Qplus_le_compat.
Qed.

(** X5.  The mean of a meter that holds at least one observation exists
    and lies between any two bounds that enclose all its observations. *)
Theorem meter_mean_within_bounds (m : AverageMeter.t) (lo hi : Q) :
  AverageMeter.values m <> [] ->
  Forall (fun x => (lo <= x)%Q /\ (x <= hi)%Q) (AverageMeter.values m) ->
  exists q, AverageMeter.mean m = Ok q /\ (lo <= q)%Q /\ (q <= hi)%Q.
Proof.
  intros Hne Hall. unfold AverageMeter.mean.
  destruct (AverageMeter.values m) as [|x l] eqn:Hv; [done|].
  eexists. split; [reflexivity|].
  destruct (sum_bounds (x :: l) lo hi Hall) as [Hlo Hhi].
  assert (0 < inject_Z (Z.of_nat (length (x :: l))))%Q as Hpos.
  { change 0%Q with (inject_Z 0). rewrite <- Zlt_Qlt. simpl. lia. }
  split.
  - by apply Qle_shift_div_l.
  - by apply Qle_shift_div_r.
Qed.

Lemma meter_mean_within_bounds_demo :
  exists q,
    AverageMeter.mean (AverageMeter.Build [1%Q; 3%Q]) = Ok q /\
    (1 <= q)%Q /\ (q <= 3)%Q.
Proof.
  apply (meter_mean_within_bounds (AverageMeter.Build [1%Q; 3%Q]) 1 3).
  - discriminate.
  - repeat constructor; discriminate.
Defined.

(** ** Computations that follow a relation *)

Lemma bind_inv {A B : Type} (m : M A) (f : A -> M B) st st' r :
  (m ≫= f) st = (st', r) ->
  (exists e, m st = (st', Raise e) /\ r = Raise e) \/
  (exists a st1, m st = (st1, Ok a) /\ f a st1 = (st', r)).
Proof.
  rewrite bind_run. destruct (m st) as [st1 [a|e]].
  - intros H. right. by exists a, st1.
  - intros [= <- <-]. left. by exists e.
Qed.

Section Follows.
Context (Q : State -> State -> Prop) `{!Reflexive Q, !Transitive Q}.

Lemma follows_ret {A : Type} (a : A) : follows Q (mret a).
Proof. by intros st st' r [= <- <-]. Qed.

Lemma follows_bind {A B : Type} (m : M A) (f : A -> M B) :
  follows Q m -> (forall a, follows Q (f a)) -> follows Q (m ≫= f).
Proof.
  intros Hm Hf st st' r [(e & Hrun & _) | (a & st1 & Hrun & Hrest)]%bind_inv.
  - by eapply Hm.
  - etrans; [by eapply Hm | by eapply Hf].
Qed.

Lemma follows_get {A : Type} (proj : State -> A) : follows Q (get proj).
Proof. by intros st st' r [= <- <-]. Qed.

Lemma follows_lift {A : Type} (r : result A) : follows Q (lift r).
Proof. by intros st st' r' [= <- <-]. Qed.

Lemma follows_raise {A : Type} (e : exn) : follows Q (@raise A e).
Proof. by intros st st' r [= <- <-]. Qed.

Lemma follows_assert cond line : follows Q (assert_ cond line).
Proof. unfold assert_. destruct cond; [apply follows_ret | apply follows_raise]. Qed.

Lemma follows_emit (e : event) :
  (forall st, Q st (mkState (fs st) (trace st ++ [e]) (step st) (updates st)
                      (loss_meter st) (sigint st))) ->
  follows Q (emit e).
Proof. intros H st st' r [= <- <-]. apply H. Qed.

Lemma follows_modify_fs g :
  (forall st, Q st (mkState (g (fs st)) (trace st) (step st) (updates st)
                      (loss_meter st) (sigint st))) ->
  follows Q (modify_fs g).
Proof. intros H st st' r [= <- <-]. apply H. Qed.

Lemma follows_set_step s :
  (forall st, Q st (mkState (fs st) (trace st) s (updates st) (loss_meter st)
                      (sigint st))) ->
  follows Q (set_step s).
Proof. intros H st st' r [= <- <-]. apply H. Qed.

Lemma follows_set_updates u :
  (forall st, Q st (mkState (fs st) (trace st) (step st) u (loss_meter st)
                      (sigint st))) ->
  follows Q (set_updates u).
Proof. intros H st st' r [= <- <-]. apply H. Qed.

Lemma follows_set_loss_meter m :
  (forall st, Q st (mkState (fs st) (trace st) (step st) (updates st) m
                      (sigint st))) ->
  follows Q (set_loss_meter m).
Proof. intros H st st' r [= <- <-]. apply H. Qed.

Lemma follows_tick :
  (forall st sg, Q st (mkState (fs st) (trace st) (step st) (updates st)
                         (loss_meter st) sg)) ->
  follows Q tick.
Proof.
  intros H st st' r. unfold tick.
  destruct (sigint st) as [[|n]|]; intros [= <- <-]; [apply H | apply H | done].
Qed.

Lemma follows_except {A : Type} (body handler : M A) :
  follows Q body -> follows Q handler ->
  follows Q (except_KeyboardInterrupt body handler).
Proof.
  intros Hb Hh st st' r. unfold except_KeyboardInterrupt.
  destruct (body st) as [st1 r1] eqn:Hrun.
  assert (Q st st1) by (by eapply Hb).
  destruct r1 as [a|e]; [by intros [= <- <-]|].
  destruct e; try (by intros [= <- <-]).
  intros Hrun2. etrans; [done | by eapply Hh].
Qed.
End Follows.

Lemma follows_weaken (Q Q' : State -> State -> Prop) {A : Type} (m : M A) :
  (forall st st', Q st st' -> Q' st st') -> follows Q m -> follows Q' m.
Proof. intros Himpl Hm st st' r Hrun. by eapply Himpl, Hm. Qed.

(** One step of a proof that a computation follows a relation; [side]
    settles what a primitive does to the relation. *)
Ltac follows_step side :=
  lazymatch goal with
  | |- follows _ (mbind _ _) => apply follows_bind; [apply _ | | intros ?]
  | |- follows _ (mret _) => apply follows_ret; apply _
  | |- follows _ (get _) => apply follows_get; apply _
  | |- follows _ (lift _) => apply follows_lift; apply _
  | |- follows _ (raise _) => apply follows_raise; apply _
  | |- follows _ (assert_ _ _) => apply follows_assert; apply _
  | |- follows _ (emit _) => apply follows_emit; side
  | |- follows _ (modify_fs _) => apply follows_modify_fs; side
  | |- follows _ (set_step _) => apply follows_set_step; side
  | |- follows _ (set_updates _) => apply follows_set_updates; side
  | |- follows _ (set_loss_meter _) => apply follows_set_loss_meter; side
  | |- follows _ tick => apply follows_tick; side
  | |- follows _ (if ?b then _ else _) => destruct b
  end.

Ltac follows_auto side := repeat follows_step side.

(** ** Which files a run touches *)

#[global] Instance touches_only_refl K : Reflexive (touches_only K).
Proof. by intros st. Qed.

#[global] Instance touches_only_trans K : Transitive (touches_only K).
Proof.
  intros st1 st2 st3 [Hsame12 Hkeep12] [Hsame23 Hkeep23]. split.
  - intros p Hp. by rewrite Hsame23, Hsame12.
  - intros p Hp. by apply Hkeep23, Hkeep12.
Qed.

Lemma touches_copy (K : path -> Prop) (src dst : path) st :
  K dst ->
  touches_only K st
    (mkState (Path.copy src dst (fs st)) (trace st) (step st) (updates st)
       (loss_meter st) (sigint st)).
Proof.
  intros Hdst. unfold Path.copy. destruct (fs st !! src) as [n|]; [|done].
  split; simpl.
  - intros p Hp. apply lookup_insert_ne. by intros ->.
  - intros p Hp. rewrite lookup_insert. by case_decide.
Qed.

Lemma touches_write (K : path -> Prop) (p : path) (c : content) st :
  K p ->
  touches_only K st
    (mkState (Path.write p c (fs st)) (trace st) (step st) (updates st)
       (loss_meter st) (sigint st)).
Proof.
  intros Hp. unfold Path.write. split; simpl.
  - intros q Hq. apply lookup_insert_ne. by intros ->.
  - intros q Hq. rewrite lookup_insert. by case_decide.
Qed.

Ltac touches_side env :=
  first
    [ by intros; split
    | intros; apply touches_copy; cbv beta; unfold checkpoint_paths;
      rewrite !elem_of_cons; by auto
    | intros; apply touches_write; cbv beta; unfold checkpoint_paths;
      rewrite !elem_of_cons; by auto ].

Section Touches.
Context (env : Env).
Local Abbreviation K := (fun p : path => p ∈ checkpoint_paths env).

Lemma touches_save : follows (touches_only K) (save env).
Proof. unfold save, backup, torch_save. follows_auto ltac:(touches_side env). Qed.

Lemma touches_valid_loop batches losses :
  follows (touches_only K) (valid_loop env batches losses).
Proof.
  revert losses. induction batches as [|ctx batches IH]; intros losses; simpl;
    follows_auto ltac:(touches_side env). apply IH.
Qed.

Lemma touches_validate : follows (touches_only K) (validate env).
Proof.
  unfold validate, get_valid_loss. follows_auto ltac:(touches_side env).
  apply touches_valid_loop.
Qed.

Lemma touches_micro_batches losses : follows (touches_only K) (micro_batches losses).
Proof.
  induction losses as [|l losses IH]; simpl; follows_auto ltac:(touches_side env).
  apply IH.
Qed.

Lemma touches_train_step : follows (touches_only K) (train_step env).
Proof.
  unfold train_step. follows_auto ltac:(touches_side env). apply touches_micro_batches.
Qed.

Lemma touches_loop_body : follows (touches_only K) (loop_body env).
Proof.
  unfold loop_body. follows_auto ltac:(touches_side env);
    first [apply touches_save | apply touches_validate | apply touches_train_step].
Qed.

Lemma touches_epoch_loop n : follows (touches_only K) (epoch_loop env n).
Proof.
  induction n as [|n IH]; simpl; follows_auto ltac:(touches_side env);
    [apply touches_loop_body | apply IH].
Qed.

Lemma touches_epochs_loop n : follows (touches_only K) (epochs_loop env n).
Proof.
  induction n as [|n IH]; simpl; follows_auto ltac:(touches_side env);
    first [apply touches_epoch_loop | apply touches_save | apply touches_validate
          | apply IH].
Qed.

Lemma touches_run : follows (touches_only K) (run env).
Proof.
  unfold run. destruct (only_validate (args env)).
  - follows_auto ltac:(touches_side env).
  - apply follows_except; [apply _ .. | apply touches_epochs_loop |].
    unfold interrupted. follows_auto ltac:(touches_side env). apply touches_save.
Qed.
End Touches.

(** ** Which calls reach the file system *)

#[global] Instance adds_only_refl P : Reflexive (adds_only P).
Proof. intros st. exists []. by rewrite app_nil_r. Qed.

#[global] Instance adds_only_trans P : Transitive (adds_only P).
Proof.
  intros s1 s2 s3 (evs1 & Htr1 & Hall1) (evs2 & Htr2 & Hall2).
  exists (evs1 ++ evs2). rewrite Htr2, Htr1, app_assoc. split; [done|].
  by apply Forall_app.
Qed.


Section Calls.
Context (env : Env).









End Calls.



(** ** What [main] leaves alone *)

#[global] Instance spares_outside_refl dir : Reflexive (spares_outside dir).
Proof. by intros st p n. Qed.

#[global] Instance spares_outside_trans dir : Transitive (spares_outside dir).
Proof. intros st1 st2 st3 H12 H23 p n Hp Hout. apply H23; [|done]. by apply H12. Qed.

Lemma mkdir_keeps (q : path) (files : gmap path node) (p : path) (n : node) :
  files !! p = Some n -> Path.mkdir q files !! p = Some n.
Proof.
  intros Hp. unfold Path.mkdir.
  induction (seq 0 (length q)) as [|k ks IH]; simpl; [done|].
  destruct (foldr _ files ks !! take (S k) q) eqn:Hq; [done|].
  rewrite lookup_insert_ne; [done|]. intros <-. by rewrite Hq in IH.
Qed.

Lemma touch_keeps (q : path) (files : gmap path node) (p : path) (n : node) :
  files !! p = Some n -> Path.touch q files !! p = Some n.
Proof.
  intros Hp. unfold Path.touch. destruct (files !! q) eqn:Hq; [done|].
  rewrite lookup_insert_ne; [done|]. intros <-. by rewrite Hq in Hp.
Qed.

Lemma touch_exists (q : path) (files : gmap path node) :
  Path.exists_ q (Path.touch q files) = true.
Proof.
  unfold Path.exists_, Path.touch. apply bool_decide_eq_true.
  destruct (files !! q) eqn:Hq; [by rewrite Hq|]. by rewrite lookup_insert_eq.
Qed.

Lemma rmtree_spares (dir : path) (files : gmap path node) (p : path) (n : node) :
  files !! p = Some n -> ~ dir `prefix_of` p -> Path.rmtree dir files !! p = Some n.
Proof. intros Hp Hout. unfold Path.rmtree. by apply map_lookup_filter_Some. Qed.

Lemma join_under (dir : path) (name : string) : dir `prefix_of` Path.join dir name.
Proof. by exists [name]. Qed.

Lemma checkpoint_paths_under env (p : path) :
  p ∈ checkpoint_paths env -> run_path (args env) `prefix_of` p.
Proof.
  unfold checkpoint_paths, model_path, optim_path, prev_path.
  rewrite !elem_of_cons, elem_of_nil.
  intros [->|[->|[->|[->|[]]]]]; apply join_under.
Qed.

Lemma touches_under_spares (dir : path) st st' :
  touches_only (fun p => dir `prefix_of` p) st st' -> spares_outside dir st st'.
Proof. intros [Hsame _] p n Hp Hout. by rewrite Hsame. Qed.

Lemma touches_checkpoints_under env st st' :
  touches_only (fun p => p ∈ checkpoint_paths env) st st' ->
  touches_only (fun p => run_path (args env) `prefix_of` p) st st'.
Proof.
  intros [Hsame Hkeep]. split; [|done].
  intros p Hout. apply Hsame. intros Hin. by apply Hout, checkpoint_paths_under.
Qed.

Ltac under_side :=
  first
    [ by intros; split
    | intros; apply touches_write; apply join_under ].

Lemma touches_load_everything w a ws :
  follows (touches_only (fun p => run_path a `prefix_of` p)) (load_everything w a ws).
Proof.
  unfold load_everything. follows_auto under_side.
  destruct (device_id a); follows_auto under_side.
Qed.

(** The code of [main_worker] after the run directory is ready. *)
Lemma main_worker_tail w a n st st' r :
  main_worker w a n st = (st', r) ->
  (exists line, r = Raise (AssertionError line) /\ st' = st) \/
  (exists st1,
      prepare_run_dir a st = (st1, Ok tt) /\
      touches_only (fun p => run_path a `prefix_of` p) st1 st').
Proof.
  assert (Z.max 1 n <> 0) as Hws by lia.
  unfold main_worker. cbv zeta.
  rewrite bind_lift_mod by done. unfold assert_.
  destruct (_ =? 0); [|intros [= <- <-]; left; by eexists].
  exec. rewrite (bind_lift_ok _ _ _ _ (floordiv_ok _ _ Hws)).
  intros [(e & Hdir & ->) | ([] & st1 & Hdir & Hrest)]%bind_inv.
  - apply prepare_run_dir_inv in Hdir as [(-> & -> & _) | ([= ] & _)].
    left. by eexists.
  - right. exists st1. split; [done|].
    match type of Hrest with
    | ?m st1 = _ =>
        assert (follows (touches_only (fun p => run_path a `prefix_of` p)) m) as Hf
    end.
    { follows_auto under_side; [apply touches_load_everything|].
      eapply follows_weaken; [|apply touches_run].
      intros s1 s2. apply (touches_checkpoints_under (Build_Env _ _ _ _ _ _ _)). }
    by eapply Hf.
Qed.

Lemma prepare_run_dir_spares a : follows (spares_outside (run_path a)) (prepare_run_dir a).
Proof.
  intros st st1 r1 Hdir p n Hp Hout.
  destruct (primary a) eqn:Hprim;
    [|rewrite prepare_run_dir_secondary in Hdir by done; by injection Hdir as <- _].
  destruct (clean a && Path.exists_ (run_path a) (fs st)) eqn:Hc.
  - destruct (Path.exists_ (Path.join (run_path a) ".lm") (fs st)) eqn:Hmark.
    + rewrite prepare_run_dir_clean in Hdir by done. injection Hdir as <- _. simpl.
      by apply touch_keeps, mkdir_keeps, rmtree_spares.
    + rewrite prepare_run_dir_refuse in Hdir by done. by injection Hdir as <- _.
  - rewrite prepare_run_dir_keep in Hdir by done. injection Hdir as <- _. simpl.
    by apply touch_keeps, mkdir_keeps.
Qed.

(** X7.  Whatever its arguments, the interrupt and the way it ends,
    [main] leaves every file and directory that is not at or below
    [run_path] exactly as it found it, also when asked to clean. *)
Theorem main_spares_other_directories (w : World) (a : Args) (st st' : State)
    (r : result unit) (p : path) (n : node) :
  main w a st = (st', r) ->
  fs st !! p = Some n ->
  ~ run_path a `prefix_of` p ->
  fs st' !! p = Some n.
Proof.
  intros Hmain Hp Hout.
  assert (forall k, main_worker w a k st = (st', r) -> fs st' !! p = Some n) as Hworker.
  { intros k [(line & _ & ->) | (st1 & Hdir & Htail)]%main_worker_tail; [done|].
    apply touches_under_spares in Htail. apply (Htail p n); [|done].
    exact (prepare_run_dir_spares a _ _ _ Hdir p n Hp Hout). }
  unfold main in Hmain. destruct (n_devices a) as [k|]; [by eapply Hworker|].
  destruct (1 <? device_count w); [|by eapply Hworker].
  by injection Hmain as <- _.
Qed.

Lemma main_spares_other_directories_demo :
  fs (main demo_world demo_args_clean
        (boot (<[ ["home"%string; "notes.txt"%string] := File (Text "x") ]> demo_run_files)
           None)).1
    !! ["home"%string; "notes.txt"%string] = Some (File (Text "x")).
Proof.
  apply (main_spares_other_directories demo_world demo_args_clean _ _ _ _ _
           (surjective_pairing _)).
  - reflexivity.
  - apply (bool_decide_unpack _). by vm_compute.
Defined.

(** X8.  Without [clean], a process that knows its number of devices
    removes nothing: whatever its other arguments and however it ends,
    every file and directory that existed is still there, the marker [.lm]
    of a run directory among them. *)
Theorem nothing_is_removed_without_clean (w : World) (a : Args) (n : Z)
    (st st' : State) (r : result unit) (p : path) :
  clean a = false ->
  main_worker w a n st = (st', r) ->
  is_Some (fs st !! p) ->
  is_Some (fs st' !! p).
Proof.
  intros Hclean Hrun Hp.
  apply main_worker_tail in Hrun as [(line & _ & ->) | (st1 & Hdir & [_ Hkeep])];
    [done|].
  apply Hkeep. destruct (primary a) eqn:Hprim.
  - rewrite prepare_run_dir_keep in Hdir by (by rewrite ?Hclean). injection Hdir as <-.
    cbn [fs]. destruct Hp as [node Hp]. exists node. by apply touch_keeps, mkdir_keeps.
  - rewrite prepare_run_dir_secondary in Hdir by done. by injection Hdir as <-.
Qed.

Lemma nothing_is_removed_without_clean_demo :
  is_Some (fs (main_worker demo_world demo_args 1 (boot demo_run_files (Some 9%nat))).1
             !! ["run"%string; ".lm"%string]).
Proof.
  apply (nothing_is_removed_without_clean demo_world demo_args 1
           (boot demo_run_files (Some 9%nat)) _ _ _ eq_refl (surjective_pairing _)).
  eexists. reflexivity.
Defined.

(** ** Processes that are not the primary *)

#[global] Instance silent_refl : Reflexive silent.
Proof. intros st. split; [done|]. exists []. by rewrite app_nil_r. Qed.

#[global] Instance silent_trans : Transitive silent.
Proof.
  intros st1 st2 st3 [Hfs12 (evs1 & Htr1 & Hall1)] [Hfs23 (evs2 & Htr2 & Hall2)].
  split; [congruence|]. exists (evs1 ++ evs2).
  rewrite Htr2, Htr1, app_assoc. split; [done|]. by apply Forall_app.
Qed.

Ltac silent_side :=
  first
    [ by intros; apply silent_refl
    | intros st; split; [done|]; eexists [_]; split; [reflexivity|];
      by repeat constructor
    | intros st sg; split; [done|]; exists []; by rewrite app_nil_r
    | intros st; split; [done|]; exists []; by rewrite app_nil_r ].

Section Secondary.
Context (env : Env).
Hypothesis Hsecondary : is_main env = false.

Lemma silent_save : follows silent (save env).
Proof. unfold save. rewrite Hsecondary. simpl. follows_auto silent_side. Qed.

Lemma silent_validate : follows silent (validate env).
Proof. unfold validate. rewrite Hsecondary. simpl. follows_auto silent_side. Qed.

Lemma silent_micro_batches losses : follows silent (micro_batches losses).
Proof. induction losses as [|l losses IH]; simpl; follows_auto silent_side. apply IH. Qed.

Lemma silent_train_step : follows silent (train_step env).
Proof. unfold train_step. follows_auto silent_side. apply silent_micro_batches. Qed.

Lemma silent_loop_body : follows silent (loop_body env).
Proof.
  unfold loop_body. rewrite Hsecondary. follows_auto silent_side;
    first [apply silent_save | apply silent_validate | apply silent_train_step].
Qed.

Lemma silent_epoch_loop n : follows silent (epoch_loop env n).
Proof.
  induction n as [|n IH]; simpl; follows_auto silent_side;
    [apply silent_loop_body | apply IH].
Qed.

Lemma silent_epochs_loop n : follows silent (epochs_loop env n).
Proof.
  induction n as [|n IH]; simpl; follows_auto silent_side;
    first [apply silent_epoch_loop | apply silent_save | apply silent_validate
          | apply IH].
Qed.

Lemma silent_run : follows silent (run env).
Proof.
  unfold run, interrupted. rewrite Hsecondary.
  destruct (only_validate (args env)); [follows_auto silent_side|].
  apply follows_except; [apply _ .. | apply silent_epochs_loop |].
  follows_auto silent_side.
Qed.
End Secondary.

Lemma silent_main_worker w a n :
  primary a = false -> follows silent (main_worker w a n).
Proof.
  intros Hp. unfold main_worker, prepare_run_dir, load_everything. cbv zeta.
  rewrite Hp. follows_auto silent_side.
  - destruct (device_id a); follows_auto silent_side.
  - by apply silent_run.
Qed.

(** X9.  A spawned worker whose rank is not 0 writes nothing: whenever
    and however it ends, the files are as they were, and it has made no
    call that creates, copies or removes a file, logs an event, runs a
    validation pass or spawns a process. *)
Theorem secondary_worker_is_silent (w : World) (i n : Z) (kwargs : Args)
    (st st' : State) (r : result unit) :
  i <> 0 ->
  n_devices kwargs = Some n ->
  _main_mp w i kwargs st = (st', r) ->
  fs st' = fs st /\
  exists evs, trace st' = trace st ++ evs /\ Forall (fun e => is_output e = false) evs.
Proof.
  intros Hi Hn Hrun. unfold _main_mp, main in Hrun.
  cbn [with_device_id n_devices] in Hrun. rewrite Hn in Hrun.
  eapply silent_main_worker; [|done].
  unfold primary. cbn [with_device_id device_id]. by apply Z.eqb_neq.
Qed.

Lemma secondary_worker_is_silent_demo :
  fs (_main_mp demo_world 1 demo_args (boot demo_run_files None)).1 = demo_run_files.
Proof.
  apply (secondary_worker_is_silent demo_world 1 1 demo_args (boot demo_run_files None)
           _ _ ltac:(lia) eq_refl (surjective_pairing _)).
Defined.

(** ** Spawned workers *)

(** X10.  [_main_mp] passes on the [n_devices] it was given, so a spawned
    worker never spawns workers of its own; and it is the primary exactly
    when its rank is 0. *)
Theorem spawned_worker_never_spawns (w : World) (i n : Z) (kwargs : Args)
    (st st' : State) (r : result unit) :
  n_devices kwargs = Some n ->
  _main_mp w i kwargs st = (st', r) ->
  (primary (with_device_id kwargs (Some i)) = true <-> i = 0) /\
  exists evs,
    trace st' = trace st ++ evs /\
    Forall (fun e => forall k m, e <> EvSpawn k m) evs.
Proof.
  intros Hn Hrun. split.
  { unfold primary. cbn [with_device_id device_id]. apply Z.eqb_eq. }
  unfold _main_mp, main in Hrun.
  cbn [with_device_id n_devices] in Hrun. rewrite Hn in Hrun.
  apply main_worker_inv in Hrun.
  destruct Hrun as [(_ & -> & _) | (_ & st1 & r1 & Hdir & Hrest)].
  { exists []. by rewrite app_nil_r. }
  assert (exists evs1, trace st1 = trace st ++ evs1 /\
                        Forall (fun e => forall k m, e <> EvSpawn k m) evs1)
    as (evs1 & Htr1 & Hall1).
  { destruct (primary (with_device_id kwargs (Some i))) eqn:Hprim;
      [|rewrite prepare_run_dir_secondary in Hdir by done; injection Hdir as <- _;
        exists []; by rewrite app_nil_r].
    destruct (clean (with_device_id kwargs (Some i))
              && Path.exists_ (run_path (with_device_id kwargs (Some i))) (fs st))
      eqn:Hc.
    - destruct (Path.exists_ (Path.join (run_path (with_device_id kwargs (Some i)))
                                ".lm") (fs st)) eqn:Hmark.
      + rewrite prepare_run_dir_clean in Hdir by done. injection Hdir as <- _.
        eexists. split; [reflexivity|]. by repeat constructor.
      + rewrite prepare_run_dir_refuse in Hdir by done. injection Hdir as <- _.
        exists []. by rewrite app_nil_r.
    - rewrite prepare_run_dir_keep in Hdir by done. injection Hdir as <- _.
      eexists. split; [reflexivity|]. by repeat constructor. }
  destruct Hrest as [(e & _ & -> & _) | (_ & (evs & Htr & Hlate) & _)];
    [by exists evs1|].
  exists (evs1 ++ evs). rewrite Htr, Htr1, app_assoc. split; [done|].
  apply Forall_app. split; [done|].
  eapply Forall_impl; [done|]. intros e He k m ->. done.
Qed.

Lemma spawned_worker_never_spawns_demo :
  primary (with_device_id demo_args_uneven (Some 0)) = true <-> 0 = 0.
Proof.
  apply (spawned_worker_never_spawns demo_world 0 2 demo_args_uneven (boot ∅ None)
           _ _ eq_refl (surjective_pairing _)).
Defined.

(** ** One call of [save()] *)

(** X11.  One uninterrupted [save()] on the primary, from any state of
    the files: [model.pt] and [optim.pt] then hold the current state; each
    [-prev] file holds what its file held before the call, or, when that
    file did not exist, what the [-prev] file itself held (nothing, if it
    did not exist either); and on a directory with neither file the call
    makes the two [torch.save] calls and nothing else. *)
Theorem save_backs_up_what_exists (env : Env) (st : State) :
  is_main env = true ->
  sigint st = None ->
  exists st',
    save env st = (st', Ok tt) /\
    fs st' !! model_path env = Some (File (ModelCkpt (updates st) (step st))) /\
    fs st' !! optim_path env = Some (File (OptimCkpt (updates st))) /\
    fs st' !! prev_path env "model.pt" =
      match fs st !! model_path env with
      | Some old => Some old
      | None => fs st !! prev_path env "model.pt"
      end /\
    fs st' !! prev_path env "optim.pt" =
      match fs st !! optim_path env with
      | Some old => Some old
      | None => fs st !! prev_path env "optim.pt"
      end /\
    (fs st !! model_path env = None -> fs st !! optim_path env = None ->
     trace st' =
       trace st ++ [EvTorchSave (model_path env) (ModelCkpt (updates st) (step st));
                    EvTorchSave (optim_path env) (OptimCkpt (updates st))]).
Proof.
  intros Hmain Hsig. rewrite save_spec by done. eexists. split; [reflexivity|].
  cbn [fs trace].
  destruct (checkpoint_paths_ne env) as (? & ? & ? & ? & ? & ?).
  split_and!.
  - rewrite save_files_lookup. rewrite decide_False by done. by rewrite decide_True.
  - rewrite save_files_lookup. by rewrite decide_True.
  - rewrite save_files_lookup. rewrite !decide_False by done. by rewrite decide_True.
  - rewrite save_files_lookup. rewrite !decide_False by done. by rewrite decide_True.
  - intros Hm Ho. unfold save_calls, backup_calls.
    pose proof (exists_after_backup env (fs st)) as Hsame.
    unfold model_path, optim_path, Path.exists_ in *.
    rewrite Hsame, Hm, Ho.
    rewrite !bool_decide_eq_false_2 by (by intros [? ?]). done.
Qed.

Lemma save_backs_up_what_exists_demo :
  exists st',
    save demo_env (boot demo_run_files None) = (st', Ok tt) /\
    fs st' !! prev_path demo_env "model.pt" = Some (File (ModelCkpt 7 8)) /\
    fs st' !! prev_path demo_env "optim.pt" = None.
Proof.
  destruct (save_backs_up_what_exists demo_env (boot demo_run_files None)
              eq_refl eq_refl) as (st' & Hrun & _ & _ & Hm & Ho & _).
  exists st'. split_and!; [exact Hrun | exact Hm | exact Ho].
Defined.

(** ** A budget stop that falls on a scheduled save *)

Lemma validate_keeps_files env : follows (touches_only (fun _ => False)) (validate env).
Proof.
  assert (forall batches losses,
            follows (touches_only (fun _ => False)) (valid_loop env batches losses))
    as Hloop.
  { induction batches as [|ctx batches IH]; intros losses; simpl;
      follows_auto ltac:(by intros; split). apply IH. }
  unfold validate, get_valid_loss. follows_auto ltac:(by intros; split). apply Hloop.
Qed.

(** X12.  On an uninterrupted primary, when the token budget is reached at
    a counter that is also a multiple of [save_every], the round saves
    twice in a row, once on line 159 and once on line 163: however the
    validation that follows ends, both the checkpoint files and their
    [-prev] copies then hold the same, current state, and the generation
    before it is gone; the round does not go on to another one. *)
Theorem stop_on_scheduled_save_overwrites_backup (env : Env) (st st' : State)
    (r : result bool) :
  is_main env = true ->
  sigint st = None ->
  save_every (args env) <> 0 ->
  step st mod save_every (args env) = 0 ->
  budget_reached env (step st) = true ->
  loop_body env st = (st', r) ->
  r <> Ok false /\
  fs st' !! model_path env = Some (File (ModelCkpt (updates st) (step st))) /\
  fs st' !! prev_path env "model.pt" = Some (File (ModelCkpt (updates st) (step st))) /\
  fs st' !! optim_path env = Some (File (OptimCkpt (updates st))) /\
  fs st' !! prev_path env "optim.pt" = Some (File (OptimCkpt (updates st))).
Proof.
  intros Hmain Hsig Hsave Hmod Hbudget. unfold loop_body. exec.
  rewrite Hmod. simpl (0 =? 0).
  rewrite (bind_ok _ _ _ _ _ (save_spec env st Hmain Hsig)). exec.
  rewrite Hbudget. exec.
  match goal with
  | |- context [(save env ≫= _) ?s] =>
      rewrite (bind_ok _ _ _ _ _ (save_spec env s Hmain eq_refl))
  end.
  cbn [fs trace step updates loss_meter sigint].
  intros Hrun.
  assert (r <> Ok false /\
          exists s2 (r2 : result unit),
            validate env s2 = (st', r2) /\
            fs s2 = save_files env (updates st) (step st)
                      (save_files env (updates st) (step st) (fs st)))
    as (Hr & s2 & r2 & Hval & Hfs).
  { apply bind_inv in Hrun as [(e & Hv & ->) | ([] & s3 & Hv & [= <- <-])].
    - split; [done|]. eexists _, _. split; [exact Hv|]. done.
    - split; [done|]. eexists _, _. split; [exact Hv|]. done. }
  split; [done|].
  apply validate_keeps_files in Hval as [Hsame _].
  rewrite !Hsame, Hfs by tauto.
  destruct (checkpoint_paths_ne env) as (? & ? & ? & ? & ? & ?).
  split_and!.
  - rewrite save_files_lookup. rewrite decide_False by done. by rewrite decide_True.
  - rewrite save_files_lookup. rewrite !decide_False by done.
    rewrite decide_True by done.
    rewrite save_files_lookup. rewrite decide_False by done. by rewrite decide_True.
  - rewrite save_files_lookup. by rewrite decide_True.
  - rewrite save_files_lookup. rewrite !decide_False by done.
    rewrite decide_True by done.
    rewrite save_files_lookup. by rewrite decide_True.
Qed.

Lemma stop_on_scheduled_save_overwrites_backup_demo :
  fs (loop_body demo_env (mkState demo_run_files [] 1000 999 AverageMeter.init None)).1
    !! prev_path demo_env "model.pt" = Some (File (ModelCkpt 999 1000)).
Proof.
  apply (stop_on_scheduled_save_overwrites_backup demo_env
           (mkState demo_run_files [] 1000 999 AverageMeter.init None) _ _
           eq_refl eq_refl ltac:(vm_compute; discriminate) eq_refl eq_refl
           (surjective_pairing _)).
Defined.

(** ** The value a validation pass reports *)

(** X13.  For positive [n_ctx] and [batch_size], the validation iterator
    yields [n_windows // batch_size + 1] batches, and an uninterrupted
    [get_valid_loss()] ends in one of two ways.  When [batch_size] does not
    divide the number of windows, no batch is empty and it returns the
    plain mean of the per-batch losses, having switched to evaluation
    mode, run the model once per batch, and switched back.  When it does
    (or there is no window), the last batch is empty and the pass fails on
    it after the model was run on every batch: no loss is returned and the
    model is not switched back.  Either way the files, the counters and
    the training meter are as they were. *)
Theorem valid_loss_is_mean_or_fails (env : Env) (st : State) :
  sigint st = None ->
  0 < n_ctx (args env) ->
  0 < batch_size (args env) ->
  let n := Z.of_nat (n_windows (Z.of_nat (length (valid_dataset (world env))))
                       (n_ctx (args env))) in
  exists batches st',
    _valid_batch_iter (valid_dataset (world env)) (batch_size (args env))
      (n_ctx (args env)) = Ok batches /\
    Z.of_nat (length batches) = n / batch_size (args env) + 1 /\
    st' = (get_valid_loss env st).1 /\
    fs st' = fs st /\ updates st' = updates st /\ step st' = step st /\
    loss_meter st' = loss_meter st /\
    (n mod batch_size (args env) <> 0 ->
     ([] ∉ batches) /\
     exists v,
       get_valid_loss env st = (st', Ok v) /\
       AverageMeter.mean
         (AverageMeter.Build (map (valid_loss (world env) (updates st)) batches))
         = Ok v /\
       trace st' =
         trace st ++ [EvEvalMode] ++ map EvForward batches ++ [EvTrainMode]) /\
    (n mod batch_size (args env) = 0 ->
     last batches = Some [] /\
     get_valid_loss env st = (st', Raise IndexError) /\
     trace st' = trace st ++ [EvEvalMode] ++ map EvForward batches).
Proof.
  intros Hsig HC HB n.
  set (windows := map (fun k : nat => take (Z.to_nat (n_ctx (args env)))
                         (drop (k * Z.to_nat (n_ctx (args env)))
                            (valid_dataset (world env))))
                    (seq 0 (n_windows (Z.of_nat (length (valid_dataset (world env))))
                              (n_ctx (args env))))).
  assert (_valid_batch_iter (valid_dataset (world env)) (batch_size (args env))
            (n_ctx (args env)) = Ok (_batch_it windows (batch_size (args env)))) as Hb.
  { unfold _valid_batch_iter. by rewrite valid_windows_spec. }
  assert (Z.of_nat (length windows) = n) as Hlen.
  { subst windows. by rewrite length_map, length_seq. }
  assert (Z.of_nat (length (_batch_it windows (batch_size (args env))))
          = n / batch_size (args env) + 1) as Hcount.
  { destruct (batch_it_from_shape [] windows (batch_size (args env)))
      as (full & rest & Hrun' & _ & _ & Hn & _); [simpl; lia|].
    unfold _batch_it. rewrite Hrun', length_app. cbn [length].
    change (Z.of_nat (length (@nil (list Z)))) with 0 in Hn.
    rewrite Z.add_0_l, Hlen in Hn. lia. }
  exists (_batch_it windows (batch_size (args env))).
  destruct (Z.eq_dec (n mod batch_size (args env)) 0) as [Hmod|Hmod].
  - destruct (batch_it_ends_empty windows (batch_size (args env))) as (full & Hshape & Hne).
    { destruct (Z.eq_dec n 0) as [Hz|Hnz]; [left; lia|].
      right. split; [done|]. exists (n / batch_size (args env)).
      pose proof (Z.div_mod n (batch_size (args env)) ltac:(lia)) as Hdm.
      assert (0 <= n / batch_size (args env)) by (apply Z.div_pos; lia).
      split; [nia | lia]. }
    pose proof (get_valid_loss_empty env st full [] Hsig
                  ltac:(by rewrite Hb, Hshape) Hne) as Hrun.
    eexists. split; [done|]. split; [done|]. split; [by rewrite Hrun|].
    cbn [fs trace step updates loss_meter]. split_and!; try done.
    intros _. rewrite Hshape. split_and!; [by rewrite last_snoc | done | done].
  - pose proof (batch_it_all_nonempty windows (batch_size (args env)) HB
                  ltac:(by rewrite Hlen)) as Hne.
    destruct (get_valid_loss_spec env st _ Hsig Hb Hne) as (v & Hv & Hrun).
    eexists. split; [done|]. split; [done|]. split; [by rewrite Hrun|].
    cbn [fs trace step updates loss_meter]. split_and!; try done.
    intros _. split; [done|]. by exists v.
Qed.

Lemma valid_loss_is_mean_or_fails_demo :
  exists batches,
    _valid_batch_iter (valid_dataset demo_world_ragged) 2 4 = Ok batches /\
    Z.of_nat (length batches) = 2 /\
    ([] ∉ batches) /\
    exists v, (get_valid_loss demo_env_ragged (boot ∅ None)).2 = Ok v.
Proof.
  destruct (valid_loss_is_mean_or_fails demo_env_ragged (boot ∅ None)
              eq_refl eq_refl eq_refl)
    as (batches & st' & Hb & Hn & _ & _ & _ & _ & _ & Hgood & _).
  destruct (Hgood ltac:(vm_compute; discriminate)) as (Hne & v & Hrun & _).
  exists batches. split_and!; [exact Hb | exact Hn | exact Hne |].
  exists v. by rewrite Hrun.
Defined.

(** ** Stretches of code that leave the counters alone *)

#[global] Instance steady_refl : Reflexive steady.
Proof. intros st. split_and!; [done..|]. exists []. by rewrite app_nil_r. Qed.

#[global] Instance steady_trans : Transitive steady.
Proof.
  intros st1 st2 st3 (Hs12 & Hu12 & evs1 & Htr1 & Hall1) (Hs23 & Hu23 & evs2 & Htr2 & Hall2).
  split_and!; [congruence..|]. exists (evs1 ++ evs2).
  rewrite Htr2, Htr1, app_assoc. split; [done|].
  apply Forall_app. split; [done|]. by rewrite <- Hs12, <- Hu12.
Qed.

Ltac steady_side :=
  first
    [ intros ?; split_and!; [done..|]; eexists [_]; split; [reflexivity|];
      by repeat constructor
    | intros ? ?; split_and!; [done..|]; exists []; by rewrite app_nil_r
    | intros ?; split_and!; [done..|]; exists []; by rewrite app_nil_r ].

Lemma steady_backup env name : follows steady (backup env name).
Proof. unfold backup. follows_auto steady_side. Qed.

Lemma steady_tick : follows steady tick.
Proof. follows_auto steady_side. Qed.

Lemma steady_torch_save c p st st' r :
  torch_save c p st = (st', r) ->
  records (updates st) (step st) (EvTorchSave p c) ->
  steady st st'.
Proof.
  intros Hrun Hrec. unfold torch_save in Hrun.
  apply bind_inv in Hrun as [(e & Hrun & _) | ([] & st1 & Hrun & Hrest)].
  - by apply steady_tick in Hrun.
  - apply steady_tick in Hrun.
    etrans; [done|]. destruct Hrun as (Hs & Hu & _).
    rewrite bind_emit in Hrest. injection Hrest as <- _.
    split_and!; [done..|]. eexists [_]. split; [reflexivity|].
    constructor; [|done]. by rewrite Hs, Hu.
Qed.

Lemma steady_then {A B : Type} (m : M A) (f : A -> M B) st st' r :
  follows steady m ->
  (m ≫= f) st = (st', r) ->
  (steady st st' /\ exists e, r = Raise e) \/
  (exists a st1, steady st st1 /\ f a st1 = (st', r)).
Proof.
  intros Hm [(e & Hrun & ->) | (a & st1 & Hrun & Hrest)]%bind_inv.
  - left. split; [by eapply Hm | by eexists].
  - right. exists a, st1. split; [by eapply Hm | done].
Qed.

Lemma steady_save env : follows steady (save env).
Proof.
  intros st st' r. unfold save. destruct (negb (is_main env)); [by intros [= <- _]|].
  intros [[H _] | ([] & st1 & H1 & Hrun)]%steady_then; [done | | apply steady_backup].
  apply steady_then in Hrun as [[H _] | ([] & st2 & H2 & Hrun)];
    [by etrans | | apply steady_backup].
  assert (steady st st2) as H02 by (by etrans).
  rewrite !bind_get in Hrun.
  apply bind_inv in Hrun as [(e & Hrun & _) | ([] & st3 & Hrun & Hrest)].
  - etrans; [done|]. by eapply steady_torch_save.
  - assert (steady st2 st3) as H23 by (by eapply steady_torch_save).
    rewrite bind_get in Hrest. etrans; [done|]. etrans; [done|].
    eapply steady_torch_save; [done|]. simpl. by destruct H23 as (_ & -> & _).
Qed.

Lemma steady_valid_loop env batches losses :
  follows steady (valid_loop env batches losses).
Proof.
  revert losses. induction batches as [|ctx batches IH]; intros losses; simpl;
    follows_auto steady_side. apply IH.
Qed.

Lemma steady_validate env : follows steady (validate env).
Proof.
  unfold validate, get_valid_loss. follows_auto steady_side. apply steady_valid_loop.
Qed.

#[global] Instance writes_ahead_refl : Reflexive writes_ahead.
Proof. intros st. split; [done|]. exists []. by rewrite app_nil_r. Qed.

#[global] Instance writes_ahead_trans : Transitive writes_ahead.
Proof.
  intros s1 s2 s3 [Hs12 (evs1 & Htr1 & Hall1)] [Hs23 (evs2 & Htr2 & Hall2)].
  split; [congruence|]. exists (evs1 ++ evs2).
  rewrite Htr2, Htr1, app_assoc. split; [done|]. by apply Forall_app.
Qed.

Ltac ahead_side :=
  first
    [ intros ?; split; [done|]; eexists [_]; split; [reflexivity|];
      by repeat constructor
    | intros ? ?; split; [done|]; exists []; by rewrite app_nil_r
    | intros ?; split; [done|]; exists []; by rewrite app_nil_r ].

Lemma ahead_micro_batches losses : follows writes_ahead (micro_batches losses).
Proof. induction losses as [|l losses IH]; simpl; follows_auto ahead_side. apply IH. Qed.

Lemma ahead_train_step env : follows writes_ahead (train_step env).
Proof. unfold train_step. follows_auto ahead_side. apply ahead_micro_batches. Qed.

Lemma tick_inv st st' (r : result unit) :
  tick st = (st', r) ->
  fs st' = fs st /\ trace st' = trace st /\ step st' = step st /\
  updates st' = updates st /\ loss_meter st' = loss_meter st /\
  (forall e, r = Raise e -> e = KeyboardInterrupt).
Proof.
  unfold tick. destruct (sigint st) as [[|n]|]; intros [= <- <-]; simpl;
    split_and!; try done. by intros e [= <-].
Qed.

Lemma micro_batches_updates losses st st' r :
  micro_batches losses st = (st', r) -> updates st' = updates st.
Proof.
  revert st. induction losses as [|l losses IH]; simpl; intros st.
  - by intros [= <- _].
  - intros [(e & Hr & _) | ([] & s1 & Hr & Hrest)]%bind_inv.
    + by apply tick_inv in Hr as (_ & _ & _ & ? & _).
    + apply tick_inv in Hr as (_ & _ & _ & Hu & _).
      rewrite bind_emit, bind_get, bind_set_loss_meter in Hrest.
      apply IH in Hrest. simpl in Hrest. congruence.
Qed.

(** [train_step()] makes one update, as its last action, or none. *)
Lemma train_step_counts env st st' r :
  train_step env st = (st', r) ->
  writes_ahead st st' /\
  ((r = Ok tt /\ updates st' = S (updates st)) \/
   ((exists e, r = Raise e) /\ updates st' = updates st)).
Proof.
  intros Hrun. split; [by eapply ahead_train_step|].
  unfold train_step in Hrun.
  apply bind_inv in Hrun as [(e & Hr & ->) | ([] & s1 & Hr & Hrun)].
  { right. split; [by eexists|]. by apply tick_inv in Hr as (_ & _ & _ & ? & _). }
  apply tick_inv in Hr as (_ & _ & _ & Hu1 & _). rewrite bind_get in Hrun.
  apply bind_inv in Hrun as [(e & Hr2 & ->) | (context & s2 & Hr2 & Hrun)].
  { right. split; [by eexists|]. by injection Hr2 as <- _. }
  injection Hr2 as <- _.
  apply bind_inv in Hrun as [(e & Hr3 & ->) | ([] & s3 & Hr3 & Hrun)].
  { right. split; [by eexists|]. apply tick_inv in Hr3 as (_ & _ & _ & ? & _).
    congruence. }
  apply tick_inv in Hr3 as (_ & _ & _ & Hu3 & _). rewrite bind_emit in Hrun.
  apply bind_inv in Hrun as [(e & Hr4 & ->) | ([] & s4 & Hr4 & Hrun)].
  { right. split; [by eexists|]. apply micro_batches_updates in Hr4. simpl in Hr4.
    congruence. }
  apply micro_batches_updates in Hr4. simpl in Hr4.
  apply bind_inv in Hrun as [(e & Hr5 & ->) | ([] & s5 & Hr5 & Hrun)].
  { right. split; [by eexists|]. apply tick_inv in Hr5 as (_ & _ & _ & ? & _).
    congruence. }
  apply tick_inv in Hr5 as (_ & _ & _ & Hu5 & _).
  rewrite bind_emit in Hrun. injection Hrun as <- <-.
  left. split; [done|]. simpl. congruence.
Qed.

(** ** How far the training loop goes *)

Lemma records_ahead (u : nat) (s : Z) (evs : list event) :
  s = Z.of_nat u + 1 -> Forall (records u s) evs -> Forall counter_ahead evs.
Proof.
  intros Hs Hall. eapply Forall_impl; [done|]. intros [] Hrec; try done.
  destruct c; try done. destruct Hrec as [-> ->]. done.
Qed.

Lemma records_level (u : nat) (s : Z) (evs : list event) :
  s = Z.of_nat u + 1 \/ s = Z.of_nat u ->
  Forall (records u s) evs -> Forall counter_ahead_or_level evs.
Proof.
  intros Hs Hall. eapply Forall_impl; [done|]. intros [] Hrec; try done.
  destruct c; try done. destruct Hrec as [-> ->]. done.
Qed.

Lemma ahead_level (evs : list event) :
  Forall counter_ahead evs -> Forall counter_ahead_or_level evs.
Proof.
  intros Hall. eapply Forall_impl; [done|].
  intros [] H; try done. destruct c; try done. by left.
Qed.

Section Advances.
Context (env : Env).

Lemma steady_advances (ki : Prop) st st' :
  steady st st' -> step st = Z.of_nat (updates st) + 1 -> advances env 0 ki st st'.
Proof.
  intros (Hs & Hu & evs & Htr & Hall) Hone. split_and!; [ | lia | lia | | ].
  - exists evs. split; [done|]. by eapply records_ahead.
  - by left.
  - left. congruence.
Qed.

Lemma advances_more (b b' : nat) (ki : Prop) st st' :
  (b <= b')%nat -> advances env b ki st st' -> advances env b' ki st st'.
Proof.
  intros Hb (Hev & Hu & Hbudget & Hstep). split_and!; [done | lia | lia | done..].
Qed.

Lemma advances_then (b1 b2 : nat) (ki1 ki2 : Prop) st st1 st2 :
  advances env b1 ki1 st st1 ->
  step st1 = Z.of_nat (updates st1) + 1 ->
  advances env b2 ki2 st1 st2 ->
  advances env (b1 + b2) ki2 st st2.
Proof.
  intros ((evs1 & Htr1 & Hall1) & Hu1 & Hb1 & _) Hone
         ((evs2 & Htr2 & Hall2) & Hu2 & Hb2 & Hstep2).
  split_and!; [ | lia | lia | | ].
  - exists (evs1 ++ evs2). rewrite Htr2, Htr1, app_assoc. split; [done|].
    by apply Forall_app.
  - destruct Hb2 as [Heq|Hb2]; [|by right].
    rewrite Heq. destruct Hb1 as [Heq1|Hb1]; [left; congruence | by right].
  - done.
Qed.

Lemma advances_ok (b : nat) {A : Type} (r : result A) st st' :
  advances env b (r = Raise KeyboardInterrupt) st st' ->
  (forall e, r <> Raise e) ->
  step st' = Z.of_nat (updates st') + 1.
Proof. intros (_ & _ & _ & [H | [_ ->]]) Hok; [done | by destruct (Hok KeyboardInterrupt)]. Qed.

Lemma loop_body_advances st st' r :
  loop_body env st = (st', r) ->
  step st = Z.of_nat (updates st) + 1 ->
  advances env 1 (r = Raise KeyboardInterrupt) st st'.
Proof.
  intros Hrun Hone. unfold loop_body in Hrun.
  apply steady_then in Hrun as [[H _] | ([] & st1 & H1 & Hrun)];
    [by apply (advances_more 0), steady_advances; [lia|..] | | apply steady_tick].
  rewrite bind_get in Hrun.
  assert (step st1 = step st /\ updates st1 = updates st) as [Hs1 Hu1]
    by (by destruct H1 as (? & ? & _)).
  rewrite Hs1 in Hrun.
  apply steady_then in Hrun as [[H _] | (m & st2 & H2 & Hrun)];
    [apply (advances_more 0); [lia|]; apply steady_advances; [by etrans | done]
    | | follows_auto steady_side].
  apply steady_then in Hrun as [[H _] | ([] & st3 & H3 & Hrun)];
    [apply (advances_more 0); [lia|]; apply steady_advances;
       [by etrans; [|etrans] | done]
    | | follows_auto steady_side; apply steady_save].
  apply steady_then in Hrun as [[H _] | ([] & st4 & H4 & Hrun)];
    [apply (advances_more 0); [lia|]; apply steady_advances;
       [by etrans; [|etrans; [|etrans]] | done]
    | | apply steady_tick].
  assert (steady st st4) as H04 by (by etrans; [|etrans; [|etrans]]).
  clear H1 H2 H3 H4 Hs1 Hu1 st1 st2 st3.
  destruct (budget_reached env (step st)) eqn:Hbudget.
  { apply (advances_more 0); [lia|]. apply steady_advances; [|done].
    etrans; [done|].
    match type of Hrun with
    | ?b st4 = _ => assert (follows steady b) as Hf
    end.
    { follows_auto steady_side; [apply steady_save | apply steady_validate]. }
    by eapply Hf. }
  destruct H04 as (Hs4 & Hu4 & evs4 & Htr4 & Hall4).
  apply records_ahead with (s := step st) (u := updates st) in Hall4; [|done].
  apply bind_inv in Hrun as [(e & Hts & ->) | ([] & st5 & Hts & Hrun)].
  { apply train_step_counts in Hts as [[Hs5 (evs5 & Htr5 & Hall5)] Hupd].
    destruct Hupd as [[[= ] _] | [_ Hu5]].
    split_and!; [ | lia | lia | | ].
    - exists (evs4 ++ evs5). rewrite Htr5, Htr4, app_assoc. split; [done|].
      by apply Forall_app.
    - left. congruence.
    - left. congruence. }
  apply train_step_counts in Hts as [[Hs5 (evs5 & Htr5 & Hall5)] Hupd].
  destruct Hupd as [[_ Hu5] | [[e [= ]] _]].
  apply bind_inv in Hrun as [(e & Htk & ->) | ([] & st6 & Htk & Hrun)].
  { apply tick_inv in Htk as (_ & Htr6 & Hs6 & Hu6 & _ & Hki).
    split_and!; [ | lia | lia | | ].
    - exists (evs4 ++ evs5). rewrite Htr6, Htr5, Htr4, app_assoc. split; [done|].
      by apply Forall_app.
    - right. rewrite Hu6, Hu5, Hu4, Nat2Z.inj_succ, <- Z.add_1_r, <- Hone. done.
    - right. split; [|by rewrite (Hki e eq_refl)].
      rewrite Hs6, Hs5, Hs4, Hu6, Hu5, Hu4. lia. }
  apply tick_inv in Htk as (_ & Htr6 & Hs6 & Hu6 & _ & _).
  rewrite bind_set_step in Hrun.
  match type of Hrun with
  | ?b ?s = _ => assert (follows steady b) as Hf; [|apply Hf in Hrun; set (st7 := s) in *]
  end.
  { follows_auto steady_side. apply steady_validate. }
  destruct Hrun as (Hs' & Hu' & evs7 & Htr7 & Hall7). simpl in *.
  apply records_ahead in Hall7; [|lia].
  split_and!; [ | lia | lia | | ].
  - exists (evs4 ++ evs5 ++ evs7).
    rewrite Htr7, Htr6, Htr5, Htr4, <- !app_assoc. split; [done|].
    by repeat (apply Forall_app; split).
  - right. rewrite Hu', Hu6, Hu5, Hu4, Nat2Z.inj_succ, <- Z.add_1_r, <- Hone. done.
  - left. rewrite Hs', Hu', Hu6, Hu5, Hu4. lia.
Qed.
End Advances.

Section Advances2.
Context (env : Env).

Lemma advances_ki (b : nat) (ki ki' : Prop) st st' :
  (ki -> ki') -> advances env b ki st st' -> advances env b ki' st st'.
Proof.
  intros Himpl (Hev & Hu & Hbudget & Hstep).
  split_and!; [done | lia | lia | done |].
  destruct Hstep as [H | [H Hki]]; [by left | right; auto].
Qed.

Lemma epoch_loop_advances n st st' r :
  epoch_loop env n st = (st', r) ->
  step st = Z.of_nat (updates st) + 1 ->
  advances env n (r = Raise KeyboardInterrupt) st st'.
Proof.
  revert st. induction n as [|n IH]; intros st Hrun Hone; simpl in Hrun.
  - injection Hrun as <- <-. by apply steady_advances.
  - apply bind_inv in Hrun as [(e & Hbody & ->) | (returned & st1 & Hbody & Hrun)].
    + apply (advances_more env 1); [lia|]. by apply loop_body_advances.
    + apply (loop_body_advances env) in Hbody; [|done].
      assert (step st1 = Z.of_nat (updates st1) + 1) as Hone1
        by (by eapply advances_ok).
      destruct returned.
      * injection Hrun as <- <-. apply (advances_more env 1); [lia|].
        by eapply advances_ki; [|done].
      * apply IH in Hrun; [|done]. by eapply (advances_then env 1 n).
Qed.

Lemma epochs_loop_advances n st st' r :
  epochs_loop env n st = (st', r) ->
  step st = Z.of_nat (updates st) + 1 ->
  advances env (n * Z.to_nat (epoch_size env)) (r = Raise KeyboardInterrupt) st st'.
Proof.
  revert st. induction n as [|n IH]; intros st Hrun Hone; simpl in Hrun.
  - injection Hrun as <- <-. by apply steady_advances.
  - apply bind_inv in Hrun as [(e & Hepoch & ->) | (returned & st1 & Hepoch & Hrun)].
    + apply epoch_loop_advances in Hepoch; [|done].
      apply (advances_more env (Z.to_nat (epoch_size env))); [lia|].
      eapply advances_ki; [|done]. by intros [= ->].
    + apply epoch_loop_advances in Hepoch; [|done].
      assert (step st1 = Z.of_nat (updates st1) + 1) as Hone1
        by (by eapply advances_ok).
      destruct returned.
      * injection Hrun as <- <-.
        apply (advances_more env (Z.to_nat (epoch_size env))); [lia|].
        by eapply advances_ki; [|done].
      * assert (forall st2, steady st1 st2 ->
                  advances env (Z.to_nat (epoch_size env)) (r = Raise KeyboardInterrupt)
                    st st2) as Hquiet.
        { intros st2 H12.
          replace (Z.to_nat (epoch_size env)) with (Z.to_nat (epoch_size env) + 0)%nat
            by lia.
          eapply advances_then; [done | done |]. by apply steady_advances. }
        apply steady_then in Hrun as [[H _] | ([] & st2 & H2 & Hrun)];
          [by apply (advances_more env (Z.to_nat (epoch_size env))); [lia|]; apply Hquiet
          | | apply steady_tick].
        apply steady_then in Hrun as [[H _] | ([] & st3 & H3 & Hrun)];
          [apply (advances_more env (Z.to_nat (epoch_size env))); [lia|];
             apply Hquiet; by etrans
          | | apply steady_save].
        apply steady_then in Hrun as [[H _] | ([] & st4 & H4 & Hrun)];
          [apply (advances_more env (Z.to_nat (epoch_size env))); [lia|];
             apply Hquiet; by etrans; [|etrans]
          | | apply steady_validate].
        assert (steady st1 st4) as H14 by (by etrans; [|etrans]).
        apply IH in Hrun; [|destruct H14 as (-> & -> & _); done].
        change (S n * Z.to_nat (epoch_size env))%nat
          with (Z.to_nat (epoch_size env) + n * Z.to_nat (epoch_size env))%nat.
        eapply advances_then; [by apply Hquiet | | done].
        by destruct H14 as (-> & -> & _).
Qed.

Lemma steady_interrupted : follows steady (interrupted env).
Proof. unfold interrupted. follows_auto steady_side. apply steady_save. Qed.

(** What [run] does to the counters and to the checkpoints it writes. *)
Lemma run_advances st st' r :
  run env st = (st', r) ->
  step st = Z.of_nat (updates st) + 1 ->
  (exists evs, trace st' = trace st ++ evs /\ Forall counter_ahead_or_level evs /\
               (sigint st = None -> Forall counter_ahead evs)) /\
  (updates st <= updates st'
     <= updates st + Z.to_nat (epochs (args env)) * Z.to_nat (epoch_size env))%nat /\
  (updates st' = updates st \/ budget_reached env (Z.of_nat (updates st')) = false).
Proof.
  intros Hrun Hone. unfold run in Hrun.
  destruct (only_validate (args env)).
  { assert (steady st st') as Hsteady.
    { revert Hrun. generalize st st' r.
      change (follows steady (if is_main env
                then emit (EvPrint "Validation loss: {validate():.4f}") else mret tt)).
      follows_auto steady_side. }
    apply (steady_advances env False) in Hsteady as ((evs & Htr & Hall) & Hu & Hb & _);
      [|done].
    split_and!; [|lia|lia|done].
    exists evs. split_and!; [done | by apply ahead_level | done]. }
  unfold except_KeyboardInterrupt, train in Hrun.
  destruct (epochs_loop env (Z.to_nat (epochs (args env))) st) as [st1 r1] eqn:Htrain.
  pose proof (sound_epochs_loop env _ _ _ _ Htrain) as (_ & _ & Hki & _).
  apply epochs_loop_advances in Htrain as ((evs & Htr & Hall) & Hu & Hb & Hstep); [|done].
  assert (r1 = Raise KeyboardInterrupt \/ r1 <> Raise KeyboardInterrupt) as [->|Hne].
  { destruct r1 as [|[]]; auto. }
  - apply steady_interrupted in Hrun as (Hs' & Hu' & evs' & Htr' & Hall').
    destruct (Hki eq_refl) as [Hsig _].
    split_and!; [|lia|lia|by rewrite Hu'].
    exists (evs ++ evs'). rewrite Htr', Htr, app_assoc. split_and!; [done| |done].
    apply Forall_app. split; [by apply ahead_level|].
    eapply records_level; [|done]. destruct Hstep as [?|[? _]]; auto.
  - assert (st' = st1 /\ r = r1) as [-> ->].
    { destruct r1 as [|[]]; try (by injection Hrun as <- <-). done. }
    split_and!; [|lia|lia|done].
    exists evs. split_and!; [done | by apply ahead_level | done].
Qed.
End Advances2.

Lemma ahead_prepare_run_dir a : follows writes_ahead (prepare_run_dir a).
Proof. unfold prepare_run_dir. follows_auto ahead_side. Qed.

Lemma ahead_load_everything w a ws : follows writes_ahead (load_everything w a ws).
Proof.
  unfold load_everything. follows_auto ahead_side. destruct (device_id a);
    follows_auto ahead_side.
Qed.

(** What a process that knows its number of devices does to the counters
    and to the checkpoints it writes. *)
Lemma main_worker_advances w a n st st' r :
  main_worker w a n st = (st', r) ->
  let T := n_ctx a * batch_size a * default (Z.max 1 n) (g_accum_gradients a) in
  (exists evs, trace st' = trace st ++ evs /\ Forall counter_ahead_or_level evs /\
               (sigint st = None -> Forall counter_ahead evs)) /\
  (updates st' = updates st \/
   (updates st' <= Z.to_nat (epochs a)
                   * Z.to_nat (Z.of_nat (length (train_dataset w)) / T))%nat /\
   (updates st' = 0%nat \/
    forall mt, max_tokens a = Some mt -> mt <> 0 -> Z.of_nat (updates st') * T < mt)).
Proof.
  assert (Z.max 1 n <> 0) as Hws by lia.
  assert (forall s, (exists evs, trace s = trace s ++ evs /\
                        Forall counter_ahead_or_level evs /\
                        (sigint st = None -> Forall counter_ahead evs))) as Hrefl.
  { intros s. exists []. by rewrite app_nil_r. }
  intros Hrun T. unfold main_worker in Hrun. cbv zeta in Hrun.
  rewrite bind_lift_mod in Hrun by done. unfold assert_ in Hrun.
  destruct (_ =? 0); [|injection Hrun as <- <-; split; [apply Hrefl | by left]].
  rewrite bind_ret in Hrun. rewrite (bind_lift_ok _ _ _ _ (floordiv_ok _ _ Hws)) in Hrun.
  apply bind_inv in Hrun as [(e & Hdir & ->) | ([] & st1 & Hdir & Hrun)].
  { apply prepare_run_dir_inv in Hdir as [(_ & -> & _) | ([= ] & _)].
    split; [apply Hrefl | by left]. }
  pose proof (ahead_prepare_run_dir a _ _ _ Hdir) as (_ & evs1 & Htr1 & Hall1).
  apply prepare_run_dir_inv in Hdir as [([= ] & _) | (_ & Hsig1 & _)].
  destruct (load_everything_spec w a (Z.max 1 n) st1)
    as (st2 & evs2' & Hload & _ & _ & _ & Hu2 & _ & Hsig2).
  pose proof (ahead_load_everything w a _ _ _ _ Hload) as (_ & evs2 & Htr2 & Hall2).
  rewrite (bind_ok _ _ _ _ _ Hload), bind_set_step in Hrun.
  fold T in Hrun.
  assert (forall st3, trace st3 = trace st2 ->
            exists evs, trace st3 = trace st ++ evs /\
              Forall counter_ahead_or_level evs /\
              (sigint st = None -> Forall counter_ahead evs)) as Hsofar.
  { intros st3 ->. exists (evs1 ++ evs2). rewrite Htr2, Htr1, app_assoc.
    assert (Forall counter_ahead (evs1 ++ evs2)) by (by apply Forall_app).
    split_and!; [done | by apply ahead_level | done]. }
  unfold Py.floordiv in Hrun. destruct (Z.eqb_spec T 0) as [HT|HT].
  { injection Hrun as <- <-. split; [by apply Hsofar|].
    right. simpl. rewrite Hu2. split; [lia | by left]. }
  rewrite (bind_lift_ok (Ok _) _ _ _ eq_refl) in Hrun.
  apply run_advances in Hrun as ((evs3 & Htr3 & Hlevel3 & Hahead3) & Hu3 & Hb3);
    [|simpl; by rewrite Hu2].
  simpl in Htr3, Hahead3, Hu3, Hb3. rewrite Hu2 in Hu3, Hb3.
  split.
  - exists ((evs1 ++ evs2) ++ evs3). rewrite Htr3, Htr2, Htr1, !app_assoc.
    split_and!; [done | |].
    + apply Forall_app. split; [|done]. apply ahead_level. by apply Forall_app.
    + intros Hsig. repeat (apply Forall_app; split); [done..|].
      apply Hahead3. congruence.
  - right. split; [lia|]. destruct Hb3 as [?|Hb3]; [by left|]. right.
    intros mt Hmt Hnz. unfold budget_reached in Hb3. simpl in Hb3. rewrite Hmt in Hb3.
    destruct (Z.eqb_spec mt 0); [done|]. simpl in Hb3. lia.
Qed.

(** X14.  In every model checkpoint [main] writes, the recorded [step] is
    one more than the number of optimizer updates the saved weights have
    had or, only in a run that had a signal pending, equal to it (the
    interrupt can arrive between the update and [step += 1]). *)
Theorem checkpoint_step_is_one_ahead (w : World) (a : Args) (st st' : State)
    (r : result unit) :
  main w a st = (st', r) ->
  exists evs,
    trace st' = trace st ++ evs /\
    forall p u s, EvTorchSave p (ModelCkpt u s) ∈ evs ->
      s = Z.of_nat u + 1 \/ (s = Z.of_nat u /\ sigint st <> None).
Proof.
  intros Hmain.
  assert (forall k, main_worker w a k st = (st', r) ->
            exists evs, trace st' = trace st ++ evs /\
              forall p u s, EvTorchSave p (ModelCkpt u s) ∈ evs ->
                s = Z.of_nat u + 1 \/ (s = Z.of_nat u /\ sigint st <> None)) as Hworker.
  { intros k [(evs & Htr & Hlevel & Hahead) _]%main_worker_advances.
    exists evs. split; [done|]. intros p u s Hin.
    destruct (sigint st) as [sg|] eqn:Hsig.
    - rewrite Forall_forall in Hlevel. apply Hlevel in Hin. simpl in Hin.
      destruct Hin; [by left | by right].
    - specialize (Hahead eq_refl). rewrite Forall_forall in Hahead.
      apply Hahead in Hin. by left. }
  unfold main in Hmain. destruct (n_devices a) as [k|]; [by eapply Hworker|].
  destruct (1 <? device_count w); [|by eapply Hworker].
  injection Hmain as <- _. eexists [_]. split; [done|].
  intros p u s Hin. apply list_elem_of_singleton in Hin. done.
Qed.

Lemma checkpoint_step_is_one_ahead_demo :
  exists evs,
    trace (main demo_world demo_args (boot ∅ (Some 9%nat))).1 = [] ++ evs /\
    forall p u s, EvTorchSave p (ModelCkpt u s) ∈ evs ->
      s = Z.of_nat u + 1 \/ (s = Z.of_nat u /\ Some 9%nat <> None).
Proof.
  apply (checkpoint_step_is_one_ahead demo_world demo_args (boot ∅ (Some 9%nat)) _ _
           (surjective_pairing _)).
Defined.

(** X15.  With a non-zero [max_tokens], a process that starts with no
    update made never trains on the whole budget: however it ends, either
    it made no optimizer update or the number of updates times
    [step_tokens] is strictly below [max_tokens]. *)
Theorem updates_stay_below_budget (w : World) (a : Args) (n : Z) (st st' : State)
    (r : result unit) (mt : Z) :
  main_worker w a n st = (st', r) ->
  updates st = 0%nat ->
  max_tokens a = Some mt -> mt <> 0 ->
  updates st' = 0%nat \/
  Z.of_nat (updates st')
    * (n_ctx a * batch_size a * default (Z.max 1 n) (g_accum_gradients a)) < mt.
Proof.
  intros [_ [Hsame | [_ [Hnone | Hbelow]]]]%main_worker_advances Hzero Hmt Hnz.
  - left. congruence.
  - by left.
  - right. by apply Hbelow.
Qed.

Lemma updates_stay_below_budget_demo :
  updates (main_worker demo_world demo_args 1 (boot ∅ None)).1 = 0%nat \/
  Z.of_nat (updates (main_worker demo_world demo_args 1 (boot ∅ None)).1)
    * (4 * 2 * 1) < 24.
Proof.
  apply (updates_stay_below_budget demo_world demo_args 1 (boot ∅ None) _ _ 24
           (surjective_pairing _) eq_refl eq_refl).
  discriminate.
Defined.

(** X16.  However it ends, a process that starts with no update made
    makes at most [epochs * (len(train_dataset) // step_tokens)] optimizer
    updates. *)
Theorem updates_bounded_by_epochs (w : World) (a : Args) (n : Z) (st st' : State)
    (r : result unit) :
  main_worker w a n st = (st', r) ->
  updates st = 0%nat ->
  (updates st'
   <= Z.to_nat (epochs a)
      * Z.to_nat (Z.of_nat (length (train_dataset w))
                  / (n_ctx a * batch_size a
                     * default (Z.max 1 n) (g_accum_gradients a))))%nat.
Proof.
  intros [_ [Hsame | [Hbound _]]]%main_worker_advances Hzero; [lia | done].
Qed.

Lemma updates_bounded_by_epochs_demo :
  (updates (main_worker demo_world demo_args 1 (boot ∅ None)).1
   <= Z.to_nat 10 * Z.to_nat (Z.of_nat 40 / (4 * 2 * 1)))%nat.
Proof.
  apply (updates_bounded_by_epochs demo_world demo_args 1 (boot ∅ None) _ _
           (surjective_pairing _) eq_refl).
Defined.

(** ** What can end a run *)

Lemma mod_raises_training a b e :
  Py.mod_ a b = Raise e -> e <> KeyboardInterrupt /\ training_exn e.
Proof. unfold Py.mod_. destruct (b =? 0); by intros [= <-]. Qed.

Lemma mean_raises_training m e :
  AverageMeter.mean m = Raise e -> e <> KeyboardInterrupt /\ training_exn e.
Proof. unfold AverageMeter.mean. destruct (AverageMeter.values m); by intros [= <-]. Qed.

Lemma valid_batch_iter_raises_training d bs C e :
  _valid_batch_iter d bs C = Raise e -> e <> KeyboardInterrupt /\ training_exn e.
Proof.
  unfold _valid_batch_iter, valid_windows, Py.range.
  destruct (C =? 0); simpl; by intros [= <-].
Qed.

Lemma gen_training_batch_raises_training d C B k e :
  nth k (_gen_training_batch d C B) (Raise ValueError) = Raise e ->
  e <> KeyboardInterrupt /\ training_exn e.
Proof.
  intros Hnth.
  assert (e = ValueError) as ->; [|done].
  destruct (nth_in_or_default k (_gen_training_batch d C B) (Raise ValueError))
    as [Hin|Hdef].
  - assert (Forall (fun r => forall e, r = Raise e -> e = ValueError)
              (_gen_training_batch d C B)) as Hall.
    { apply rand_bind_raises.
      - apply replicate_raises, randint_raises.
      - intros x. by constructor. }
    rewrite Forall_forall in Hall. eapply Hall; [|done]. by apply list_elem_of_In.
  - rewrite Hdef in Hnth. by injection Hnth.
Qed.

Ltac training_step :=
  lazymatch goal with
  | |- sound _ _ (mbind _ _) => apply sound_bind; [|intros ?]
  | |- sound _ _ (mret _) => apply sound_ret
  | |- sound _ _ (get _) => apply sound_get
  | |- sound _ _ (emit _) => apply sound_emit; exact I
  | |- sound _ _ (set_step _) => apply sound_set_step
  | |- sound _ _ (set_updates _) => apply sound_set_updates
  | |- sound _ _ (set_loss_meter _) => apply sound_set_loss_meter
  | |- sound _ _ (modify_fs _) => apply sound_modify_fs
  | |- sound _ _ tick => apply sound_tick
  | |- sound _ _ (raise _) => apply sound_raise; done
  | |- sound _ _ (lift (Py.mod_ _ _)) => apply sound_lift, mod_raises_training
  | |- sound _ _ (lift (AverageMeter.mean _)) => apply sound_lift, mean_raises_training
  | |- sound _ _ (lift (_valid_batch_iter _ _ _)) =>
      apply sound_lift, valid_batch_iter_raises_training
  | |- sound _ _ (lift (nth _ (_gen_training_batch _ _ _) _)) =>
      apply sound_lift, gen_training_batch_raises_training
  | |- sound _ _ (if ?b then _ else _) => destruct b
  end.

Ltac training_auto := repeat training_step.

Lemma training_save env : sound late_event training_exn (save env).
Proof. unfold save, backup, torch_save. training_auto. Qed.

Lemma training_valid_loop env batches losses :
  sound late_event training_exn (valid_loop env batches losses).
Proof.
  revert losses. induction batches as [|ctx batches IH]; intros losses; simpl.
  - training_auto.
  - training_auto. apply IH.
Qed.

Lemma training_validate env : sound late_event training_exn (validate env).
Proof. unfold validate, get_valid_loss. training_auto. apply training_valid_loop. Qed.

Lemma training_micro_batches losses :
  sound late_event training_exn (micro_batches losses).
Proof. induction losses as [|l losses IH]; simpl; training_auto. apply IH. Qed.

Lemma training_train_step env : sound late_event training_exn (train_step env).
Proof. unfold train_step. training_auto. apply training_micro_batches. Qed.

Lemma training_loop_body env : sound late_event training_exn (loop_body env).
Proof.
  unfold loop_body.
  training_auto;
    first [apply training_save | apply training_validate | apply training_train_step].
Qed.

Lemma training_epoch_loop env n : sound late_event training_exn (epoch_loop env n).
Proof.
  induction n as [|n IH]; simpl; training_auto; [apply training_loop_body | apply IH].
Qed.

Lemma training_epochs_loop env n : sound late_event training_exn (epochs_loop env n).
Proof.
  induction n as [|n IH]; simpl; training_auto;
    first [apply training_epoch_loop | apply training_save | apply training_validate
          | apply IH].
Qed.

(** How [run] can end with an exception. *)
Lemma run_raises env st st' r e :
  run env st = (st', r) -> r = Raise e ->
  (e = SystemExit 1 /\ is_main env = true /\ only_validate (args env) = false /\
   sigint st <> None) \/
  training_exn e.
Proof.
  intros Hrun ->. unfold run in Hrun.
  destruct (only_validate (args env)) eqn:Honly.
  { by destruct (is_main env); injection Hrun. }
  unfold except_KeyboardInterrupt, train in Hrun.
  destruct (epochs_loop env (Z.to_nat (epochs (args env))) st) as [st1 r1] eqn:Htrain.
  destruct (training_epochs_loop env _ _ _ _ Htrain) as (_ & Hexn & Hki & _).
  assert (r1 = Raise KeyboardInterrupt \/ r1 <> Raise KeyboardInterrupt) as [->|Hne].
  { destruct r1 as [|[]]; auto. }
  - destruct (Hki eq_refl) as [Hpending Hdone]. unfold interrupted in Hrun.
    destruct (is_main env) eqn:Hmain; [|by injection Hrun].
    rewrite bind_emit in Hrun.
    match type of Hrun with
    | (save env ≫= _) ?s = _ =>
        rewrite (bind_ok _ _ _ _ _ (save_spec env s Hmain Hdone)) in Hrun
    end.
    injection Hrun as _ <-. by left.
  - assert (r1 = Raise e) as ->.
    { destruct r1 as [|[]]; try (by injection Hrun as _ <-). done. }
    right. apply Hexn; [done|]. by intros ->.
Qed.

(** X17.  The only [SystemExit] a process raises is that of the
    interrupt handler: if a process that knows its number of devices ends
    with [SystemExit(c)], then [c] is 1, the process is the primary of a
    training run, and a signal was pending. *)
Theorem only_the_handler_exits (w : World) (a : Args) (n : Z) (st st' : State)
    (c : Z) :
  main_worker w a n st = (st', Raise (SystemExit c)) ->
  c = 1 /\ primary a = true /\ only_validate a = false /\ sigint st <> None.
Proof.
  intros Hrun. assert (Z.max 1 n <> 0) as Hws by lia.
  unfold main_worker in Hrun. cbv zeta in Hrun.
  rewrite bind_lift_mod in Hrun by done. unfold assert_ in Hrun.
  destruct (_ =? 0); [|by injection Hrun].
  rewrite bind_ret in Hrun.
  rewrite (bind_lift_ok _ _ _ _ (floordiv_ok _ _ Hws)) in Hrun.
  apply bind_inv in Hrun as [(e' & Hdir & He) | ([] & st1 & Hdir & Hrun)].
  { apply prepare_run_dir_inv in Hdir as [(Hr & _) | (Hr & _)]; congruence. }
  apply prepare_run_dir_inv in Hdir as [([= ] & _) | (_ & Hsig1 & _)].
  destruct (load_everything_spec w a (Z.max 1 n) st1)
    as (st2 & evs2 & Hload & _ & _ & _ & _ & _ & Hsig2).
  rewrite (bind_ok _ _ _ _ _ Hload), bind_set_step in Hrun.
  unfold Py.floordiv in Hrun. destruct (_ =? 0); [by injection Hrun|].
  rewrite (bind_lift_ok (Ok _) _ _ _ eq_refl) in Hrun.
  apply (run_raises _ _ _ _ (SystemExit c)) in Hrun
    as [(Hc & Hmain' & Honly & Hsig) | Hexn]; [| done | done].
  injection Hc as ->. simpl in *. split_and!; try done. congruence.
Qed.

Lemma only_the_handler_exits_demo :
  1 = 1 /\ primary demo_args = true /\ only_validate demo_args = false /\
  Some 9%nat <> None.
Proof.
  apply (only_the_handler_exits demo_world demo_args 1 (boot ∅ (Some 9%nat))
           (main_worker demo_world demo_args 1 (boot ∅ (Some 9%nat))).1 1).
  by vm_compute.
Defined.

(** ** The points written to the log *)

Lemma log_points_app (evs1 evs2 : list event) :
  log_points (evs1 ++ evs2) = log_points evs1 ++ log_points evs2.
Proof. unfold log_points. apply flat_map_app. Qed.

Lemma ascending_app (lo mid : Z) (l1 l2 : list Z) :
  lo <= mid -> ascending lo l1 -> Forall (fun s => s <= mid) l1 -> ascending mid l2 ->
  ascending lo (l1 ++ l2).
Proof.
  revert lo. induction l1 as [|x l1 IH]; intros lo Hlo H1 Hall H2; simpl.
  - destruct l2 as [|y l2]; [done|]. simpl in *. split; [lia | tauto].
  - destruct H1 as [Hx H1]. apply Forall_cons in Hall as [Hxm Hall].
    split; [done|]. by apply IH.
Qed.

Lemma ascending_constant (s : Z) (n : nat) : ascending s (replicate n s).
Proof. induction n as [|n IH]; simpl; [done|]. split; [lia | done]. Qed.

Section Logs.
Context (T : Z).

#[global] Instance logs_at_refl s : Reflexive (logs_at T s).
Proof. intros st Hs. split; [done|]. exists []. by rewrite app_nil_r. Qed.

#[global] Instance logs_at_trans s : Transitive (logs_at T s).
Proof.
  intros s1 s2 s3 H12 H23 Hs.
  destruct (H12 Hs) as [Hs2 (evs1 & Htr1 & Hall1)].
  destruct (H23 Hs2) as [Hs3 (evs2 & Htr2 & Hall2)].
  split; [done|]. exists (evs1 ++ evs2). rewrite Htr2, Htr1, app_assoc.
  split; [done|]. rewrite log_points_app. by apply Forall_app.
Qed.

#[global] Instance logs_in_order_refl : Reflexive (logs_in_order T).
Proof. intros st. split; [lia|]. exists [], []. by rewrite app_nil_r. Qed.

#[global] Instance logs_in_order_trans : Transitive (logs_in_order T).
Proof.
  intros s1 s2 s3 [Hle1 (evs1 & ss1 & Htr1 & Hp1 & Hasc1 & Hup1)]
                  [Hle2 (evs2 & ss2 & Htr2 & Hp2 & Hasc2 & Hup2)].
  split; [lia|]. exists (evs1 ++ evs2), (ss1 ++ ss2).
  rewrite Htr2, Htr1, app_assoc, log_points_app, Hp1, Hp2, map_app.
  split_and!; [done | done | by eapply ascending_app |].
  apply Forall_app. split; [|done]. eapply Forall_impl; [done|]. simpl. lia.
Qed.

Lemma at_in_order st st' : logs_at T (step st) st st' -> logs_in_order T st st'.
Proof.
  intros Hat. destruct (Hat eq_refl) as [Hs (evs & Htr & Hall)].
  split; [lia|]. exists evs, (replicate (length (log_points evs)) (step st)).
  split_and!; [done | | apply ascending_constant |].
  - induction Hall as [|x l -> _ IH]; simpl; [done | by rewrite <- IH].
  - apply Forall_forall. intros x [-> _]%elem_of_replicate. lia.
Qed.

Lemma follows_at_in_order {A : Type} (m : M A) :
  (forall s, follows (logs_at T s) m) -> follows (logs_in_order T) m.
Proof. intros Hm st st' r Hrun. apply at_in_order. by eapply Hm. Qed.
End Logs.

Ltac at_side :=
  first
    [ intros ? ?; split; [done|]; eexists [_]; split; [reflexivity|];
      by repeat constructor
    | intros ? ? ?; split; [done|]; exists []; by rewrite app_nil_r
    | intros ? ?; split; [done|]; exists []; by rewrite app_nil_r ].

Lemma follows_then (Q : State -> State -> Prop) {A B : Type} (m : M A) (f : A -> M B)
    st st' r :
  follows Q m ->
  (m ≫= f) st = (st', r) ->
  (Q st st' /\ exists e, r = Raise e) \/
  (exists a st1, Q st st1 /\ f a st1 = (st', r)).
Proof.
  intros Hm [(e & Hrun & ->) | (a & st1 & Hrun & Hrest)]%bind_inv.
  - left. split; [by eapply Hm | by eexists].
  - right. exists a, st1. split; [by eapply Hm | done].
Qed.

Section LogsOfRun.
Context (env : Env).
Local Abbreviation T := (step_tokens env).

Lemma at_save s : follows (logs_at T s) (save env).
Proof. unfold save, backup, torch_save. follows_auto at_side. Qed.

Lemma at_valid_loop s batches losses : follows (logs_at T s) (valid_loop env batches losses).
Proof.
  revert losses. induction batches as [|ctx batches IH]; intros losses; simpl;
    follows_auto at_side. apply IH.
Qed.

Lemma at_validate s : follows (logs_at T s) (validate env).
Proof.
  intros st st' r Hrun Hs. revert Hrun. unfold validate.
  destruct (negb (is_main env)); [intros [= <- _]; by apply logs_at_refl|].
  rewrite bind_get, Hs. intros Hrun. revert Hs. revert st st' r Hrun.
  change (follows (logs_at T s)
            (get_valid_loss env ≫= fun v =>
               tick;; emit (EvWriteEvent (s * step_tokens env) "valid_loss" v))).
  unfold get_valid_loss. follows_auto at_side. apply at_valid_loop.
Qed.

Lemma at_micro_batches s losses : follows (logs_at T s) (micro_batches losses).
Proof. induction losses as [|l losses IH]; simpl; follows_auto at_side. apply IH. Qed.

Lemma at_train_step s : follows (logs_at T s) (train_step env).
Proof. unfold train_step. follows_auto at_side. apply at_micro_batches. Qed.

Lemma at_tick s : follows (logs_at T s) tick.
Proof. follows_auto at_side. Qed.

Lemma in_order_loop_body : follows (logs_in_order T) (loop_body env).
Proof.
  intros st st' r Hrun. unfold loop_body in Hrun.
  apply (follows_then (logs_at T (step st))) in Hrun
    as [[H _] | ([] & st1 & H1 & Hrun)]; [by apply at_in_order | | apply at_tick].
  rewrite bind_get in Hrun.
  assert (step st1 = step st) as Hs1 by (by destruct (H1 eq_refl)).
  rewrite Hs1 in Hrun.
  apply (follows_then (logs_at T (step st))) in Hrun
    as [[H _] | (m & st2 & H2 & Hrun)];
    [apply at_in_order; by etrans | | follows_auto at_side].
  apply (follows_then (logs_at T (step st))) in Hrun
    as [[H _] | ([] & st3 & H3 & Hrun)];
    [apply at_in_order; by etrans; [|etrans] | | follows_auto at_side; apply at_save].
  apply (follows_then (logs_at T (step st))) in Hrun
    as [[H _] | ([] & st4 & H4 & Hrun)];
    [apply at_in_order; by etrans; [|etrans; [|etrans]] | | apply at_tick].
  assert (logs_at T (step st) st st4) as H04 by (by etrans; [|etrans; [|etrans]]).
  clear H1 H2 H3 H4 Hs1 st1 st2 st3.
  destruct (budget_reached env (step st)).
  { apply at_in_order. etrans; [done|].
    match type of Hrun with
    | ?b st4 = _ => assert (follows (logs_at T (step st)) b) as Hf
    end.
    { follows_auto at_side; [apply at_save | apply at_validate]. }
    by eapply Hf. }
  apply (follows_then (logs_at T (step st))) in Hrun
    as [[H _] | ([] & st5 & H5 & Hrun)];
    [apply at_in_order; by etrans | | apply at_train_step].
  apply (follows_then (logs_at T (step st))) in Hrun
    as [[H _] | ([] & st6 & H6 & Hrun)];
    [apply at_in_order; by etrans; [|etrans] | | apply at_tick].
  assert (logs_at T (step st) st st6) as H06 by (by etrans; [|etrans]).
  clear H04 H5 H6 st4 st5.
  rewrite bind_set_step in Hrun.
  match type of Hrun with
  | ?b ?s = _ =>
      assert (follows (logs_at T (step st + 1)) b) as Hf;
        [|apply Hf in Hrun; set (st7 := s) in *]
  end.
  { follows_auto at_side. apply at_validate. }
  destruct (H06 eq_refl) as [Hs6 _].
  apply at_in_order in H06. etrans; [done|]. trans st7.
  - subst st7. split; [simpl; lia|].
    exists [], []. simpl. by rewrite app_nil_r.
  - apply at_in_order. subst st7. simpl. done.
Qed.

Lemma in_order_epoch_loop n : follows (logs_in_order T) (epoch_loop env n).
Proof.
  induction n as [|n IH]; simpl.
  - apply follows_ret. apply _.
  - apply follows_bind; [apply _ | apply in_order_loop_body | intros returned].
    destruct returned; [apply follows_ret; apply _ | done].
Qed.

Lemma in_order_epochs_loop n : follows (logs_in_order T) (epochs_loop env n).
Proof.
  induction n as [|n IH]; simpl.
  - apply follows_ret. apply _.
  - apply follows_bind; [apply _ | apply in_order_epoch_loop | intros returned].
    destruct returned; [apply follows_ret; apply _|].
    apply follows_bind; [apply _ | apply follows_at_in_order, at_tick | intros _].
    apply follows_bind; [apply _ | apply follows_at_in_order, at_save | intros _].
    apply follows_bind; [apply _ | apply follows_at_in_order, at_validate | intros _].
    done.
Qed.

Lemma in_order_run : follows (logs_in_order T) (run env).
Proof.
  unfold run. destruct (only_validate (args env)).
  { apply follows_at_in_order. intros s. follows_auto at_side. }
  apply follows_except; [apply _ | apply in_order_epochs_loop |].
  apply follows_at_in_order. intros s. unfold interrupted.
  follows_auto at_side. apply at_save.
Qed.
End LogsOfRun.

Lemma at_prepare_run_dir T s a : follows (logs_at T s) (prepare_run_dir a).
Proof. unfold prepare_run_dir. follows_auto at_side. Qed.

Lemma at_load_everything T s w a ws : follows (logs_at T s) (load_everything w a ws).
Proof.
  unfold load_everything. follows_auto at_side. destruct (device_id a);
    follows_auto at_side.
Qed.

#[global] Instance logs_nothing_refl : Reflexive logs_nothing.
Proof. intros st. exists []. by rewrite app_nil_r. Qed.

#[global] Instance logs_nothing_trans : Transitive logs_nothing.
Proof.
  intros s1 s2 s3 (evs1 & Htr1 & Hp1) (evs2 & Htr2 & Hp2).
  exists (evs1 ++ evs2). rewrite Htr2, Htr1, app_assoc, log_points_app, Hp1, Hp2. done.
Qed.

Ltac nothing_side :=
  first
    [ intros ?; eexists [_]; split; reflexivity
    | intros ? ?; exists []; by rewrite app_nil_r
    | intros ?; exists []; by rewrite app_nil_r ].

Lemma nothing_prepare_run_dir a : follows logs_nothing (prepare_run_dir a).
Proof. unfold prepare_run_dir. follows_auto nothing_side. Qed.

Lemma nothing_load_everything w a ws : follows logs_nothing (load_everything w a ws).
Proof.
  unfold load_everything. follows_auto nothing_side. destruct (device_id a);
    follows_auto nothing_side.
Qed.

(** X18.  The points a process writes to the log, training losses and
    validation losses alike, are at token counts [s * step_tokens] for
    values [s] of the step counter that never decrease along the run, from
    1 up to the value the counter ends with. *)
Theorem log_points_in_order (w : World) (a : Args) (n : Z) (st st' : State)
    (r : result unit) :
  main_worker w a n st = (st', r) ->
  exists evs ss,
    trace st' = trace st ++ evs /\
    log_points evs
      = map (fun s => s * (n_ctx a * batch_size a
                           * default (Z.max 1 n) (g_accum_gradients a))) ss /\
    ascending 1 ss /\ Forall (fun s => s <= step st') ss.
Proof.
  intros Hrun. set (T := n_ctx a * batch_size a * _).
  assert (Z.max 1 n <> 0) as Hws by lia.
  assert (forall s1 s2, logs_nothing s1 s2 ->
            exists evs ss, trace s2 = trace s1 ++ evs /\
              log_points evs = map (fun s => s * T) ss /\
              ascending 1 ss /\ Forall (fun s => s <= step s2) ss) as Hnone.
  { intros s1 s2 (evs & Htr & Hp). exists evs, []. by rewrite Hp. }
  unfold main_worker in Hrun. cbv zeta in Hrun.
  rewrite bind_lift_mod in Hrun by done. unfold assert_ in Hrun.
  destruct (_ =? 0); [|injection Hrun as <- <-; by apply Hnone].
  rewrite bind_ret in Hrun.
  rewrite (bind_lift_ok _ _ _ _ (floordiv_ok _ _ Hws)) in Hrun.
  apply (follows_then logs_nothing) in Hrun
    as [[H _] | ([] & st1 & H1 & Hrun)];
    [by apply Hnone | | apply nothing_prepare_run_dir].
  apply (follows_then logs_nothing) in Hrun
    as [[H _] | ([] & st2 & H2 & Hrun)];
    [apply Hnone; by etrans | | apply nothing_load_everything].
  assert (logs_nothing st st2) as (evs0 & Htr0 & Hp0) by (by etrans).
  rewrite bind_set_step in Hrun. fold T in Hrun.
  unfold Py.floordiv in Hrun. destruct (T =? 0).
  { injection Hrun as <- <-. exists evs0, []. by rewrite Hp0. }
  rewrite (bind_lift_ok (Ok _) _ _ _ eq_refl) in Hrun.
  apply in_order_run in Hrun as [_ (evs & ss & Htr & Hp & Hasc & Hup)].
  simpl in Htr, Hp, Hasc. exists (evs0 ++ evs), ss.
  rewrite Htr, Htr0, app_assoc, log_points_app, Hp0, Hp. done.
Qed.

Lemma log_points_in_order_demo :
  exists evs ss,
    trace (main_worker demo_world demo_args 1 (boot ∅ None)).1 = [] ++ evs /\
    log_points evs = map (fun s => s * (4 * 2 * 1)) ss /\
    ascending 1 ss /\
    Forall (fun s => s <= step (main_worker demo_world demo_args 1 (boot ∅ None)).1) ss.
Proof.
  apply (log_points_in_order demo_world demo_args 1 (boot ∅ None) _ _
           (surjective_pairing _)).
Defined.
